(** * mytube-backend: the clip-concatenation export pipeline

    A shallow embedding of [server/src/generatePublish.js]: the timeline
    normalizer [normTimeline], the filter graph builder
    [buildFilterForConcat], the process runner [runCmd], the stream prober
    [hasAudioStream] and the request handler registered by
    [registerGeneratePublish], and of the thumbnail helpers of
    [server/src/server.js] that share [runCmd] and [clamp]
    ([getVideoDurationSeconds], [generateThumbnailAtSecond],
    [generateThumbnailHalfwayWithFallback]), followed by the properties
    proved about them.

    Layout: the JavaScript values and coercions the module relies on
    (module [JS]), then the functions of the module under their own names,
    then the theorems. *)

From Stdlib Require Import Bool List String Ascii Arith ZArith QArith Lia.
From Stdlib Require Import Permutation Sorted DecimalString Qround.
Import ListNotations.

Local Close Scope Q_scope.
#[local] Set Warnings "-register-all".
Local Open Scope string_scope.

(* ================================================================== *)
(** ** The JavaScript values the module computes with *)
(* ================================================================== *)

Module JS.

(** *** Strings

    A string is a sequence of code units; the model keeps the code units
    below 256, one [ascii] each. *)

(** [WhiteSpace] and [LineTerminator] code units below 256: TAB, LF, VT,
    FF, CR, SP and NBSP. They are what [String.prototype.trim] strips. *)
Definition isWhiteSpace (c : ascii) : bool :=
  let n := nat_of_ascii c in
  (((9 <=? n) && (n <=? 13)) || (n =? 32) || (n =? 160))%nat.

Fixpoint dropWhile {A} (p : A -> bool) (l : list A) : list A :=
  match l with
  | [] => []
  | x :: l' => if p x then dropWhile p l' else l
  end.

Definition trimStart (l : list ascii) : list ascii := dropWhile isWhiteSpace l.
Definition trimEnd (l : list ascii) : list ascii := rev (dropWhile isWhiteSpace (rev l)).

(** [s.trim()] *)
Definition trim (s : string) : string :=
  string_of_list_ascii (trimEnd (trimStart (list_ascii_of_string s))).

(** Lower-casing of one code unit below 256: A-Z, and the Latin-1 capitals
    U+00C0..U+00DE without the multiplication sign U+00D7. *)
Definition lowerChar (c : ascii) : ascii :=
  let n := nat_of_ascii c in
  if (((65 <=? n) && (n <=? 90))
      || ((192 <=? n) && (n <=? 222) && negb (n =? 215)))%nat
  then ascii_of_nat (n + 32) else c.

(** [s.toLowerCase()] *)
Fixpoint toLowerCase (s : string) : string :=
  match s with
  | EmptyString => EmptyString
  | String c s' => String (lowerChar c) (toLowerCase s')
  end.

(** [s.split(sep)] for a one-character separator; the empty string splits
    into one empty piece. *)
Fixpoint split (sep : ascii) (s : string) : list string :=
  match s with
  | EmptyString => [EmptyString]
  | String c s' =>
      if Ascii.eqb c sep then EmptyString :: split sep s'
      else match split sep s' with
           | piece :: rest => String c piece :: rest
           | [] => [String c EmptyString]
           end
  end.

(** [l.join(sep)] on an array of strings. *)
Definition join (sep : string) (l : list string) : string := String.concat sep l.

(** Truthiness of a string: [Boolean(s)]. *)
Definition truthyString (s : string) : bool :=
  match s with EmptyString => false | _ => true end.

(** [s || d] on strings. *)
Definition orString (s d : string) : string := if truthyString s then s else d.

(** [Array.from(new Set(l))]: the distinct elements in the order of their
    first occurrence. *)
Definition addToSet (seen : list string) (x : string) : list string :=
  if existsb (String.eqb x) seen then seen else seen ++ [x].
Definition distinct (l : list string) : list string := fold_left addToSet l [].

(** [l.slice(0, n)] *)
Definition slice0 {A} (n : nat) (l : list A) : list A := firstn n l.

(** The decimal text of an array index or a count, as a template literal
    prints it. *)
Definition natToString (n : nat) : string := NilZero.string_of_uint (Nat.to_uint n).

(** *** Numbers

    A Number is NaN, an infinity or a finite value. Finite values are kept
    as exact rationals: comparisons and the sign of a difference are those
    of the doubles, the rounding of a difference is not modelled (neither
    is the sign of zero). *)
Inductive number : Type :=
| NaN
| PosInf
| NegInf
| Fin (q : Q).

Definition zero : number := Fin 0%Q.
Definition one : number := Fin 1%Q.

(** [Number.isFinite(n)] *)
Definition isFinite (n : number) : bool :=
  match n with Fin _ => true | _ => false end.

Definition isNaN (n : number) : bool :=
  match n with NaN => true | _ => false end.

(** [a < b] *)
Definition lt (a b : number) : bool :=
  match a, b with
  | NaN, _ | _, NaN => false
  | PosInf, _ => false
  | _, PosInf => true
  | _, NegInf => false
  | NegInf, _ => true
  | Fin x, Fin y => match (x ?= y)%Q with Lt => true | _ => false end
  end.

(** [a > b], [a <= b], [a >= b] *)
Definition gt (a b : number) : bool := lt b a.
Definition le (a b : number) : bool := negb (isNaN a) && negb (isNaN b) && negb (lt b a).
Definition ge (a b : number) : bool := le b a.

(** [a - b] *)
Definition sub (a b : number) : number :=
  match a, b with
  | NaN, _ | _, NaN => NaN
  | PosInf, PosInf | NegInf, NegInf => NaN
  | PosInf, _ => PosInf
  | NegInf, _ => NegInf
  | Fin _, PosInf => NegInf
  | Fin _, NegInf => PosInf
  | Fin x, Fin y => Fin (x - y)%Q
  end.

(** [Math.max(a, b)] *)
Definition Math_max (a b : number) : number :=
  if isNaN a || isNaN b then NaN else if lt a b then b else a.

(** Truthiness of a number: false for NaN and zero. *)
Definition truthyNumber (n : number) : bool :=
  match n with
  | NaN => false
  | Fin q => negb (Qeq_bool q 0)
  | _ => true
  end.

(** *** Errors and completions *)

(** An error object: its [name] and its [message]. *)
Record Error : Type := mkError { name : string; message : string }.

(** A [TypeError] raised by the language itself, and [new Error(msg)]. *)
Definition typeError (msg : string) : Error := mkError "TypeError" msg.
Definition newError (msg : string) : Error := mkError "Error" msg.

Inductive completion (A : Type) : Type :=
| Normal (a : A)
| Throw (e : Error).
Arguments Normal {A} a.
Arguments Throw {A} e.

Definition bind {A B} (c : completion A) (k : A -> completion B) : completion B :=
  match c with
  | Normal a => k a
  | Throw e => Throw e
  end.

(** [l.map(f)] where [f] may throw: elements are visited in order and the
    first exception ends the traversal. *)
Fixpoint mapM {A B} (f : A -> completion B) (l : list A) : completion (list B) :=
  match l with
  | [] => Normal []
  | x :: l' =>
      bind (f x) (fun y => bind (mapM f l') (fun ys => Normal (y :: ys)))
  end.

(** *** Values

    The values a request can carry: what [JSON.parse] builds, and
    [undefined] for what is absent. *)

Inductive value : Type :=
| VUndefined
| VNull
| VBool (b : bool)
| VNum (n : number)
| VStr (s : string)
| VArr (l : list value)
| VObj (fields : list (string * value)).

(** The value of an own property of an object, [undefined] when there is
    none. An object has each property once; of two entries under one name
    the first is the property. *)
Fixpoint lookup (k : string) (fields : list (string * value)) : value :=
  match fields with
  | [] => VUndefined
  | (k', v) :: rest => if String.eqb k k' then v else lookup k rest
  end.

Fixpoint hasOwn (k : string) (fields : list (string * value)) : bool :=
  match fields with
  | [] => false
  | (k', _) :: rest => String.eqb k k' || hasOwn k rest
  end.

(** [v.k] for the property names this module reads ([videoId], [id],
    [start], [in], [out] and the fields of the request body), none of which
    is defined on the prototype of a primitive, an array or a plain object.
    Reading a property of [null] or [undefined] throws. *)
Definition getProp (v : value) (k : string) : completion value :=
  match v with
  | VUndefined =>
      Throw (typeError ("Cannot read properties of undefined (reading '" ++ k ++ "')"))
  | VNull =>
      Throw (typeError ("Cannot read properties of null (reading '" ++ k ++ "')"))
  | VObj fields => Normal (lookup k fields)
  | _ => Normal VUndefined
  end.

Definition nullish (x : value) : bool :=
  match x with VUndefined | VNull => true | _ => false end.

(** [x ?? d] *)
Definition coalesce (x d : value) : value := if nullish x then d else x.

(** Truthiness of a value. *)
Definition truthy (x : value) : bool :=
  match x with
  | VUndefined | VNull => false
  | VBool b => b
  | VNum n => truthyNumber n
  | VStr s => truthyString s
  | VArr _ | VObj _ => true
  end.

(** [x || d] *)
Definition orElse (x d : value) : value := if truthy x then x else d.

(** A destructuring default, [{ k = d }]: used when the property is
    [undefined]. *)
Definition orDefault (x d : value) : value :=
  match x with VUndefined => d | _ => x end.

(** The two conversions between numbers and text that the language
    defines, [Number::toString] and [StringToNumber]. The module only
    calls them; what is proved holds for every implementation. *)
Class Runtime : Type := {
  numberToString : number -> string;
  stringToNumber : string -> number
}.

Section Coercions.
Context {RT : Runtime}.

Definition cannotConvert : Error := typeError "Cannot convert object to primitive value".

(** [String(v)]. An array is joined with commas, [null] and [undefined]
    elements printing as the empty string; a plain object prints through
    [Object.prototype.toString] unless an own [toString] property (never
    callable in parsed JSON) hides it, in which case no primitive is
    obtained and a [TypeError] is thrown. *)
Fixpoint ToString (v : value) : completion string :=
  match v with
  | VUndefined => Normal "undefined"
  | VNull => Normal "null"
  | VBool true => Normal "true"
  | VBool false => Normal "false"
  | VNum n => Normal (numberToString n)
  | VStr s => Normal s
  | VArr l =>
      bind ((fix elems (l : list value) : completion (list string) :=
               match l with
               | [] => Normal []
               | x :: l' =>
                   bind (if nullish x then Normal "" else ToString x)
                        (fun s => bind (elems l') (fun ss => Normal (s :: ss)))
               end) l)
           (fun pieces => Normal (join "," pieces))
  | VObj fields =>
      if hasOwn "toString" fields then Throw cannotConvert
      else Normal "[object Object]"
  end.

(** [Number(v)]. Arrays and objects go through their string form. *)
Definition ToNumber (v : value) : completion number :=
  match v with
  | VUndefined => Normal NaN
  | VNull => Normal zero
  | VBool true => Normal one
  | VBool false => Normal zero
  | VNum n => Normal n
  | VStr s => Normal (stringToNumber s)
  | VArr _ | VObj _ => bind (ToString v) (fun s => Normal (stringToNumber s))
  end.

End Coercions.

End JS.

Notation "x <- c1 ;; c2" := (JS.bind c1 (fun x => c2))
  (at level 61, c1 at next level, right associativity).

(* ================================================================== *)
(** ** Timeline normalizer *)
(* ================================================================== *)

(** The object built by the [map] callback of [normTimeline]. *)
Record clip : Type := mkClip {
  videoId : string;
  start : JS.number;
  in_ : JS.number;
  out : JS.number
}.

(** [Array.prototype.sort] with a comparison function. The sort is stable,
    and a comparison result that is NaN counts as zero; on a comparator that
    orders the elements consistently every conforming implementation returns
    the list computed here, by stable insertion. *)
Section Sort.
Context {A : Type} (comparefn : A -> A -> JS.number).

Definition sortsAfter (x y : A) : bool := JS.lt JS.zero (comparefn x y).

Fixpoint insert (x : A) (l : list A) : list A :=
  match l with
  | [] => [x]
  | y :: l' => if sortsAfter x y then y :: insert x l' else x :: l
  end.

Definition sort (l : list A) : list A := fold_right insert [] l.
End Sort.

Section Normalizer.
Context {RT : JS.Runtime}.

(** The [map] callback: [String(c.videoId ?? c.id ?? "")] and
    [Number(c.f ?? 0)] for the three numeric fields. *)
Definition coerceClip (c : JS.value) : JS.completion clip :=
  v1 <- JS.getProp c "videoId" ;;
  v <- (if JS.nullish v1
        then v2 <- JS.getProp c "id" ;; JS.Normal (JS.coalesce v2 (JS.VStr ""))
        else JS.Normal v1) ;;
  vid <- JS.ToString v ;;
  s <- JS.getProp c "start" ;;
  s' <- JS.ToNumber (JS.coalesce s (JS.VNum JS.zero)) ;;
  i <- JS.getProp c "in" ;;
  i' <- JS.ToNumber (JS.coalesce i (JS.VNum JS.zero)) ;;
  o <- JS.getProp c "out" ;;
  o' <- JS.ToNumber (JS.coalesce o (JS.VNum JS.zero)) ;;
  JS.Normal (mkClip vid s' i' o').

(** The first [filter]. *)
Definition wellTyped (c : clip) : bool :=
  JS.truthyString (videoId c)
  && JS.isFinite (start c) && JS.isFinite (in_ c) && JS.isFinite (out c).

(** The second [filter]. *)
Definition wellRanged (c : clip) : bool :=
  JS.gt (out c) (in_ c) && JS.ge (start c) JS.zero.

(** The comparison function handed to [sort]. *)
Definition byStart (a b : clip) : JS.number := JS.sub (start a) (start b).

Definition normTimeline (raw : JS.value) : JS.completion (list clip) :=
  let arr := match raw with JS.VArr l => l | _ => [] end in
  cs <- JS.mapM coerceClip arr ;;
  JS.Normal (sort byStart (filter wellRanged (filter wellTyped cs))).

End Normalizer.

(* ================================================================== *)
(** ** Filter graph builder *)
(* ================================================================== *)

Section FilterGraph.
Context {RT : JS.Runtime}.

(** [audioFlags?.[i]]: a missing entry is [undefined], which is falsy. *)
Definition flagAt (audioFlags : list bool) (i : nat) : bool := nth i audioFlags false.

(** [Math.max(0, c.out - c.in)] *)
Definition dur (c : clip) : JS.number := JS.Math_max JS.zero (JS.sub (out c) (in_ c)).

Definition videoStage (i : nat) (c : clip) : string :=
  "[" ++ JS.natToString i ++ ":v]trim=start=" ++ JS.numberToString (in_ c)
      ++ ":duration=" ++ JS.numberToString (dur c)
      ++ ",setpts=PTS-STARTPTS[v" ++ JS.natToString i ++ "]".

Definition audioTrimStage (i : nat) (c : clip) : string :=
  "[" ++ JS.natToString i ++ ":a]atrim=start=" ++ JS.numberToString (in_ c)
      ++ ":duration=" ++ JS.numberToString (dur c)
      ++ ",asetpts=PTS-STARTPTS[a" ++ JS.natToString i ++ "]".

Definition silenceStage (i : nat) (c : clip) : string :=
  "aevalsrc=0:d=" ++ JS.numberToString (dur c) ++ "[a" ++ JS.natToString i ++ "]".

Definition audioStage (audioFlags : list bool) (i : nat) (c : clip) : string :=
  if flagAt audioFlags i then audioTrimStage i c else silenceStage i c.

Definition videoLabel (i : nat) : string := "[v" ++ JS.natToString i ++ "]".
Definition audioLabel (i : nat) : string := "[a" ++ JS.natToString i ++ "]".

(** The body of the [for] loop, run from index [i] over the remaining
    clips: the state is the pair of arrays [parts] and [inputs]. *)
Fixpoint loop (audioFlags : list bool) (i : nat) (clips : list clip)
         (parts inputs : list string) : list string * list string :=
  match clips with
  | [] => (parts, inputs)
  | c :: rest =>
      loop audioFlags (S i) rest
           (parts ++ [videoStage i c; audioStage audioFlags i c])
           (inputs ++ [videoLabel i; audioLabel i])
  end.

Definition concatStage (inputs : list string) (n : nat) : string :=
  JS.join "" inputs ++ "concat=n=" ++ JS.natToString n ++ ":v=1:a=1[vout][aout]".

(** The array [parts] as it is just before the final [join]. *)
Definition filterParts (clips : list clip) (audioFlags : list bool) : list string :=
  let '(parts, inputs) := loop audioFlags 0 clips [] [] in
  parts ++ [concatStage inputs (List.length clips)].

Definition buildFilterForConcat (clips : list clip) (audioFlags : list bool) : string :=
  JS.join ";" (filterParts clips audioFlags).

End FilterGraph.

(* ================================================================== *)
(** ** Process runner and stream prober *)
(* ================================================================== *)

(** How a spawned child process ends: the [error] event (the binary could
    not be launched), or the [close] event with the exit code ([None] when a
    signal ended the process) and the text collected from its two streams. *)
Inductive ProcResult : Type :=
| SpawnError (e : JS.Error)
| Closed (code : option Z) (stdout stderr : string).

Section Processes.
Context {RT : JS.Runtime}.
Variable spawn : string -> list string -> ProcResult.

(** [`${code}`] *)
Definition codeToString (code : option Z) : string :=
  match code with
  | Some z => JS.numberToString (JS.Fin (inject_Z z))
  | None => "null"
  end.

(** [runCmd(cmd, args)]: resolves with the two texts when the exit code is
    0, rejects otherwise. *)
Definition runCmd (cmd : string) (args : list string) : JS.completion (string * string) :=
  match spawn cmd args with
  | SpawnError e => JS.Throw e
  | Closed code o e =>
      match code with
      | Some 0%Z => JS.Normal (o, e)
      | _ => JS.Throw (JS.newError
               (JS.orString e (cmd ++ " exited with code " ++ codeToString code)))
      end
  end.

Definition ffprobeArgs (filePath : string) : list string :=
  ["-v"; "error"; "-select_streams"; "a:0"; "-show_entries"; "stream=codec_type";
   "-of"; "default=noprint_wrappers=1:nokey=1"; filePath].

(** [hasAudioStream(filePath)], with its [try]/[catch]. *)
Definition hasAudioStream (filePath : string) : JS.completion bool :=
  match runCmd "ffprobe" (ffprobeArgs filePath) with
  | JS.Normal (o, _) => JS.Normal (String.eqb (JS.trim (JS.orString o "")) "audio")
  | JS.Throw _ => JS.Normal false
  end.

(** [Promise.all(inputPaths.map((p) => hasAudioStream(p)))] *)
Definition probeAll (inputPaths : list string) : JS.completion (list bool) :=
  JS.mapM hasAudioStream inputPaths.

End Processes.

(* ================================================================== *)
(** ** Tags and visibility of the published record *)
(* ================================================================== *)

(** The array [tagsArr], from the text [String(tags || "")]. *)
Definition tagsArr (tags : string) : list string :=
  JS.distinct
    (JS.slice0 30
       (filter (fun t => JS.truthyString t)
          (map (fun t => JS.toLowerCase (JS.trim t)) (JS.split "," tags)))).

Definition allowedVis : list string := ["public"; "private"; "unlisted"].

(** The value [vis], from the text [String(visibility)]. *)
Definition visOf (visibility : string) : string :=
  if existsb (String.eqb (JS.toLowerCase visibility)) allowedVis
  then JS.toLowerCase visibility else "public".

(* ================================================================== *)
(** ** Export orchestrator *)
(* ================================================================== *)

(** A row of the [videos] table as the lookup reads it: the text of its id
    ([id::text] in the query, [String(r.id)] in the handler) and its
    [filename] column, [None] for NULL. *)
Record Row : Type := mkRow { rowId : string; filename : option string }.

(** The parameters of the INSERT. *)
Record NewVideo : Type := mkNewVideo {
  nvUserId : JS.number;
  nvTitle : string;
  nvDescription : string;
  nvVisibility : string;
  nvFilename : string;
  nvTags : list string
}.

(** What the handler sends back: [res.status(s).json({ error })] or
    [res.json({ ok: true, videoId, timelineName })]. *)
Inductive Response : Type :=
| Failure (status : nat) (error : string)
| Published (newId : JS.value) (timelineName : JS.value).

(** The calls the handler makes to its collaborators, in the order made. *)
Inductive Event : Type :=
| EvQuery (ids : list string)
| EvDownload (bucket key outPath : string)
| EvProbe (args : list string)
| EvEncode (args : list string)
| EvUpload (bucket key filePath contentType : string)
| EvInsert (v : NewVideo)
| EvCleanup (root : string)
| EvConsoleLog (text : string)
| EvConsoleError (e : JS.Error).

(** The collaborators of one request: the file system calls, the
    environment variable, the metadata store, object storage, the external
    tools, the clock and the random source. Whether [rmSync] throws may
    depend on the calls made before it. *)
Record Env : Type := mkEnv {
  tmpdir : string;
  mkdtempSync : string -> JS.completion string;
  mkdirSync : string -> JS.completion unit;
  rmSyncThrows : list Event -> bool;
  S3_UPLOADS_BUCKET : option string;
  videos : list Row;
  selectRejects : option JS.Error;
  s3Send : string -> string -> JS.completion bool;
  pipeline : string -> JS.completion unit;
  spawn : string -> list string -> ProcResult;
  uploadFileToS3 : string -> string -> string -> string -> JS.completion unit;
  insertVideo : NewVideo -> JS.completion (list JS.value);
  now : JS.number;
  randomHex : string
}.

(** A request as the handler sees it: [Number(req.user?.id)] and
    [req.body]. *)
Record Request : Type := mkRequest { userId : JS.number; body : JS.value }.

(** A property read off [req.body || {}] by the destructuring at the top of
    the [try] block. *)
Definition bodyField (req : Request) (k : string) : JS.value :=
  match JS.orElse (body req) (JS.VObj []) with
  | JS.VObj fields => JS.lookup k fields
  | _ => JS.VUndefined
  end.

(** The paths that exist, and the calls made so far. *)
Record State : Type := mkState { files : list string; trace : list Event }.

(** The line feed of the banner printed around the filter. *)
Definition nl : string := String (ascii_of_nat 10) EmptyString.

(** [path.join(a, b)] for the segments the handler joins. *)
Definition pathJoin (a b : string) : string := a ++ "/" ++ b.

(** Whether [p] is [root] or lies beneath it. *)
Definition within (root p : string) : bool :=
  String.eqb p root || String.prefix (root ++ "/") p.

(** [fs.rmSync(root, { recursive: true, force: true })] when it succeeds. *)
Definition rmRecursive (root : string) (fs : list string) : list string :=
  filter (fun p => negb (within root p)) fs.

(** Whether anything of the scratch directory is left. *)
Definition scratchExists (root : string) (st : State) : bool :=
  existsb (within root) (files st).

(** *** The handler's control flow: a statement continues, returns a
    response, or throws. *)
Inductive signal (A : Type) : Type :=
| Continue (a : A)
| Return (r : Response)
| Raise (e : JS.Error).
Arguments Continue {A} a.
Arguments Return {A} r.
Arguments Raise {A} e.

Definition M (A : Type) : Type := State -> signal A * State.

Definition ret {A} (a : A) : M A := fun st => (Continue a, st).

Definition bindM {A B} (m : M A) (k : A -> M B) : M B :=
  fun st =>
    match m st with
    | (Continue a, st') => k a st'
    | (Return r, st') => (Return r, st')
    | (Raise e, st') => (Raise e, st')
    end.

Notation "x <~ m ;; k" := (bindM m (fun x => k))
  (at level 61, m at next level, right associativity).
Notation "m ;;; k" := (bindM m (fun _ => k))
  (at level 61, right associativity).

(** [await c], and a synchronous call that may throw. *)
Definition await {A} (c : JS.completion A) : M A :=
  fun st => match c with
            | JS.Normal a => (Continue a, st)
            | JS.Throw e => (Raise e, st)
            end.

Definition respond {A} (r : Response) : M A := fun st => (Return r, st).

Definition emit (ev : Event) : M unit :=
  fun st => (Continue tt, mkState (files st) (trace st ++ [ev])).

Definition touch (p : string) : M unit :=
  fun st => (Continue tt, mkState (p :: files st) (trace st)).

(** What leaves the handler: a response, or an exception nobody caught. *)
Inductive Outcome : Type :=
| Responded (r : Response)
| Unhandled (e : JS.Error).

Section Orchestrator.
Context {RT : JS.Runtime}.
Variable env : Env.

(** [pool.query] for the SELECT: the rows whose id is one of [ids]. *)
Definition selectVideos (ids : list string) : JS.completion (list Row) :=
  match selectRejects env with
  | Some e => JS.Throw e
  | None => JS.Normal (filter (fun r => existsb (String.eqb (rowId r)) ids) (videos env))
  end.

(** [new Map(rows.map((r) => [String(r.id), r]))]: [has] and [get]; of two
    rows with one id the later one is kept. *)
Definition mapHas (byId : list Row) (k : string) : bool :=
  existsb (fun r => String.eqb (rowId r) k) byId.
Definition mapGet (byId : list Row) (k : string) : option Row :=
  find (fun r => String.eqb (rowId r) k) (rev byId).

(** The closure [cleanup]: the exception of a failing [rmSync] is caught
    and dropped. *)
Definition cleanup (tmpRoot : string) : M unit :=
  fun st =>
    (Continue tt,
     mkState (if rmSyncThrows env (trace st) then files st
              else rmRecursive tmpRoot (files st))
             (trace st ++ [EvCleanup tmpRoot])).

(** [downloadS3ToFile({ bucket, key, outPath })] *)
Definition downloadS3ToFile (bucket key outPath : string) : M string :=
  emit (EvDownload bucket key outPath) ;;;
  hasBody <~ await (s3Send env bucket key) ;;
  if hasBody : bool then
    touch outPath ;;;
    await (pipeline env outPath) ;;;
    ret outPath
  else await (JS.Throw (JS.newError ("S3 download failed for " ++ key))).

(** The loop that checks every clip against [byId]. *)
Fixpoint checkResolved (tmpRoot : string) (byId : list Row) (clips : list clip) : M unit :=
  match clips with
  | [] => ret tt
  | c :: rest =>
      if mapHas byId (videoId c) then checkResolved tmpRoot byId rest
      else cleanup tmpRoot ;;;
           respond (Failure 400 ("Unknown clip videoId " ++ videoId c))
  end.

(** The download loop, from index [i], with [inputPaths] as built so
    far. *)
Fixpoint downloadAll (tmpRoot inputDir bucket : string) (byId : list Row)
         (i : nat) (clips : list clip) (inputPaths : list string) : M (list string) :=
  match clips with
  | [] => ret inputPaths
  | c :: rest =>
      match mapGet byId (videoId c) with
      | None =>
          await (JS.Throw (JS.typeError
                   "Cannot read properties of undefined (reading 'filename')"))
      | Some row =>
          let key := JS.orString (match filename row with Some f => f | None => "" end) "" in
          if negb (JS.truthyString key) then
            cleanup tmpRoot ;;;
            respond (Failure 400 ("Missing filename for " ++ videoId c))
          else
            let localName := "src-" ++ JS.natToString i ++ "-" ++ videoId c ++ ".mp4" in
            let localPath := pathJoin inputDir localName in
            downloadS3ToFile bucket key localPath ;;;
            downloadAll tmpRoot inputDir bucket byId (S i) rest (inputPaths ++ [localPath])
      end
  end.

(** The spawns of [inputPaths.map((p) => hasAudioStream(p))]: one prober
    per input, started in the order of the inputs before any of them has
    answered. *)
Fixpoint spawnProbes (inputPaths : list string) : M unit :=
  match inputPaths with
  | [] => ret tt
  | p :: rest => emit (EvProbe (ffprobeArgs p)) ;;; spawnProbes rest
  end.

Definition ffmpegArgs (inputPaths : list string) (filter outPath : string) : list string :=
  flat_map (fun p => ["-i"; p]) inputPaths
  ++ ["-y"; "-hide_banner"; "-loglevel"; "error"; "-filter_complex"; filter;
      "-map"; "[vout]"; "-map"; "[aout]"; "-c:v"; "libx264"; "-preset"; "veryfast";
      "-crf"; "22"; "-c:a"; "aac"; "-b:a"; "128k"; "-movflags"; "+faststart"; outPath].

(** The encoder run: when the process ran at all, its output file may be
    there afterwards, whatever the exit code. *)
Definition encode (args : list string) (outPath : string) : M unit :=
  emit (EvEncode args) ;;;
  match spawn env "ffmpeg" args with
  | Closed _ _ _ => touch outPath
  | SpawnError _ => ret tt
  end ;;;
  await (runCmd (spawn env) "ffmpeg" args) ;;;
  ret tt.

(** The [try] block of the handler. *)
Definition tryBlock (req : Request) (tmpRoot inputDir outDir : string) : M Response :=
  let title := bodyField req "title" in
  let description := JS.orDefault (bodyField req "description") (JS.VStr "") in
  let tags := JS.orDefault (bodyField req "tags") (JS.VStr "") in
  let visibility := JS.orDefault (bodyField req "visibility") (JS.VStr "public") in
  let timelineName := JS.orDefault (bodyField req "timelineName") (JS.VStr "Timeline") in
  let timeline := bodyField req "timeline" in
  clips <~ await (normTimeline timeline) ;;
  titleText <~ await (JS.ToString (JS.orElse title (JS.VStr ""))) ;;
  if negb (JS.truthyString (JS.trim titleText)) then
    cleanup tmpRoot ;;; respond (Failure 400 "Title is required")
  else if (List.length clips =? 0)%nat then
    cleanup tmpRoot ;;; respond (Failure 400 "Timeline is empty")
  else
    match S3_UPLOADS_BUCKET env with
    | None => cleanup tmpRoot ;;; respond (Failure 500 "Missing env S3_UPLOADS_BUCKET")
    | Some bucket =>
        if negb (JS.truthyString bucket) then
          cleanup tmpRoot ;;; respond (Failure 500 "Missing env S3_UPLOADS_BUCKET")
        else
          let ids := map videoId clips in
          emit (EvQuery ids) ;;;
          rows <~ await (selectVideos ids) ;;
          let byId := rows in
          checkResolved tmpRoot byId clips ;;;
          inputPaths <~ downloadAll tmpRoot inputDir bucket byId 0 clips [] ;;
          let outName := "export-" ++ JS.numberToString (now env) ++ "-"
                                   ++ randomHex env ++ ".mp4" in
          let outPath := pathJoin outDir outName in
          spawnProbes inputPaths ;;;
          audioFlags <~ await (probeAll (spawn env) inputPaths) ;;
          let filter := buildFilterForConcat clips audioFlags in
          emit (EvConsoleLog (nl ++ "=== FFMPEG FILTER ===" ++ nl)) ;;;
          emit (EvConsoleLog filter) ;;;
          emit (EvConsoleLog (nl ++ "=====================" ++ nl)) ;;;
          encode (ffmpegArgs inputPaths filter outPath) outPath ;;;
          let uploadKey := "uploads/" ++ JS.numberToString (userId req) ++ "/" ++ outName in
          emit (EvUpload bucket uploadKey outPath "video/mp4") ;;;
          await (uploadFileToS3 env bucket uploadKey outPath "video/mp4") ;;;
          visText <~ await (JS.ToString visibility) ;;
          let vis := visOf visText in
          tagsText <~ await (JS.ToString (JS.orElse tags (JS.VStr ""))) ;;
          titleText' <~ await (JS.ToString title) ;;
          descText <~ await (JS.ToString (JS.orElse description (JS.VStr ""))) ;;
          let record := mkNewVideo (userId req) (JS.trim titleText') (JS.trim descText)
                                   vis uploadKey (tagsArr tagsText) in
          emit (EvInsert record) ;;;
          ins <~ await (insertVideo env record) ;;
          cleanup tmpRoot ;;;
          match ins with
          | [] => await (JS.Throw (JS.typeError
                           "Cannot read properties of undefined (reading 'id')"))
          | newId :: _ => respond (Published newId timelineName)
          end
    end.

Definition genericMessage : string := "Failed to publish generated video".

(** The [catch] block. *)
Definition catchBlock (tmpRoot : string) (e : JS.Error) : M Response :=
  emit (EvConsoleError e) ;;;
  cleanup tmpRoot ;;;
  respond (Failure 500 (JS.orString (JS.message e) genericMessage)).

(** [try { ... } catch (e) { ... }] *)
Definition tryCatch (req : Request) (tmpRoot inputDir outDir : string) : M Response :=
  fun st =>
    match tryBlock req tmpRoot inputDir outDir st with
    | (Raise e, st') => catchBlock tmpRoot e st'
    | other => other
    end.

(** The handler of [POST /api/generate/publish]. The three calls that
    create the scratch tree come before the [try]: what they throw leaves
    the handler uncaught. *)
Definition handler (req : Request) (st : State) : Outcome * State :=
  match mkdtempSync env (pathJoin (tmpdir env) "mytube-export-") with
  | JS.Throw e => (Unhandled e, st)
  | JS.Normal tmpRoot =>
      let st1 := mkState (tmpRoot :: files st) (trace st) in
      let inputDir := pathJoin tmpRoot "inputs" in
      let outDir := pathJoin tmpRoot "out" in
      match mkdirSync env inputDir with
      | JS.Throw e => (Unhandled e, st1)
      | JS.Normal _ =>
          let st2 := mkState (inputDir :: files st1) (trace st1) in
          match mkdirSync env outDir with
          | JS.Throw e => (Unhandled e, st2)
          | JS.Normal _ =>
              let st3 := mkState (outDir :: files st2) (trace st2) in
              match tryCatch req tmpRoot inputDir outDir st3 with
              | (Continue r, st') => (Responded r, st')
              | (Return r, st') => (Responded r, st')
              | (Raise e, st') => (Unhandled e, st')
              end
          end
      end
  end.

End Orchestrator.

(* ================================================================== *)
(** ** Helpers of the server that share [runCmd] and [clamp] *)
(* ================================================================== *)

(** [Math.min(a, b)] *)
Definition Math_min (a b : JS.number) : JS.number :=
  if JS.isNaN a || JS.isNaN b then JS.NaN else if JS.lt b a then b else a.

(** [Math.floor(a)] *)
Definition Math_floor (a : JS.number) : JS.number :=
  match a with
  | JS.Fin q => JS.Fin (inject_Z (Qfloor q))
  | _ => a
  end.

(** [a * b] *)
Definition mul (a b : JS.number) : JS.number :=
  let sign (n : JS.number) : comparison :=
    match n with
    | JS.PosInf => Gt
    | JS.NegInf => Lt
    | JS.Fin q => (q ?= 0)%Q
    | JS.NaN => Eq
    end in
  match a, b with
  | JS.NaN, _ | _, JS.NaN => JS.NaN
  | JS.Fin x, JS.Fin y => JS.Fin (x * y)%Q
  | _, _ =>
      match sign a, sign b with
      | Eq, _ | _, Eq => JS.NaN
      | Gt, Gt | Lt, Lt => JS.PosInf
      | _, _ => JS.NegInf
      end
  end.

(** [clamp(n, min, max)] *)
Definition clamp (n min max : JS.number) : JS.number :=
  JS.Math_max min (Math_min max n).

(** The number literals of the thumbnail helper. *)
Definition num (z : Z) : JS.number := JS.Fin (inject_Z z).
Definition half_ : JS.number := JS.Fin (1 # 2).
Definition quarter : JS.number := JS.Fin (1 # 4).

(** [a === b] on numbers, as a [Set] of numbers compares its elements
    (NaN equal to itself). *)
Definition sameNumber (a b : JS.number) : bool :=
  match a, b with
  | JS.NaN, JS.NaN => true
  | _, _ => JS.le a b && JS.le b a
  end.

(** [Array.from(new Set(l))] on numbers. *)
Definition addNumber (seen : list JS.number) (x : JS.number) : list JS.number :=
  if existsb (sameNumber x) seen then seen else seen ++ [x].
Definition distinctNumbers (l : list JS.number) : list JS.number :=
  fold_left addNumber l [].

Section ServerHelpers.
Context {RT : JS.Runtime}.
Variable spawn : string -> list string -> ProcResult.

Definition durationArgs (videoPath : string) : list string :=
  ["-v"; "error"; "-show_entries"; "format=duration";
   "-of"; "default=noprint_wrappers=1:nokey=1"; videoPath].

(** [getVideoDurationSeconds(videoPath)]: a number, or [None] for
    [null]. *)
Definition getVideoDurationSeconds (videoPath : string) : JS.completion (option JS.number) :=
  match runCmd spawn "ffprobe" (durationArgs videoPath) with
  | JS.Normal (o, _) =>
      let dur := JS.stringToNumber (JS.trim o) in
      if negb (JS.isFinite dur) || JS.le dur JS.zero then JS.Normal None
      else JS.Normal (Some dur)
  | JS.Throw _ => JS.Normal None
  end.

(** The seconds [generateThumbnailHalfwayWithFallback] will try, for the
    duration it was given ([None] for [null]). *)
Definition thumbnailCandidates (dur : option JS.number) : list JS.number :=
  match dur with
  | Some d =>
      if JS.truthyNumber d && JS.gt d JS.zero then
        let half := clamp (Math_floor (mul d half_)) (num 1)
                          (JS.Math_max (num 1) (Math_floor (JS.sub d (num 1)))) in
        distinctNumbers
          (filter (fun t => JS.isFinite t && JS.ge t JS.zero)
             (map (fun t => clamp t JS.zero
                              (JS.Math_max JS.zero (Math_floor (JS.sub d quarter))))
                  [half; num 30; num 10; num 3; num 1]))
      else [num 30; num 10; num 3; num 1]
  | None => [num 30; num 10; num 3; num 1]
  end.

Definition thumbnailArgs (videoPath thumbPath : string) (seconds : JS.number) : list string :=
  ["-y"; "-hide_banner"; "-loglevel"; "error"; "-ss"; JS.numberToString seconds;
   "-i"; videoPath; "-frames:v"; "1"; "-vf"; "scale=640:-1"; "-q:v"; "3"; thumbPath].

(** [generateThumbnailAtSecond(videoPath, thumbPath, seconds)] *)
Definition generateThumbnailAtSecond (videoPath thumbPath : string) (seconds : JS.number)
  : JS.completion unit :=
  _ <- runCmd spawn "ffmpeg" (thumbnailArgs videoPath thumbPath seconds) ;; JS.Normal tt.

(** What a run of the encoder leaves on disk, given its arguments and the
    paths that existed before: the encoder's business, not the server's. *)
Variable ffmpegWrites : list string -> list string -> list string.

(** The loop over the candidates, with [lastErr] as it stands; the removal
    of a half-written thumbnail, whose own failure is ignored, acts on the
    paths that exist. *)
Fixpoint tryCandidates (unlinkThrows : bool) (videoPath thumbPath : string)
         (candidates : list JS.number) (lastErr : option JS.Error) (files : list string)
  : JS.completion JS.number * list string :=
  match candidates with
  | [] =>
      (JS.Throw (match lastErr with
                 | Some e => e
                 | None => JS.newError "Thumbnail generation failed"
                 end), files)
  | t :: rest =>
      let written := ffmpegWrites (thumbnailArgs videoPath thumbPath t) files in
      match generateThumbnailAtSecond videoPath thumbPath t with
      | JS.Normal _ => (JS.Normal t, written)
      | JS.Throw e =>
          let swept :=
            if existsb (String.eqb thumbPath) written && negb unlinkThrows
            then filter (fun p => negb (String.eqb thumbPath p)) written
            else written in
          tryCandidates unlinkThrows videoPath thumbPath rest (Some e) swept
      end
  end.

(** [generateThumbnailHalfwayWithFallback(videoPath, thumbPath)]: the second
    used and the duration found, or the exception thrown. *)
Definition generateThumbnailHalfwayWithFallback (unlinkThrows : bool)
           (videoPath thumbPath : string) (files : list string)
  : JS.completion (JS.number * option JS.number) * list string :=
  match getVideoDurationSeconds videoPath with
  | JS.Throw e => (JS.Throw e, files)
  | JS.Normal dur =>
      match tryCandidates unlinkThrows videoPath thumbPath (thumbnailCandidates dur) None files with
      | (JS.Normal t, files') => (JS.Normal (t, dur), files')
      | (JS.Throw e, files') => (JS.Throw e, files')
      end
  end.

End ServerHelpers.

(* ================================================================== *)
(** ** A runtime to run examples with *)
(* ================================================================== *)

(** Finite values print in plain decimal notation, which is what
    [Number::toString] gives for the integers and short decimals of the
    examples; text is read as an optionally signed decimal integer, the empty
    text as 0 and anything else as NaN. *)
Module Plain.

Definition digit (d : Z) : ascii := ascii_of_nat (48 + Z.to_nat d).

Fixpoint fraction (fuel : nat) (r d : Z) : string :=
  match fuel with
  | O => EmptyString
  | S fuel' =>
      if (r =? 0)%Z then EmptyString
      else String (digit (r * 10 / d)) (fraction fuel' ((r * 10) mod d) d)
  end.

Definition printQ (q : Q) : string :=
  let n := Z.abs (Qnum q) in
  let d := Zpos (Qden q) in
  let r := (n mod d)%Z in
  (if (Qnum q <? 0)%Z then "-" else "")
    ++ NilZero.string_of_uint (N.to_uint (Z.to_N (n / d)))
    ++ (if (r =? 0)%Z then "" else "." ++ fraction 20 r d).

Definition print (n : JS.number) : string :=
  match n with
  | JS.NaN => "NaN"
  | JS.PosInf => "Infinity"
  | JS.NegInf => "-Infinity"
  | JS.Fin q => printQ q
  end.

Definition read (s : string) : JS.number :=
  match JS.trim s with
  | EmptyString => JS.zero
  | t => match NilZero.int_of_string t with
         | Some i => JS.Fin (inject_Z (Z.of_int i))
         | None => JS.NaN
         end
  end.

Definition runtime : JS.Runtime :=
  {| JS.numberToString := print; JS.stringToNumber := read |}.

End Plain.


(* ================================================================== *)
(** ** Notions used to state the properties *)
(* ================================================================== *)

(** The elements [normTimeline] looks at: those of an array, none
    otherwise. *)
Definition elements (raw : JS.value) : list JS.value :=
  match raw with JS.VArr l => l | _ => [] end.

(** [Array.isArray(raw)] *)
Definition isArray (raw : JS.value) : bool :=
  match raw with JS.VArr _ => true | _ => false end.

(** Both filters of [normTimeline] at once. *)
Definition survives (c : clip) : bool := wellTyped c && wellRanged c.

(** A value that is neither an array nor an object. *)
Definition scalar (v : JS.value) : bool :=
  match v with JS.VArr _ | JS.VObj _ => false | _ => true end.

(** An element the [map] callback reads without throwing: not [null], and
    if an object, one whose five properties are scalars. *)
Definition readable (c : JS.value) : bool :=
  match c with
  | JS.VUndefined | JS.VNull => false
  | JS.VObj fields =>
      forallb (fun k => scalar (JS.lookup k fields)) ["videoId"; "id"; "start"; "in"; "out"]
  | _ => true
  end.

(** What the normalizer promises of a clip it keeps: a source id that is not
    empty, three finite numbers, not [out <= in] and not [start < 0]. *)
Definition Valid (c : clip) : Prop :=
  videoId c <> ""
  /\ JS.isFinite (start c) = true /\ JS.isFinite (in_ c) = true
  /\ JS.isFinite (out c) = true
  /\ JS.le (out c) (in_ c) = false /\ JS.lt (start c) JS.zero = false.

(** [a.start <= b.start] *)
Definition startLe (a b : clip) : Prop := JS.le (start a) (start b) = true.

(** [c.start === s] *)
Definition startIs (s : JS.number) (c : clip) : bool :=
  JS.le s (start c) && JS.le (start c) s.

(** A normalized clip seen as a request value again. *)
Definition clipValue (c : clip) : JS.value :=
  JS.VObj [("videoId", JS.VStr (videoId c)); ("start", JS.VNum (start c));
           ("in", JS.VNum (in_ c)); ("out", JS.VNum (out c))].

Definition timelineValue (t : list clip) : JS.value := JS.VArr (map clipValue t).

(** A request timeline with clips out of order, two of them starting
    together, and elements the normalizer must drop; and what is left of
    it. *)
Definition exampleRaw : JS.value :=
  JS.VArr
    [JS.VObj [("videoId", JS.VStr "A"); ("start", JS.VNum (JS.Fin 5));
              ("in", JS.VNum (JS.Fin 2)); ("out", JS.VNum (JS.Fin 5))];
     JS.VObj [("videoId", JS.VStr "late"); ("start", JS.VNum (JS.Fin 1));
              ("in", JS.VNum (JS.Fin 4)); ("out", JS.VNum (JS.Fin 4))];
     JS.VObj [("id", JS.VNum (JS.Fin 7)); ("start", JS.VNum (JS.Fin 2));
              ("out", JS.VStr "3")];
     JS.VStr "noise";
     JS.VObj [("videoId", JS.VStr ""); ("out", JS.VNum (JS.Fin 1))];
     JS.VObj [("videoId", JS.VStr "B"); ("start", JS.VNum (JS.Fin (-1)));
              ("out", JS.VNum (JS.Fin 1))];
     JS.VObj [("videoId", JS.VStr "C"); ("start", JS.VNum JS.PosInf);
              ("out", JS.VNum (JS.Fin 1))];
     JS.VObj [("videoId", JS.VStr "D"); ("start", JS.VNum (JS.Fin 2));
              ("in", JS.VNum (JS.Fin (1 # 2))); ("out", JS.VNum (JS.Fin 3))];
     JS.VObj [("videoId", JS.VStr "E"); ("out", JS.VNum (JS.Fin 9))]].

Definition exampleTimeline : list clip :=
  [mkClip "E" (JS.Fin 0) (JS.Fin 0) (JS.Fin 9);
   mkClip "7" (JS.Fin 2) (JS.Fin 0) (JS.Fin 3);
   mkClip "D" (JS.Fin 2) (JS.Fin (1 # 2)) (JS.Fin 3);
   mkClip "A" (JS.Fin 5) (JS.Fin 2) (JS.Fin 5)].

(** The stages the loop of [buildFilterForConcat] pushes for the clips from
    index [i] on: a video stage and an audio stage per clip. *)
Section GraphNotions.
Context {RT : JS.Runtime}.

Fixpoint clipStages (audioFlags : list bool) (i : nat) (clips : list clip) : list string :=
  match clips with
  | [] => []
  | c :: rest =>
      videoStage i c :: audioStage audioFlags i c :: clipStages audioFlags (S i) rest
  end.

End GraphNotions.

(** The timeline of the end-to-end scenario: A with audio, B without. *)
Definition scenarioClips : list clip :=
  [mkClip "A" (JS.Fin 0) (JS.Fin 2) (JS.Fin 5);
   mkClip "B" (JS.Fin 5) (JS.Fin 0) (JS.Fin 3)].

Definition scenarioRaw : JS.value :=
  JS.VArr
    [JS.VObj [("videoId", JS.VStr "A"); ("start", JS.VNum (JS.Fin 0));
              ("in", JS.VNum (JS.Fin 2)); ("out", JS.VNum (JS.Fin 5))];
     JS.VObj [("videoId", JS.VStr "B"); ("start", JS.VNum (JS.Fin 5));
              ("in", JS.VNum (JS.Fin 0)); ("out", JS.VNum (JS.Fin 3))]].

Definition scenarioFlags : list bool := [true; false].

(** Clips that would not pass the normalizer: [out] before [in], and
    [out] equal to [in]. *)
Definition backwardClips : list clip :=
  [mkClip "A" (JS.Fin 0) (JS.Fin 5) (JS.Fin 2);
   mkClip "B" (JS.Fin 1) (JS.Fin 4) (JS.Fin 4)].

(** Thirty entries [a] and then one entry [b]. *)
Definition thirtyOneEntries : string :=
  String.concat "," (repeat "a" 30) ++ ",b".

(** Twice [x] and then the thirty entries [t1] to [t30]: thirty-one distinct
    tags. *)
Definition thirtyOneTags : string :=
  "x,x," ++ String.concat "," (map (fun i => "t" ++ JS.natToString i) (seq 1 30)).

(** The normalized entries of a tag text, before the cut at thirty and the
    removal of duplicates. *)
Definition tagEntries (tags : string) : list string :=
  filter JS.truthyString (map (fun t => JS.toLowerCase (JS.trim t)) (JS.split "," tags)).

(** A prober whose tool prints the marker and a line feed, one whose tool
    is missing, and one whose tool prints a longer word. *)
Definition spawnAudio : string -> list string -> ProcResult :=
  fun _ _ => Closed (Some 0%Z) ("audio" ++ nl) "".
Definition spawnMissing : string -> list string -> ProcResult :=
  fun _ _ => SpawnError (JS.mkError "Error" "spawn ffprobe ENOENT").

(** The environment with another answer of [rmSync]. *)
Definition withRmSyncThrows (b : list Event -> bool) (env : Env) : Env :=
  mkEnv (tmpdir env) (mkdtempSync env) (mkdirSync env) b (S3_UPLOADS_BUCKET env)
        (videos env) (selectRejects env) (s3Send env) (pipeline env) (spawn env)
        (uploadFileToS3 env) (insertVideo env) (now env) (randomHex env).

(** That the three calls creating the scratch tree succeed, with [tmpRoot]
    the directory made. *)
Definition scratchCreated (env : Env) (tmpRoot : string) : Prop :=
  mkdtempSync env (pathJoin (tmpdir env) "mytube-export-") = JS.Normal tmpRoot
  /\ mkdirSync env (pathJoin tmpRoot "inputs") = JS.Normal tt
  /\ mkdirSync env (pathJoin tmpRoot "out") = JS.Normal tt.

(** The state in which the [try] block starts. *)
Definition atTry (tmpRoot : string) (st : State) : State :=
  mkState (pathJoin tmpRoot "out" :: pathJoin tmpRoot "inputs" :: tmpRoot :: files st)
          (trace st).

(** A clip whose source id has no row in the [videos] table. *)
Definition unresolved (env : Env) (c : clip) : bool :=
  negb (existsb (String.eqb (videoId c)) (map rowId (videos env))).

Definition isDownload (ev : Event) : bool :=
  match ev with EvDownload _ _ _ => true | _ => false end.

(** The trace of [st] extends that of [st0]. *)
Definition grown (st0 st : State) : Prop := exists t, trace st = (trace st0 ++ t)%list.

(** Since [st0], [cleanup] has been called, and if [rmSync] works nothing of
    the scratch directory is left. *)
Definition cleaned (env : Env) (tmpRoot : string) (st0 st : State) : Prop :=
  (exists t, trace st = (trace st0 ++ t)%list /\ In (EvCleanup tmpRoot) t)
  /\ ((forall tr, rmSyncThrows env tr = false) -> scratchExists tmpRoot st = false).

(** From a state whose trace extends the initial one, a statement that
    continues or throws leaves such a state, and one that returns a response
    leaves a cleaned state. *)
Definition returnsCleaned (env : Env) (tmpRoot : string) (st0 : State)
           {A} (m : M A) (QC : A -> State -> Prop) : Prop :=
  forall st, grown st0 st ->
    match m st with
    | (Continue a, st') => QC a st'
    | (Return _, st') => cleaned env tmpRoot st0 st'
    | (Raise _, st') => grown st0 st'
    end.

(** Two statements that end the same way, whatever the states they run
    in. *)
Definition sameSignal {A} (m m' : M A) : Prop :=
  forall st st', fst (m st) = fst (m' st').

Definition finiteStart (c : clip) : Prop := JS.isFinite (start c) = true.

(** *** A request and its collaborators, to run the handler on *)

Definition scratchRoot : string := "/tmp/mytube-export-Ab12Cd".

Definition encoderComplaint : string :=
  "/tmp/mytube-export-Ab12Cd/inputs/src-0-7.mp4: Invalid data found when processing input".

Definition storedRows : list Row :=
  [mkRow "7" (Some "uploads/1/a.mp4"); mkRow "8" (Some "uploads/1/b.mp4")].

(** Collaborators that work, up to six choices: the bucket, the rows of the
    store, the answer of object storage to a download, the way the encoder
    ends, and the outcomes of the upload and of the INSERT. The prober finds
    audio in every file. *)
Definition studio (bucket : option string) (rows : list Row)
           (download : JS.completion bool) (encoder : ProcResult)
           (upload : JS.completion unit) (inserted : JS.completion (list JS.value)) : Env := {|
  tmpdir := "/tmp";
  mkdtempSync := fun prefix => JS.Normal (prefix ++ "Ab12Cd");
  mkdirSync := fun _ => JS.Normal tt;
  rmSyncThrows := fun _ => false;
  S3_UPLOADS_BUCKET := bucket;
  videos := rows;
  selectRejects := None;
  s3Send := fun _ _ => download;
  pipeline := fun _ => JS.Normal tt;
  spawn := fun cmd _ =>
             if String.eqb cmd "ffprobe" then Closed (Some 0%Z) ("audio" ++ nl) ""
             else encoder;
  uploadFileToS3 := fun _ _ _ _ => upload;
  insertVideo := fun _ => inserted;
  now := JS.Fin 1700000000000;
  randomHex := "a1b2c3d4e5f6"
|}.

(** Everything works. *)
Definition studioEnv : Env :=
  studio (Some "media") storedRows (JS.Normal true) (Closed (Some 0%Z) "" "")
         (JS.Normal tt) (JS.Normal [JS.VNum (JS.Fin 42)]).

(** The encoder exits with code 1 and names its input file on its error
    stream. *)
Definition brokenEncoderEnv : Env :=
  studio (Some "media") storedRows (JS.Normal true) (Closed (Some 1%Z) "" encoderComplaint)
         (JS.Normal tt) (JS.Normal [JS.VNum (JS.Fin 42)]).

Definition clipRequest (sourceId : JS.value) (s i o : Q) : JS.value :=
  JS.VObj [("videoId", sourceId); ("start", JS.VNum (JS.Fin s));
           ("in", JS.VNum (JS.Fin i)); ("out", JS.VNum (JS.Fin o))].

Definition request (title : string) (timeline : list JS.value) : Request := {|
  userId := JS.Fin 3;
  body := JS.VObj [("title", JS.VStr title);
                   ("tags", JS.VStr "Funny, funny , CATS,,cats");
                   ("timeline", JS.VArr timeline)]
|}.

(** A request for the two stored sources. *)
Definition publishReq : Request :=
  request " Trip " [clipRequest (JS.VNum (JS.Fin 7)) 0 2 5; clipRequest (JS.VStr "8") 5 0 3].

(** A request whose second and third clips name sources that are not
    stored. *)
Definition strayReq : Request :=
  request "Trip" [clipRequest (JS.VStr "7") 0 2 5; clipRequest (JS.VStr "9") 5 0 3;
                  clipRequest (JS.VStr "10") 8 0 1].

Definition strayClips : list clip :=
  [mkClip "7" (JS.Fin 0) (JS.Fin 2) (JS.Fin 5);
   mkClip "9" (JS.Fin 5) (JS.Fin 0) (JS.Fin 3);
   mkClip "10" (JS.Fin 8) (JS.Fin 0) (JS.Fin 1)].

Definition idle : State := mkState [] [].

(** The scenario with its clips the other way round in the request. *)
Definition scenarioRawSwapped : list JS.value :=
  [JS.VObj [("videoId", JS.VStr "B"); ("start", JS.VNum (JS.Fin 5));
            ("in", JS.VNum (JS.Fin 0)); ("out", JS.VNum (JS.Fin 3))];
   JS.VObj [("videoId", JS.VStr "A"); ("start", JS.VNum (JS.Fin 0));
            ("in", JS.VNum (JS.Fin 2)); ("out", JS.VNum (JS.Fin 5))]].

(** The clips of the scenario under other names and at other places of the
    timeline. *)
Definition scenarioClipsMoved : list clip :=
  [mkClip "X" (JS.Fin 40) (JS.Fin 2) (JS.Fin 5);
   mkClip "Y" (JS.Fin 7) (JS.Fin 0) (JS.Fin 3)].

(** *** The downloads a timeline asks for *)

(** The object key of the source of clip [c], as the rows found say it; the
    empty text when there is no row or the row has no file name. *)
Definition keyOf (byId : list Row) (c : clip) : string :=
  match mapGet byId (videoId c) with
  | Some (mkRow _ (Some f)) => f
  | _ => ""
  end.

(** The local file of the clip at index [i]. *)
Definition localPathOf (inputDir : string) (i : nat) (c : clip) : string :=
  pathJoin inputDir ("src-" ++ JS.natToString i ++ "-" ++ videoId c ++ ".mp4").

(** One download for each clip, in the order of the clips, counting from
    [i]. *)
Fixpoint downloadsFrom (bucket inputDir : string) (byId : list Row) (i : nat)
         (clips : list clip) : list Event :=
  match clips with
  | [] => []
  | c :: rest =>
      EvDownload bucket (keyOf byId c) (localPathOf inputDir i c)
      :: downloadsFrom bucket inputDir byId (S i) rest
  end.

Fixpoint pathsFrom (inputDir : string) (i : nat) (clips : list clip) : list string :=
  match clips with
  | [] => []
  | c :: rest => localPathOf inputDir i c :: pathsFrom inputDir (S i) rest
  end.

(** One prober for each input, in the order of the inputs. *)
Definition probesOf (inputPaths : list string) : list Event :=
  map (fun p => EvProbe (ffprobeArgs p)) inputPaths.

(** A download that went through: the key is not empty, object storage
    answered with a body, and the body was written. *)
Definition downloadWorked (env : Env) (ev : Event) : Prop :=
  match ev with
  | EvDownload bucket key outPath =>
      key <> "" /\ s3Send env bucket key = JS.Normal true
      /\ pipeline env outPath = JS.Normal tt
  | _ => True
  end.

(** *** The calls of a job that gets through *)

Section PublishedJob.
Context {RT : JS.Runtime}.
Variable env : Env.
Variable req : Request.
Variable tmpRoot : string.

(** The name of the exported file, and the key it is stored under. *)
Definition outNameOf : string :=
  "export-" ++ JS.numberToString (now env) ++ "-" ++ randomHex env ++ ".mp4".
Definition outPathOf : string := pathJoin (pathJoin tmpRoot "out") outNameOf.
Definition uploadKeyOf : string :=
  "uploads/" ++ JS.numberToString (userId req) ++ "/" ++ outNameOf.

(** The arguments the encoder is run with for [clips] and their flags. *)
Definition encoderArgsOf (clips : list clip) (flags : list bool) : list string :=
  ffmpegArgs (pathsFrom (pathJoin tmpRoot "inputs") 0 clips)
             (buildFilterForConcat clips flags) outPathOf.

(** The calls of a job that gets through, in the order made. *)
Definition publishedTrace (bucket : string) (rows : list Row) (clips : list clip)
           (flags : list bool) (v : NewVideo) : list Event :=
  (EvQuery (map videoId clips)
   :: downloadsFrom bucket (pathJoin tmpRoot "inputs") rows 0 clips
   ++ probesOf (pathsFrom (pathJoin tmpRoot "inputs") 0 clips)
   ++ [EvConsoleLog (nl ++ "=== FFMPEG FILTER ===" ++ nl);
       EvConsoleLog (buildFilterForConcat clips flags);
       EvConsoleLog (nl ++ "=====================" ++ nl);
       EvEncode (encoderArgsOf clips flags);
       EvUpload bucket uploadKeyOf outPathOf "video/mp4";
       EvInsert v;
       EvCleanup tmpRoot])%list.

End PublishedJob.

(** *** The calls a job may make *)


Section LegitimateCalls.
Context {RT : JS.Runtime}.
Variable env : Env.
Variable req : Request.
Variable tmpRoot : string.


End LegitimateCalls.

(** The pair of labels of clip [i] in the input list of the concatenation
    stage. *)
Definition labelPair (i : nat) : list string :=
  ["[v" ++ JS.natToString i ++ "]"; "[a" ++ JS.natToString i ++ "]"].

(** Whether the text [s] ends with [suffix]. *)
Fixpoint endsWith (suffix s : string) : bool :=
  String.eqb suffix s
  || match s with
     | EmptyString => false
     | String _ s' => endsWith suffix s'
     end.

(** The last character but one. *)
Fixpoint penult (s : string) : option ascii :=
  match s with
  | EmptyString => None
  | String c s' =>
      match s' with
      | String _ EmptyString => Some c
      | _ => penult s'
      end
  end.

(** The decimal digits. *)
Definition isDigit (c : ascii) : bool :=
  let n := nat_of_ascii c in ((48 <=? n) && (n <=? 57))%nat.

(* ================================================================== *)
(** ** Numbers *)
(* ================================================================== *)

Section NumberFacts.

Lemma lt_Fin (x y : Q) : JS.lt (JS.Fin x) (JS.Fin y) = true <-> (x < y)%Q.
Proof.
  cbn. rewrite Qlt_alt. destruct (x ?= y)%Q; split; congruence.
Qed.

Lemma le_Fin (x y : Q) : JS.le (JS.Fin x) (JS.Fin y) = true <-> (x <= y)%Q.
Proof.
  unfold JS.le. cbn [JS.isNaN negb andb].
  rewrite negb_true_iff, <- not_true_iff_false, lt_Fin.
  split; [apply Qnot_lt_le | apply Qle_not_lt].
Qed.

Lemma isFinite_Fin (n : JS.number) : JS.isFinite n = true -> exists q, n = JS.Fin q.
Proof. destruct n; cbn; try discriminate. eauto. Qed.

(** The sign of a difference is the order of its operands, whatever they
    are. *)
Lemma sub_positive (a b : JS.number) : JS.lt JS.zero (JS.sub a b) = JS.lt b a.
Proof.
  destruct a as [| | |x], b as [| | |y]; try reflexivity.
  apply eq_true_iff_eq. unfold JS.zero, JS.sub. rewrite !lt_Fin.
  rewrite (Qlt_minus_iff y x). reflexivity.
Qed.

Lemma lt_asym (a b : JS.number) : JS.lt a b = true -> JS.lt b a = false.
Proof.
  destruct a as [| | |x], b as [| | |y]; try reflexivity; try discriminate.
  intros H. apply not_true_iff_false. rewrite lt_Fin in *.
  intros H'. exact (Qlt_irrefl x (Qlt_trans _ _ _ H H')).
Qed.

Lemma lt_le (a b : JS.number) : JS.lt a b = true -> JS.le a b = true.
Proof.
  intros H. unfold JS.le. rewrite (lt_asym _ _ H).
  destruct a, b; try discriminate; reflexivity.
Qed.

Lemma le_lt_false (a b : JS.number) : JS.le a b = true -> JS.lt b a = false.
Proof.
  unfold JS.le. intros H. apply andb_true_iff in H as [_ H].
  now apply negb_true_iff in H.
Qed.

Lemma le_total_Fin (a b : JS.number) :
  JS.isFinite a = true -> JS.isFinite b = true ->
  JS.lt b a = false -> JS.le a b = true.
Proof.
  intros Ha Hb H. unfold JS.le. rewrite H.
  destruct a, b; try discriminate; reflexivity.
Qed.

Lemma le_trans_Fin (a b c : JS.number) :
  JS.isFinite a = true -> JS.isFinite b = true -> JS.isFinite c = true ->
  JS.le a b = true -> JS.le b c = true -> JS.le a c = true.
Proof.
  intros Ha Hb Hc.
  destruct (isFinite_Fin _ Ha) as [x ->], (isFinite_Fin _ Hb) as [y ->],
           (isFinite_Fin _ Hc) as [z ->].
  rewrite !le_Fin. apply Qle_trans.
Qed.

(** On finite numbers [a > b] and [a <= b] exclude each other. *)
Lemma gt_le_Fin (a b : JS.number) :
  JS.isFinite a = true -> JS.isFinite b = true ->
  JS.gt a b = true <-> JS.le a b = false.
Proof.
  intros Ha Hb. unfold JS.gt, JS.le.
  destruct a, b; try discriminate. cbn [JS.isNaN negb andb].
  rewrite negb_false_iff. reflexivity.
Qed.

Lemma ge_lt_Fin (a b : JS.number) :
  JS.isFinite a = true -> JS.isFinite b = true ->
  JS.ge a b = true <-> JS.lt a b = false.
Proof.
  intros Ha Hb. unfold JS.ge, JS.le.
  destruct a, b; try discriminate. cbn [JS.isNaN negb andb].
  rewrite negb_true_iff. reflexivity.
Qed.

(** Two numbers equal to a third are not strictly ordered. *)
Lemma startIs_not_lt (s a b : JS.number) :
  JS.le s a && JS.le a s = true -> JS.le s b && JS.le b s = true ->
  JS.lt b a = false.
Proof.
  intros Ha Hb.
  apply andb_true_iff in Ha as [Ha1 Ha2]. apply andb_true_iff in Hb as [Hb1 Hb2].
  destruct s as [| | |q], a as [| | |x], b as [| | |y]; try reflexivity; try discriminate.
  apply not_true_iff_false. rewrite lt_Fin. rewrite le_Fin in *.
  apply Qle_not_lt. eapply Qle_trans; eassumption.
Qed.

End NumberFacts.

(* ================================================================== *)
(** ** The sort *)
(* ================================================================== *)

Section SortFacts.
Context {A : Type} (comparefn : A -> A -> JS.number).

Lemma insert_perm (x : A) (l : list A) : Permutation (insert comparefn x l) (x :: l).
Proof.
  induction l as [|y l IH]; cbn [insert].
  - reflexivity.
  - destruct (sortsAfter comparefn x y).
    + apply perm_trans with (y :: x :: l); [apply perm_skip, IH | apply perm_swap].
    + reflexivity.
Qed.

Lemma sort_perm (l : list A) : Permutation (sort comparefn l) l.
Proof.
  induction l as [|x l IH]; cbn [sort fold_right].
  - reflexivity.
  - fold (sort comparefn l).
    apply perm_trans with (x :: sort comparefn l); [apply insert_perm | apply perm_skip, IH].
Qed.

(** Stability: a class of elements no two of which the comparator puts
    apart keeps its order. *)
Section Stable.
Variable p : A -> bool.
Hypothesis together :
  forall x y, p x = true -> p y = true -> sortsAfter comparefn x y = false.

Lemma insert_stable (x : A) (l : list A) :
  filter p (insert comparefn x l) = filter p (x :: l).
Proof.
  induction l as [|y l IH]; [reflexivity|].
  cbn [insert]. destruct (sortsAfter comparefn x y) eqn:E; [|reflexivity].
  cbn [filter] in *. rewrite IH.
  destruct (p x) eqn:Hx, (p y) eqn:Hy; try reflexivity.
  rewrite (together x y Hx Hy) in E. discriminate.
Qed.

Lemma sort_stable (l : list A) : filter p (sort comparefn l) = filter p l.
Proof.
  induction l as [|x l IH]; [reflexivity|].
  cbn [sort fold_right]. fold (sort comparefn l).
  rewrite insert_stable. cbn [filter]. now rewrite IH.
Qed.
End Stable.

(** A list the comparator already accepts is left as it is. *)
Lemma sort_sorted (l : list A) :
  StronglySorted (fun x y => sortsAfter comparefn x y = false) l ->
  sort comparefn l = l.
Proof.
  induction 1 as [|x l Hs IH Hx]; [reflexivity|].
  cbn [sort fold_right]. fold (sort comparefn l). rewrite IH.
  destruct l as [|y l]; [reflexivity|].
  cbn [insert]. inversion Hx as [|? ? Hxy _]; subst. now rewrite Hxy.
Qed.

End SortFacts.

Section ByStart.

Lemma sortsAfter_byStart (x y : clip) :
  sortsAfter byStart x y = JS.lt (start y) (start x).
Proof. unfold sortsAfter, byStart. apply sub_positive. Qed.

Lemma insert_byStart_sorted (x : clip) (l : list clip) :
  finiteStart x -> Forall finiteStart l ->
  StronglySorted startLe l -> StronglySorted startLe (insert byStart x l).
Proof.
  intros Hx Hl Hs. induction Hs as [|y l Hs IH Hy]; cbn [insert].
  - constructor; constructor.
  - inversion Hl as [|? ? Hfy Hfl]; subst.
    rewrite sortsAfter_byStart. destruct (JS.lt (start y) (start x)) eqn:E.
    + constructor; [now apply IH|].
      rewrite (insert_perm byStart x l). constructor; [|assumption].
      now apply lt_le.
    + assert (Hxy : startLe x y) by now apply le_total_Fin.
      constructor; [now constructor|]. constructor; [assumption|].
      rewrite Forall_forall in *. intros z Hz.
      unfold startLe. apply le_trans_Fin with (b := start y);
        [exact Hx | exact Hfy | exact (Hfl z Hz) | exact Hxy | exact (Hy z Hz)].
Qed.

Lemma sort_byStart_sorted (l : list clip) :
  Forall finiteStart l -> StronglySorted startLe (sort byStart l).
Proof.
  induction 1 as [|x l Hx Hl IH]; cbn [sort fold_right].
  - constructor.
  - apply insert_byStart_sorted; auto.
    fold (sort byStart l). now rewrite (sort_perm byStart l).
Qed.

Lemma sort_byStart_stable (s : JS.number) (l : list clip) :
  filter (startIs s) (sort byStart l) = filter (startIs s) l.
Proof.
  apply sort_stable. intros x y Hx Hy.
  rewrite sortsAfter_byStart. eapply startIs_not_lt; eassumption.
Qed.

Lemma sort_byStart_fixed (l : list clip) :
  StronglySorted startLe l -> sort byStart l = l.
Proof.
  intros H. apply sort_sorted.
  induction H as [|x l Hs IH Hx]; constructor; auto.
  eapply Forall_impl; [|exact Hx]. intros y Hy.
  rewrite sortsAfter_byStart. now apply le_lt_false.
Qed.

End ByStart.

(* ================================================================== *)
(** ** The timeline normalizer *)
(* ================================================================== *)

Section NormalizerFacts.
Context {RT : JS.Runtime}.

Lemma normTimeline_inv (raw : JS.value) (t : list clip) :
  normTimeline raw = JS.Normal t ->
  exists cs, JS.mapM coerceClip (elements raw) = JS.Normal cs
             /\ t = sort byStart (filter survives cs).
Proof.
  unfold normTimeline. fold (elements raw).
  destruct (JS.mapM coerceClip (elements raw)) as [cs|e]; cbn; [|discriminate].
  intros [= <-]. exists cs. split; [reflexivity|]. f_equal.
  induction cs as [|c cs IH]; [reflexivity|].
  unfold survives in *. cbn [filter].
  destruct (wellTyped c); cbn [andb filter]; [|exact IH].
  destruct (wellRanged c); [now rewrite IH | exact IH].
Qed.

Lemma survives_Valid (c : clip) : survives c = true <-> Valid c.
Proof.
  unfold survives, wellTyped, wellRanged, Valid.
  rewrite !andb_true_iff. split.
  - intros [[[[Hv Hs] Hi] Ho] [Hg Hz]]. repeat split; auto.
    + intros E. rewrite E in Hv. discriminate.
    + now apply gt_le_Fin.
    + now apply ge_lt_Fin.
  - intros (Hv & Hs & Hi & Ho & Hg & Hz). repeat split; auto.
    + destruct (videoId c); [contradiction | reflexivity].
    + now apply gt_le_Fin.
    + now apply ge_lt_Fin.
Qed.

Lemma normTimeline_Valid (raw : JS.value) (t : list clip) :
  normTimeline raw = JS.Normal t -> Forall Valid t.
Proof.
  intros H. destruct (normTimeline_inv _ _ H) as (cs & _ & ->).
  apply Forall_forall. intros c Hc.
  apply (Permutation_in _ (sort_perm byStart _)) in Hc.
  apply filter_In in Hc as [_ Hc]. now apply survives_Valid.
Qed.

Lemma normTimeline_sorted (raw : JS.value) (t : list clip) :
  normTimeline raw = JS.Normal t -> StronglySorted startLe t.
Proof.
  intros H. destruct (normTimeline_inv _ _ H) as (cs & _ & ->).
  apply sort_byStart_sorted. apply Forall_forall. intros c Hc.
  apply filter_In in Hc as [_ Hc]. apply survives_Valid in Hc. apply Hc.
Qed.

(** A clip the normalizer produced reads back as itself. *)
Lemma coerceClip_clipValue (c : clip) : coerceClip (clipValue c) = JS.Normal c.
Proof. destruct c; reflexivity. Qed.

Lemma mapM_clipValue (t : list clip) :
  JS.mapM coerceClip (map clipValue t) = JS.Normal t.
Proof.
  induction t as [|c t IH]; [reflexivity|].
  cbn [map JS.mapM]. rewrite coerceClip_clipValue, IH. reflexivity.
Qed.

Lemma filter_all {A} (p : A -> bool) (l : list A) :
  Forall (fun x => p x = true) l -> filter p l = l.
Proof.
  induction 1 as [|x l Hx _ IH]; [reflexivity|].
  cbn. now rewrite Hx, IH.
Qed.

Lemma normTimeline_fixed (t : list clip) :
  Forall Valid t -> StronglySorted startLe t ->
  normTimeline (timelineValue t) = JS.Normal t.
Proof.
  intros Hv Hs. unfold normTimeline, timelineValue.
  rewrite mapM_clipValue. cbn [JS.bind]. f_equal.
  assert (Hsurv : Forall (fun c => survives c = true) t).
  { eapply Forall_impl; [|exact Hv]. intros c. apply survives_Valid. }
  rewrite (filter_all wellTyped), (filter_all wellRanged).
  - now apply sort_byStart_fixed.
  - eapply Forall_impl; [|exact Hsurv]. unfold survives.
    intros c Hc. now apply andb_true_iff in Hc.
  - eapply Forall_impl; [|exact Hsurv]. unfold survives.
    intros c Hc. now apply andb_true_iff in Hc.
Qed.

Lemma ToString_scalar (v : JS.value) :
  scalar v = true -> exists s, JS.ToString v = JS.Normal s.
Proof. destruct v as [| |[|]| | | |]; cbn; try discriminate; eauto. Qed.

Lemma ToNumber_scalar (v : JS.value) :
  scalar v = true -> exists n, JS.ToNumber v = JS.Normal n.
Proof. destruct v as [| |[|]| | | |]; cbn; try discriminate; eauto. Qed.

Lemma scalar_coalesce (v d : JS.value) :
  scalar v = true -> scalar d = true -> scalar (JS.coalesce v d) = true.
Proof. intros Hv Hd. unfold JS.coalesce. now destruct (JS.nullish v). Qed.

(** The callback returns on every readable element. *)
Lemma coerceClip_returns (c : JS.value) :
  readable c = true -> exists cl, coerceClip c = JS.Normal cl.
Proof.
  intros Hc. unfold coerceClip.
  assert (Hget : forall k, In k ["videoId"; "id"; "start"; "in"; "out"] ->
                 exists v, JS.getProp c k = JS.Normal v /\ scalar v = true).
  { intros k Hk. destruct c; try discriminate; cbn [JS.getProp]; eauto.
    cbn [readable] in Hc. rewrite forallb_forall in Hc. eauto. }
  destruct (Hget "videoId") as (v1 & -> & S1); [cbn; tauto|].
  destruct (Hget "id") as (v2 & E2 & S2); [cbn; tauto|].
  destruct (Hget "start") as (v3 & -> & S3); [cbn; tauto|].
  destruct (Hget "in") as (v4 & -> & S4); [cbn; tauto|].
  destruct (Hget "out") as (v5 & -> & S5); [cbn; tauto|].
  cbn [JS.bind].
  assert (Hid : exists s, (v <- (if JS.nullish v1
                               then v2 <- JS.getProp c "id" ;;
                                    JS.Normal (JS.coalesce v2 (JS.VStr ""))
                               else JS.Normal v1) ;; JS.ToString v) = JS.Normal s).
  { destruct (JS.nullish v1).
    - rewrite E2. cbn [JS.bind]. now apply ToString_scalar, scalar_coalesce.
    - cbn [JS.bind]. now apply ToString_scalar. }
  destruct Hid as [s Hs].
  destruct (ToNumber_scalar (JS.coalesce v3 (JS.VNum JS.zero))) as [n3 E3];
    [now apply scalar_coalesce|].
  destruct (ToNumber_scalar (JS.coalesce v4 (JS.VNum JS.zero))) as [n4 E4];
    [now apply scalar_coalesce|].
  destruct (ToNumber_scalar (JS.coalesce v5 (JS.VNum JS.zero))) as [n5 E5];
    [now apply scalar_coalesce|].
  exists (mkClip s n3 n4 n5).
  destruct (JS.nullish v1).
  - rewrite E2 in *. cbn [JS.bind] in *. rewrite Hs. cbn [JS.bind].
    rewrite E3. cbn [JS.bind]. rewrite E4. cbn [JS.bind]. rewrite E5. reflexivity.
  - cbn [JS.bind] in *. rewrite Hs. cbn [JS.bind].
    rewrite E3. cbn [JS.bind]. rewrite E4. cbn [JS.bind]. rewrite E5. reflexivity.
Qed.

(** [normTimeline] returns on every value that is not an array, and on
    every array of readable elements. *)
Lemma normTimeline_returns (raw : JS.value) :
  forallb readable (elements raw) = true -> exists t, normTimeline raw = JS.Normal t.
Proof.
  intros H. unfold normTimeline. fold (elements raw).
  assert (Hm : exists cs, JS.mapM coerceClip (elements raw) = JS.Normal cs).
  { induction (elements raw) as [|c l IH]; [now exists []|].
    cbn [forallb] in H. apply andb_true_iff in H as [Hc Hl].
    destruct (coerceClip_returns c Hc) as [cl Ecl], (IH Hl) as [cs Ecs].
    exists (cl :: cs). cbn [JS.mapM]. now rewrite Ecl, Ecs. }
  destruct Hm as [cs ->]. cbn [JS.bind]. eauto.
Qed.

(** C2. Whatever value comes in, the timeline [normTimeline] returns holds
    only valid clips (a source id that is not empty, finite [start], [in]
    and [out], not [out <= in], not [start < 0]); a coerced element is in
    the result exactly when it is valid, wherever it stood in the input;
    the result is sorted by [start], ascending; clips with one and the same
    [start] keep the order they had in the input; and an input that is not
    an array gives the empty timeline. *)
Theorem normTimeline_drops_and_sorts (raw : JS.value) (t : list clip) :
  normTimeline raw = JS.Normal t ->
  Forall Valid t
  /\ StronglySorted startLe t
  /\ (exists cs,
        JS.mapM coerceClip (elements raw) = JS.Normal cs
        /\ Permutation t (filter survives cs)
        /\ (forall c, In c cs -> (In c t <-> Valid c))
        /\ (forall s, filter (startIs s) t = filter (startIs s) (filter survives cs)))
  /\ (isArray raw = false -> normTimeline raw = JS.Normal []).
Proof.
  intros H. split; [|split; [|split]].
  - exact (normTimeline_Valid _ _ H).
  - exact (normTimeline_sorted _ _ H).
  - destruct (normTimeline_inv _ _ H) as (cs & Hcs & ->).
    exists cs. split; [exact Hcs|]. split; [apply sort_perm|]. split.
    + intros c Hc. rewrite <- survives_Valid. split.
      * intros Hin. apply (Permutation_in _ (sort_perm byStart _)) in Hin.
        now apply filter_In in Hin.
      * intros Hs. apply (Permutation_in _ (Permutation_sym (sort_perm byStart _))).
        apply filter_In. now split.
    + intros s. apply sort_byStart_stable.
  - intros Ha. destruct raw; try discriminate; reflexivity.
Qed.

(** C9. Normalizing the result of a normalization changes nothing:
    [normTimeline(normTimeline(x))] is [normTimeline(x)], also when the
    first call throws. *)
Theorem normTimeline_idempotent (raw : JS.value) :
  (t <- normTimeline raw ;; normTimeline (timelineValue t)) = normTimeline raw.
Proof.
  destruct (normTimeline raw) as [t|e] eqn:H; cbn [JS.bind]; [|reflexivity].
  apply normTimeline_fixed.
  - exact (normTimeline_Valid _ _ H).
  - exact (normTimeline_sorted _ _ H).
Qed.

End NormalizerFacts.

Lemma normTimeline_drops_and_sorts_witness :
  @normTimeline Plain.runtime exampleRaw = JS.Normal exampleTimeline
  /\ Forall Valid exampleTimeline
  /\ StronglySorted startLe exampleTimeline
  /\ (exists cs,
        JS.mapM (@coerceClip Plain.runtime) (elements exampleRaw) = JS.Normal cs
        /\ Permutation exampleTimeline (filter survives cs)
        /\ (forall c, In c cs -> (In c exampleTimeline <-> Valid c))
        /\ (forall s, filter (startIs s) exampleTimeline
                      = filter (startIs s) (filter survives cs)))
  /\ (isArray exampleRaw = false -> @normTimeline Plain.runtime exampleRaw = JS.Normal []).
Proof.
  split; [reflexivity|].
  apply (@normTimeline_drops_and_sorts Plain.runtime exampleRaw exampleTimeline).
  reflexivity.
Defined.

(* ================================================================== *)
(** ** Texts *)
(* ================================================================== *)

Section TextFacts.

Lemma append_assoc (a b c : string) : (a ++ b) ++ c = a ++ (b ++ c).
Proof. induction a as [|ch a IH]; cbn; [reflexivity | now rewrite IH]. Qed.

Lemma length_append (a b : string) :
  String.length (a ++ b) = String.length a + String.length b.
Proof. induction a as [|ch a IH]; cbn; [reflexivity | now rewrite IH]. Qed.

Lemma join_snoc (sep : string) (l : list string) (x : string) :
  JS.join sep (l ++ [x])%list
  = match l with [] => x | _ => JS.join sep l ++ sep ++ x end.
Proof.
  unfold JS.join. induction l as [|y l IH]; [reflexivity|].
  destruct l as [|z l]; [reflexivity|].
  change (String.concat sep ((y :: z :: l) ++ [x]))
    with (y ++ sep ++ String.concat sep ((z :: l) ++ [x])).
  rewrite IH.
  change (String.concat sep (y :: z :: l)) with (y ++ sep ++ String.concat sep (z :: l)).
  now rewrite !append_assoc.
Qed.

Lemma join_snoc_suffix (sep : string) (l : list string) (x : string) :
  exists prefix, JS.join sep (l ++ [x])%list = prefix ++ x.
Proof.
  rewrite join_snoc. destruct l as [|y l].
  - now exists "".
  - exists (JS.join sep (y :: l) ++ sep). now rewrite append_assoc.
Qed.

Lemma penult_app (x y : string) :
  2 <= String.length y -> penult (x ++ y) = penult y.
Proof.
  intros Hy. induction x as [|c x IH]; [reflexivity|].
  cbn [append penult]. rewrite <- IH.
  assert (Hl : 2 <= String.length (x ++ y)) by (rewrite length_append; lia).
  destruct (x ++ y) as [|c1 [|c2 r]]; cbn in Hl; try lia. reflexivity.
Qed.

Lemma endsWith_length (suffix s : string) :
  endsWith suffix s = true -> String.length suffix <= String.length s.
Proof.
  induction s as [|c s IH]; cbn [endsWith]; intros H; apply orb_true_iff in H as [H|H].
  - apply String.eqb_eq in H. now subst.
  - discriminate.
  - apply String.eqb_eq in H. now subst.
  - specialize (IH H). cbn. lia.
Qed.

Lemma endsWith_penult (suffix s : string) :
  2 <= String.length suffix -> endsWith suffix s = true -> penult s = penult suffix.
Proof.
  intros Hl. induction s as [|c s IH]; cbn [endsWith]; intros H;
    apply orb_true_iff in H as [H|H];
    try (apply String.eqb_eq in H; now subst); try discriminate.
  rewrite <- (IH H). pose proof (endsWith_length _ _ H) as Hs.
  destruct s as [|c1 [|c2 r]]; cbn in Hs; try lia. reflexivity.
Qed.

(** The decimal text of a number ends with a digit. *)
Lemma string_of_uint_last (u : Decimal.uint) :
  u <> Decimal.Nil ->
  exists front ch, NilEmpty.string_of_uint u = front ++ String ch ""
                   /\ isDigit ch = true.
Proof.
  induction u as [|u IH|u IH|u IH|u IH|u IH|u IH|u IH|u IH|u IH|u IH];
    intros Hu; [contradiction|..];
    (destruct (Decimal.uint_eq_dec u Decimal.Nil) as [->|Hn];
     [ eexists "", _; split; [reflexivity | reflexivity]
     | destruct (IH Hn) as (front & ch & E & Hd);
       eexists (String _ front), ch; split; [cbn; rewrite E; reflexivity | exact Hd] ]).
Qed.

Lemma natToString_last (n : nat) :
  exists front ch, JS.natToString n = front ++ String ch "" /\ isDigit ch = true.
Proof.
  unfold JS.natToString, NilZero.string_of_uint.
  destruct (Nat.to_uint n) eqn:E;
    try (rewrite <- E; apply string_of_uint_last; rewrite E; discriminate).
  now exists "", "0"%char.
Qed.

(** A text that closes a label numbered [n] does not end with the final
    labels of the graph. *)
Lemma numbered_label_not_final (x : string) (n : nat) :
  endsWith "[vout][aout]" (x ++ JS.natToString n ++ "]") = false.
Proof.
  apply not_true_iff_false. intros H.
  apply endsWith_penult in H; [|cbn; lia].
  destruct (natToString_last n) as (front & ch & E & Hd).
  rewrite E in H. rewrite append_assoc, <- append_assoc in H.
  rewrite penult_app in H; [|cbn; lia].
  cbn in H. injection H as ->. discriminate.
Qed.

End TextFacts.

(* ================================================================== *)
(** ** The filter graph builder *)
(* ================================================================== *)

Section GraphFacts.
Context {RT : JS.Runtime}.

Lemma loop_spec (flags : list bool) (clips : list clip) :
  forall i parts inputs,
    loop flags i clips parts inputs
    = ((parts ++ clipStages flags i clips)%list,
       (inputs ++ flat_map labelPair (seq i (List.length clips)))%list).
Proof.
  induction clips as [|c rest IH]; intros i parts inputs; cbn [loop clipStages].
  - cbn. now rewrite !app_nil_r.
  - rewrite IH. cbn [List.length seq flat_map].
    now rewrite <- !app_assoc.
Qed.

Lemma filterParts_spec (clips : list clip) (flags : list bool) :
  filterParts clips flags
  = (clipStages flags 0 clips
     ++ [concatStage (flat_map labelPair (seq 0 (List.length clips))) (List.length clips)])%list.
Proof. unfold filterParts. now rewrite loop_spec. Qed.

Lemma clipStages_length (flags : list bool) (clips : list clip) :
  forall i, List.length (clipStages flags i clips) = 2 * List.length clips.
Proof.
  induction clips as [|c rest IH]; intros i; cbn [clipStages List.length]; [reflexivity|].
  rewrite IH. lia.
Qed.

Lemma clipStages_nth (flags : list bool) (clips : list clip) :
  forall k i c,
    nth_error clips i = Some c ->
    nth_error (clipStages flags k clips) (2 * i) = Some (videoStage (k + i) c)
    /\ nth_error (clipStages flags k clips) (2 * i + 1) = Some (audioStage flags (k + i) c).
Proof.
  induction clips as [|c0 rest IH]; intros k i c H.
  - destruct i; discriminate.
  - destruct i as [|i].
    + injection H as ->. rewrite Nat.add_0_r. now split.
    + cbn [nth_error] in H. destruct (IH (S k) i c H) as [Hv Ha].
      replace (2 * S i) with (S (S (2 * i))) by lia.
      replace (k + S i) with (S k + i) by lia.
      cbn [clipStages nth_error Nat.add]. now split.
Qed.

Lemma filterParts_nth (clips : list clip) (flags : list bool) (i : nat) (c : clip) :
  nth_error clips i = Some c ->
  nth_error (filterParts clips flags) (2 * i) = Some (videoStage i c)
  /\ nth_error (filterParts clips flags) (2 * i + 1) = Some (audioStage flags i c).
Proof.
  intros H. destruct (clipStages_nth flags clips 0 i c H) as [Hv Ha].
  assert (Hi : i < List.length clips) by (apply nth_error_Some; congruence).
  rewrite filterParts_spec.
  rewrite !nth_error_app1 by (rewrite clipStages_length; lia).
  now split.
Qed.

Lemma clipStages_not_final (flags : list bool) (clips : list clip) :
  forall i, Forall (fun s => endsWith "[vout][aout]" s = false) (clipStages flags i clips).
Proof.
  induction clips as [|c rest IH]; intros i; cbn [clipStages]; [constructor|].
  constructor; [|constructor; [|apply IH]].
  - unfold videoStage. rewrite <- !append_assoc.
    rewrite (append_assoc _ (JS.natToString i) "]"). apply numbered_label_not_final.
  - unfold audioStage, audioTrimStage, silenceStage.
    destruct (flagAt flags i); rewrite <- !append_assoc;
      rewrite (append_assoc _ (JS.natToString i) "]"); apply numbered_label_not_final.
Qed.

Lemma endsWith_app (suffix x : string) : endsWith suffix (x ++ suffix) = true.
Proof.
  induction x as [|ch x IH]; cbn [append endsWith].
  - destruct suffix; cbn [endsWith]; now rewrite String.eqb_refl.
  - rewrite IH. apply orb_true_r.
Qed.

Lemma labels_length (k n : nat) :
  List.length (flat_map labelPair (seq k n)) = 2 * n.
Proof.
  revert k. induction n as [|n IH]; intros k; cbn [seq flat_map]; [reflexivity|].
  rewrite length_app, IH. cbn. lia.
Qed.

(** C1. Whatever the clips and the flags, the array of stages that
    [buildFilterForConcat] joins with [;] is two stages per clip followed
    by one concatenation stage, the only stage that ends with the final
    labels [[vout][aout]]. Its input list is the pairs [[v0][a0]],
    [[v1][a1]], ... up to [N-1], in this order, it declares [n=N] with
    [v=1] and [a=1], and the filter graph ends with it. For two clips it is
    [[v0][a0][v1][a1]concat=n=2:v=1:a=1[vout][aout]]. *)
Theorem concat_stage_interleaves (clips : list clip) (audioFlags : list bool) :
  let N := List.length clips in
  let final := JS.join "" (flat_map labelPair (seq 0 N))
               ++ "concat=n=" ++ JS.natToString N ++ ":v=1:a=1[vout][aout]" in
  exists stages,
    filterParts clips audioFlags = (stages ++ [final])%list
    /\ buildFilterForConcat clips audioFlags = JS.join ";" (stages ++ [final])%list
    /\ List.length stages = 2 * N
    /\ Forall (fun s => endsWith "[vout][aout]" s = false) stages
    /\ endsWith "[vout][aout]" final = true
    /\ List.length (flat_map labelPair (seq 0 N)) = 2 * N
    /\ (exists prefix, buildFilterForConcat clips audioFlags = prefix ++ final)
    /\ (N = 2 -> final = "[v0][a0][v1][a1]concat=n=2:v=1:a=1[vout][aout]").
Proof.
  intros N final. exists (clipStages audioFlags 0 clips).
  assert (Hparts : filterParts clips audioFlags
                   = (clipStages audioFlags 0 clips ++ [final])%list)
    by apply filterParts_spec.
  split; [exact Hparts|]. split; [unfold buildFilterForConcat; now rewrite Hparts|].
  split; [apply clipStages_length|]. split; [apply clipStages_not_final|].
  split.
  { unfold final.
    change ("concat=n=" ++ JS.natToString N ++ ":v=1:a=1[vout][aout]")
      with ("concat=n=" ++ (JS.natToString N ++ ":v=1:a=1" ++ "[vout][aout]")).
    rewrite <- !append_assoc. apply endsWith_app. }
  split.
  { apply labels_length. }
  split.
  { unfold buildFilterForConcat. rewrite Hparts. apply join_snoc_suffix. }
  intros H2. unfold final. rewrite H2. reflexivity.
Qed.

Lemma Math_max_zero_positive (x : JS.number) :
  JS.lt JS.zero x = true -> JS.Math_max JS.zero x = x.
Proof.
  intros H. unfold JS.Math_max. rewrite H.
  destruct x; try discriminate; reflexivity.
Qed.

Lemma dur_Valid (c : clip) : Valid c -> dur c = JS.sub (out c) (in_ c).
Proof.
  intros (_ & _ & Hi & Ho & Hle & _). unfold dur.
  apply Math_max_zero_positive. rewrite sub_positive.
  apply (gt_le_Fin _ _ Ho Hi). exact Hle.
Qed.

Lemma Math_max_zero_not_negative (x : JS.number) :
  JS.lt (JS.Math_max JS.zero x) JS.zero = false.
Proof.
  unfold JS.Math_max. cbn [JS.isNaN orb].
  destruct (JS.isNaN x) eqn:En; [reflexivity|].
  destruct (JS.lt JS.zero x) eqn:E.
  - apply lt_asym. exact E.
  - reflexivity.
Qed.

(** C3. In the graph built for a normalized timeline, clip [i] has its
    video stage at position [2i] of the stages and its audio stage at
    position [2i+1]. When the flag of clip [i] is false the audio stage is
    the silence source [aevalsrc=0:d=D[a{i}]] with [D] the text of
    [out - in] of clip [i] itself; when the flag is true it is the audio
    trim with timestamp reset, labelled [a{i}] as well. The graph is these
    stages joined with [;]. *)
Theorem silence_for_own_duration
        (raw : JS.value) (clips : list clip) (audioFlags : list bool)
        (i : nat) (c : clip) :
  normTimeline raw = JS.Normal clips ->
  nth_error clips i = Some c ->
  let I := JS.natToString i in
  let D := JS.numberToString (JS.sub (out c) (in_ c)) in
  let parts := filterParts clips audioFlags in
  buildFilterForConcat clips audioFlags = JS.join ";" parts
  /\ nth_error parts (2 * i)
     = Some ("[" ++ I ++ ":v]trim=start=" ++ JS.numberToString (in_ c)
                 ++ ":duration=" ++ D ++ ",setpts=PTS-STARTPTS[v" ++ I ++ "]")
  /\ (nth_error audioFlags i = Some false ->
      nth_error parts (2 * i + 1) = Some ("aevalsrc=0:d=" ++ D ++ "[a" ++ I ++ "]"))
  /\ (nth_error audioFlags i = Some true ->
      nth_error parts (2 * i + 1)
      = Some ("[" ++ I ++ ":a]atrim=start=" ++ JS.numberToString (in_ c)
                  ++ ":duration=" ++ D ++ ",asetpts=PTS-STARTPTS[a" ++ I ++ "]")).
Proof.
  intros Hn Hc I D parts.
  assert (Hv : Valid c).
  { pose proof (normTimeline_Valid _ _ Hn) as Hall.
    rewrite Forall_forall in Hall. apply Hall. eapply nth_error_In; eassumption. }
  destruct (filterParts_nth clips audioFlags i c Hc) as [Hvid Haud].
  fold parts in Hvid, Haud.
  split; [reflexivity|]. split; [|split].
  - rewrite Hvid. unfold videoStage. now rewrite (dur_Valid c Hv).
  - intros Hf. rewrite Haud. unfold audioStage, flagAt.
    rewrite (nth_error_nth _ _ _ Hf). unfold silenceStage.
    now rewrite (dur_Valid c Hv).
  - intros Hf. rewrite Haud. unfold audioStage, flagAt.
    rewrite (nth_error_nth _ _ _ Hf). unfold audioTrimStage.
    now rewrite (dur_Valid c Hv).
Qed.

(** C10. [buildFilterForConcat] is defined on every list of clips, valid or
    not. The duration written into the video stage of a clip, and into its
    silence stage when its flag is false or missing, is the text of
    [Math.max(0, out - in)]; this number is never below 0, and it is 0 when
    [out <= in] on finite values. *)
Theorem duration_is_clamped
        (clips : list clip) (audioFlags : list bool) (i : nat) (c : clip) :
  nth_error clips i = Some c ->
  let I := JS.natToString i in
  let d := JS.Math_max JS.zero (JS.sub (out c) (in_ c)) in
  let parts := filterParts clips audioFlags in
  buildFilterForConcat clips audioFlags = JS.join ";" parts
  /\ nth_error parts (2 * i)
     = Some ("[" ++ I ++ ":v]trim=start=" ++ JS.numberToString (in_ c)
                 ++ ":duration=" ++ JS.numberToString d
                 ++ ",setpts=PTS-STARTPTS[v" ++ I ++ "]")
  /\ (nth i audioFlags false = false ->
      nth_error parts (2 * i + 1)
      = Some ("aevalsrc=0:d=" ++ JS.numberToString d ++ "[a" ++ I ++ "]"))
  /\ JS.lt d JS.zero = false
  /\ (JS.isFinite (out c) = true -> JS.isFinite (in_ c) = true ->
      JS.le (out c) (in_ c) = true -> d = JS.zero).
Proof.
  intros Hc I d parts.
  destruct (filterParts_nth clips audioFlags i c Hc) as [Hvid Haud].
  fold parts in Hvid, Haud.
  split; [reflexivity|]. split; [exact Hvid|]. split; [|split].
  - intros Hf. rewrite Haud. unfold audioStage, flagAt. now rewrite Hf.
  - apply Math_max_zero_not_negative.
  - intros Ho Hi Hle. unfold d, JS.Math_max.
    rewrite sub_positive, (le_lt_false _ _ Hle).
    destruct (isFinite_Fin _ Ho) as [x ->], (isFinite_Fin _ Hi) as [y ->].
    reflexivity.
Qed.

End GraphFacts.

Lemma concat_stage_interleaves_witness :
  List.length scenarioClips = 2
  /\ exists prefix,
       @buildFilterForConcat Plain.runtime scenarioClips scenarioFlags
       = prefix ++ "[v0][a0][v1][a1]concat=n=2:v=1:a=1[vout][aout]".
Proof.
  split; [reflexivity|].
  destruct (@concat_stage_interleaves Plain.runtime scenarioClips scenarioFlags)
    as (stages & _ & _ & _ & _ & _ & _ & [prefix Hp] & H2).
  exists prefix. rewrite <- (H2 eq_refl). exact Hp.
Defined.

Lemma silence_for_own_duration_witness :
  @normTimeline Plain.runtime scenarioRaw = JS.Normal scenarioClips
  /\ nth_error scenarioClips 1 = Some (mkClip "B" (JS.Fin 5) (JS.Fin 0) (JS.Fin 3))
  /\ nth_error scenarioFlags 1 = Some false
  /\ nth_error (@filterParts Plain.runtime scenarioClips scenarioFlags) 3
     = Some "aevalsrc=0:d=3[a1]".
Proof.
  split; [reflexivity|]. split; [reflexivity|]. split; [reflexivity|].
  destruct (@silence_for_own_duration Plain.runtime scenarioRaw scenarioClips scenarioFlags
              1 (mkClip "B" (JS.Fin 5) (JS.Fin 0) (JS.Fin 3)) eq_refl eq_refl)
    as (_ & _ & Hsilence & _).
  exact (Hsilence eq_refl).
Defined.

Lemma duration_is_clamped_witness :
  nth_error backwardClips 0 = Some (mkClip "A" (JS.Fin 0) (JS.Fin 5) (JS.Fin 2))
  /\ nth_error (@filterParts Plain.runtime backwardClips []) 0
     = Some "[0:v]trim=start=5:duration=0,setpts=PTS-STARTPTS[v0]"
  /\ nth_error (@filterParts Plain.runtime backwardClips []) 1
     = Some "aevalsrc=0:d=0[a0]".
Proof.
  split; [reflexivity|].
  destruct (@duration_is_clamped Plain.runtime backwardClips [] 0
              (mkClip "A" (JS.Fin 0) (JS.Fin 5) (JS.Fin 2)) eq_refl)
    as (_ & Hvideo & Hsilence & _ & _).
  split; [exact Hvideo | exact (Hsilence eq_refl)].
Defined.

(** The end-to-end scenario: A from 2 to 5 with its own audio, B from 0 to 3
    with three seconds of silence, joined. *)
Example scenario_graph :
  @buildFilterForConcat Plain.runtime scenarioClips scenarioFlags
  = "[0:v]trim=start=2:duration=3,setpts=PTS-STARTPTS[v0];"
    ++ "[0:a]atrim=start=2:duration=3,asetpts=PTS-STARTPTS[a0];"
    ++ "[1:v]trim=start=0:duration=3,setpts=PTS-STARTPTS[v1];"
    ++ "aevalsrc=0:d=3[a1];"
    ++ "[v0][a0][v1][a1]concat=n=2:v=1:a=1[vout][aout]".
Proof. reflexivity. Qed.

(* ================================================================== *)
(** ** The stream prober *)
(* ================================================================== *)

Section ProberFacts.
Context {RT : JS.Runtime}.
Variable spawn : string -> list string -> ProcResult.

Lemma orString_empty (s : string) : JS.orString s "" = s.
Proof. now destruct s. Qed.

(** C7. [hasAudioStream] always completes with a boolean, it never
    throws. The boolean is true exactly when the probe process closed with
    exit code 0 and its output, trimmed, is the text [audio]; it is false
    when the binary could not be launched, when the exit code is not 0 and
    when the output is anything else. *)
Theorem hasAudioStream_only_on_marker (filePath : string) :
  exists b,
    hasAudioStream spawn filePath = JS.Normal b
    /\ (b = true <->
        exists o e, spawn "ffprobe" (ffprobeArgs filePath) = Closed (Some 0%Z) o e
                    /\ JS.trim o = "audio")
    /\ (forall e, spawn "ffprobe" (ffprobeArgs filePath) = SpawnError e -> b = false)
    /\ (forall code o e,
          spawn "ffprobe" (ffprobeArgs filePath) = Closed code o e ->
          code <> Some 0%Z -> b = false)
    /\ (forall o e,
          spawn "ffprobe" (ffprobeArgs filePath) = Closed (Some 0%Z) o e ->
          JS.trim o <> "audio" -> b = false).
Proof.
  unfold hasAudioStream, runCmd.
  destruct (spawn "ffprobe" (ffprobeArgs filePath)) as [e0|code o0 e0] eqn:E.
  - exists false. split; [reflexivity|]. split; [|repeat split; intros; congruence].
    split; [discriminate|]. intros (o & e & H & _). discriminate.
  - destruct code as [[|p|p]|];
      try (exists false; split; [reflexivity|];
           split; [split; [discriminate | intros (o & e & H & _); discriminate]|];
           repeat split; intros; congruence).
    rewrite orString_empty.
    exists (String.eqb (JS.trim o0) "audio"). split; [reflexivity|].
    split; [|split; [|split]].
    + rewrite String.eqb_eq. split.
      * intros H. now exists o0, e0.
      * intros (o & e & [= <- <-] & H). exact H.
    + intros e H. discriminate.
    + intros code o e [= <- <- <-] Hc. contradiction.
    + intros o e [= <- <-] Hn. now apply String.eqb_neq.
Qed.

End ProberFacts.

Lemma hasAudioStream_only_on_marker_witness :
  @hasAudioStream Plain.runtime spawnAudio "/tmp/x/inputs/src-0-7.mp4" = JS.Normal true
  /\ @hasAudioStream Plain.runtime spawnMissing "/tmp/x/inputs/src-0-7.mp4" = JS.Normal false.
Proof.
  split.
  - destruct (@hasAudioStream_only_on_marker Plain.runtime spawnAudio
                "/tmp/x/inputs/src-0-7.mp4") as (b & Hb & Hiff & _).
    rewrite Hb. f_equal. apply Hiff. exists ("audio" ++ nl), "". split; reflexivity.
  - destruct (@hasAudioStream_only_on_marker Plain.runtime spawnMissing
                "/tmp/x/inputs/src-0-7.mp4") as (b & Hb & _ & Hmissing & _).
    rewrite Hb. f_equal. eapply Hmissing. reflexivity.
Defined.

(* ================================================================== *)
(** ** The tag list *)
(* ================================================================== *)

Section TagFacts.

Lemma filter_twice {A} (p q : A -> bool) (l : list A) :
  filter q (filter p l) = filter (fun x => p x && q x) l.
Proof.
  induction l as [|x l IH]; [reflexivity|].
  cbn [filter]. destruct (p x); cbn [andb filter]; [|exact IH].
  destruct (q x); now rewrite IH.
Qed.

Lemma filter_length_le {A} (p : A -> bool) (l : list A) :
  List.length (filter p l) <= List.length l.
Proof.
  induction l as [|x l IH]; [reflexivity|].
  cbn [filter]. destruct (p x); cbn [List.length]; lia.
Qed.

Lemma existsb_snoc (y x : string) (acc : list string) :
  existsb (String.eqb y) (acc ++ [x]) = existsb (String.eqb y) acc || String.eqb y x.
Proof. rewrite existsb_app. cbn. now rewrite orb_false_r. Qed.

(** Adding the elements of [l] to a set [acc] appends to it, without
    repetition, those elements of [l] that are not in [acc]. *)
Lemma fold_addToSet_fresh (n : nat) :
  forall (l acc : list string),
    List.length l <= n ->
    fold_left JS.addToSet l acc
    = (acc ++ fold_left JS.addToSet
                (filter (fun y => negb (existsb (String.eqb y) acc)) l) [])%list.
Proof.
  induction n as [|n IH]; intros l acc Hl.
  - destruct l; [|cbn in Hl; lia]. cbn. now rewrite app_nil_r.
  - destruct l as [|x l]; [cbn; now rewrite app_nil_r|].
    cbn [List.length] in Hl. cbn [fold_left filter]. unfold JS.addToSet at 2.
    destruct (existsb (String.eqb x) acc) eqn:E; cbn [negb].
    + apply IH. lia.
    + cbn [fold_left]. unfold JS.addToSet at 3. cbn [existsb app].
      rewrite (IH l (acc ++ [x])%list) by lia.
      rewrite (IH (filter _ l) [x]) by (pose proof (filter_length_le
                 (fun y => negb (existsb (String.eqb y) acc)) l); lia).
      rewrite filter_twice. rewrite <- app_assoc. cbn [app]. do 3 f_equal.
      apply filter_ext. intros y. rewrite existsb_snoc. cbn [existsb].
      rewrite orb_false_r. apply negb_orb.
Qed.

(** The set keeps each text at its first occurrence. *)
Lemma distinct_cons (x : string) (l : list string) :
  JS.distinct (x :: l)
  = x :: JS.distinct (filter (fun y => negb (String.eqb y x)) l).
Proof.
  unfold JS.distinct. cbn [fold_left]. unfold JS.addToSet at 2. cbn [existsb app].
  rewrite (fold_addToSet_fresh (List.length l) l [x]) by lia.
  cbn [app]. do 2 f_equal. apply filter_ext. intros y. cbn [existsb].
  now rewrite orb_false_r.
Qed.

Lemma fold_addToSet_NoDup (l : list string) :
  forall acc,
    NoDup acc ->
    NoDup (fold_left JS.addToSet l acc)
    /\ forall y, In y (fold_left JS.addToSet l acc) <-> In y acc \/ In y l.
Proof.
  induction l as [|x l IH]; intros acc Hacc; cbn [fold_left].
  - split; [assumption|]. intros y. cbn. tauto.
  - unfold JS.addToSet at 2 4. destruct (existsb (String.eqb x) acc) eqn:E.
    + destruct (IH acc Hacc) as [Hn Hin]. split; [assumption|].
      intros y. rewrite Hin. cbn [In].
      apply existsb_exists in E as (z & Hz & Ez). apply String.eqb_eq in Ez. subst z.
      split; [tauto|]. intros [H|[<-|H]]; tauto.
    + assert (Hx : ~ In x acc).
      { intros Hx. apply not_true_iff_false in E. apply E.
        apply existsb_exists. exists x. split; [assumption | apply String.eqb_refl]. }
      assert (Hacc' : NoDup (acc ++ [x])).
      { apply NoDup_app; [assumption | repeat constructor; intros [] | ].
        intros z Hz [<-|[]]. contradiction. }
      destruct (IH (acc ++ [x])%list Hacc') as [Hn Hin]. split; [assumption|].
      intros y. rewrite Hin, in_app_iff. cbn [In]. tauto.
Qed.

Lemma distinct_NoDup (l : list string) : NoDup (JS.distinct l).
Proof. apply (fold_addToSet_NoDup l []). constructor. Qed.

Lemma distinct_In (l : list string) (y : string) : In y (JS.distinct l) <-> In y l.
Proof.
  unfold JS.distinct. rewrite (proj2 (fold_addToSet_NoDup l [] (NoDup_nil _))).
  cbn. tauto.
Qed.

Lemma distinct_length (l : list string) : List.length (JS.distinct l) <= List.length l.
Proof.
  apply NoDup_incl_length; [apply distinct_NoDup|].
  intros y. apply distinct_In.
Qed.

(** C6, as the code has it. The stored tag list is made from the first
    thirty entries that are not empty once trimmed and lower-cased: it
    holds each of them once, at the place of its first occurrence, so it
    never has more than thirty entries; when the text has at most thirty
    such entries it is the list of all of them without duplicates; and the
    text [Funny, funny , CATS,,cats] gives [funny] and [cats]. *)
Theorem tagsArr_first_thirty_entries (tags : string) :
  tagsArr tags = JS.distinct (firstn 30 (tagEntries tags))
  /\ NoDup (tagsArr tags)
  /\ (forall t, In t (tagsArr tags) <-> In t (firstn 30 (tagEntries tags)))
  /\ (forall x l, JS.distinct (x :: l)
                  = x :: JS.distinct (filter (fun y => negb (String.eqb y x)) l))
  /\ Forall (fun t => t <> "") (tagsArr tags)
  /\ List.length (tagsArr tags) <= 30
  /\ (List.length (tagEntries tags) <= 30 -> tagsArr tags = JS.distinct (tagEntries tags))
  /\ tagsArr "Funny, funny , CATS,,cats" = ["funny"; "cats"].
Proof.
  assert (E : tagsArr tags = JS.distinct (firstn 30 (tagEntries tags))) by reflexivity.
  split; [exact E|]. rewrite E.
  split; [apply distinct_NoDup|]. split; [intros t; apply distinct_In|].
  split; [exact distinct_cons|]. split; [|split; [|split]].
  - apply Forall_forall. intros t Ht. apply (proj1 (distinct_In _ _)) in Ht.
    assert (Hin : In t (tagEntries tags)).
    { rewrite <- (firstn_skipn 30 (tagEntries tags)). apply in_app_iff. now left. }
    apply filter_In in Hin as [_ Ht']. intros ->. discriminate.
  - etransitivity; [apply distinct_length|]. apply firstn_le_length.
  - intros Hl. now rewrite firstn_all2.
  - reflexivity.
Qed.

End TagFacts.

Lemma tagsArr_first_thirty_entries_witness :
  List.length (tagEntries "Funny, funny , CATS,,cats") <= 30
  /\ tagsArr "Funny, funny , CATS,,cats"
     = JS.distinct (tagEntries "Funny, funny , CATS,,cats").
Proof.
  assert (Hl : List.length (tagEntries "Funny, funny , CATS,,cats") <= 30)
    by (vm_compute; lia).
  split; [exact Hl|].
  destruct (tagsArr_first_thirty_entries "Funny, funny , CATS,,cats")
    as (_ & _ & _ & _ & _ & _ & Hall & _).
  exact (Hall Hl).
Defined.

(** C6, as the specification states it: the tag list would be the entries
    without duplicates, cut to thirty. With thirty entries [a] followed by one entry
    [b] there are two distinct tags, and the handler stores only [a]: it cuts
    to the first thirty entries before it removes the duplicates. For the
    same reason a text with thirty-one distinct tags, the first of them
    written twice, is stored with twenty-nine tags, not thirty. *)
Lemma tagsArr_cuts_before_dedup :
  tagsArr thirtyOneEntries = ["a"]
  /\ firstn 30 (JS.distinct (tagEntries thirtyOneEntries)) = ["a"; "b"]
  /\ tagsArr thirtyOneEntries <> firstn 30 (JS.distinct (tagEntries thirtyOneEntries))
  /\ List.length (JS.distinct (tagEntries thirtyOneTags)) = 31
  /\ List.length (tagsArr thirtyOneTags) = 29.
Proof.
  split; [vm_compute; reflexivity|]. split; [vm_compute; reflexivity|].
  split; [vm_compute; discriminate|]. split; vm_compute; reflexivity.
Qed.

(* ================================================================== *)
(** ** The export orchestrator *)
(* ================================================================== *)

Section HandlerFacts.
Context {RT : JS.Runtime}.
Variable env : Env.
Variable tmpRoot : string.
Variable st0 : State.

Local Abbreviation grown := (grown st0).
Local Abbreviation cleaned := (cleaned env tmpRoot st0).
Local Abbreviation returnsCleaned := (returnsCleaned env tmpRoot st0).

Lemma grown_snoc (st : State) (fs : list string) (ev : Event) :
  grown st -> grown (mkState fs (trace st ++ [ev])).
Proof. intros [t E]. exists (t ++ [ev])%list. cbn. now rewrite E, app_assoc. Qed.

Lemma grown_files (st : State) (fs : list string) :
  grown st -> grown (mkState fs (trace st)).
Proof. intros [t E]. now exists t. Qed.

Lemma rc_bind {A B} (m : M A) (k : A -> M B) (QC : B -> State -> Prop) :
  returnsCleaned m (fun _ => grown) ->
  (forall a, returnsCleaned (k a) QC) ->
  returnsCleaned (bindM m k) QC.
Proof.
  intros Hm Hk st Hst. unfold bindM. specialize (Hm st Hst).
  destruct (m st) as [[a|r|e] st']; [|assumption|assumption].
  exact (Hk a st' Hm).
Qed.

Lemma rc_ret {A} (a : A) : returnsCleaned (ret a) (fun _ => grown).
Proof. intros st Hst. exact Hst. Qed.

Lemma rc_await {A} (c : JS.completion A) (QC : A -> State -> Prop) :
  (forall a, c = JS.Normal a -> forall st, grown st -> QC a st) ->
  returnsCleaned (await c) QC.
Proof. intros H st Hst. unfold await. destruct c; [now apply H | exact Hst]. Qed.

Lemma rc_await_grown {A} (c : JS.completion A) : returnsCleaned (await c) (fun _ => grown).
Proof. apply rc_await. auto. Qed.

Lemma rc_emit (ev : Event) : returnsCleaned (emit ev) (fun _ => grown).
Proof. intros st Hst. now apply grown_snoc. Qed.

Lemma rc_touch (p : string) : returnsCleaned (touch p) (fun _ => grown).
Proof. intros st Hst. now apply grown_files. Qed.

Lemma rc_cleanup : returnsCleaned (cleanup env tmpRoot) (fun _ => grown).
Proof. intros st Hst. now apply grown_snoc. Qed.

Lemma rmRecursive_gone (fs : list string) :
  existsb (within tmpRoot) (rmRecursive tmpRoot fs) = false.
Proof.
  unfold rmRecursive. induction fs as [|p fs IH]; [reflexivity|].
  cbn [filter]. destruct (within tmpRoot p) eqn:E; cbn [negb]; [exact IH|].
  cbn [existsb]. now rewrite E, IH.
Qed.

Lemma rc_cleanup_respond {A} (r : Response) (QC : A -> State -> Prop) :
  returnsCleaned (cleanup env tmpRoot ;;; respond r) QC.
Proof.
  intros st [t E]. cbn. split.
  - exists (t ++ [EvCleanup tmpRoot])%list. split.
    + now rewrite E, app_assoc.
    + apply in_app_iff. right. now left.
  - intros Hrm. unfold scratchExists. cbn. rewrite Hrm. apply rmRecursive_gone.
Qed.

Lemma rc_throw {A} (e : JS.Error) (QC : A -> State -> Prop) :
  returnsCleaned (await (JS.Throw e)) QC.
Proof. intros st Hst. exact Hst. Qed.

Lemma rc_weaken {A} (m : M A) (QC QC' : A -> State -> Prop) :
  (forall a st, QC a st -> QC' a st) -> returnsCleaned m QC -> returnsCleaned m QC'.
Proof.
  intros H Hm st Hst. specialize (Hm st Hst).
  destruct (m st) as [[a|r|e] st']; auto.
Qed.

Lemma rc_downloadS3ToFile (bucket key outPath : string) :
  returnsCleaned (downloadS3ToFile env bucket key outPath) (fun _ => grown).
Proof.
  unfold downloadS3ToFile.
  apply rc_bind; [apply rc_emit | intros _].
  apply rc_bind; [apply rc_await_grown | intros [|]].
  - apply rc_bind; [apply rc_touch | intros _].
    apply rc_bind; [apply rc_await_grown | intros _]. apply rc_ret.
  - apply rc_throw.
Qed.

Lemma rc_checkResolved (byId : list Row) (clips : list clip) :
  returnsCleaned (checkResolved env tmpRoot byId clips) (fun _ => grown).
Proof.
  induction clips as [|c rest IH]; cbn [checkResolved].
  - apply rc_ret.
  - destruct (mapHas byId (videoId c)); [exact IH | apply rc_cleanup_respond].
Qed.

Lemma rc_downloadAll (inputDir bucket : string) (byId : list Row) (clips : list clip) :
  forall i inputPaths,
    returnsCleaned (downloadAll env tmpRoot inputDir bucket byId i clips inputPaths)
                   (fun _ => grown).
Proof.
  induction clips as [|c rest IH]; intros i inputPaths; cbn [downloadAll].
  - apply rc_ret.
  - destruct (mapGet byId (videoId c)) as [row|]; [|apply rc_throw].
    destruct (negb _); [apply rc_cleanup_respond|].
    apply rc_bind; [apply rc_downloadS3ToFile | intros _]. apply IH.
Qed.

Lemma rc_spawnProbes (inputPaths : list string) :
  returnsCleaned (spawnProbes inputPaths) (fun _ => grown).
Proof.
  induction inputPaths as [|p rest IH]; cbn [spawnProbes]; [apply rc_ret|].
  apply rc_bind; [apply rc_emit | intros _]. exact IH.
Qed.

Lemma rc_encode (args : list string) (outPath : string) :
  returnsCleaned (encode env args outPath) (fun _ => grown).
Proof.
  unfold encode.
  apply rc_bind; [apply rc_emit | intros _].
  apply rc_bind; [destruct (spawn env "ffmpeg" args); [apply rc_ret | apply rc_touch] | intros _].
  apply rc_bind; [apply rc_await_grown | intros _]. apply rc_ret.
Qed.

(** One step through a sequence of statements. *)
Ltac rc_step :=
  first
    [ match goal with
      | |- returnsCleaned (if ?b then _ else _) _ => destruct b
      | |- returnsCleaned (match ?o with Some _ => _ | None => _ end) _ => destruct o
      | |- context [match ?l with nil => _ | cons _ _ => _ end] => is_var l; destruct l
      end
    | apply rc_cleanup_respond
    | apply rc_throw
    | apply rc_bind;
      [ first [ apply rc_await_grown | apply rc_emit | apply rc_touch | apply rc_cleanup
              | apply rc_checkResolved | apply rc_downloadAll | apply rc_spawnProbes
              | apply rc_encode ]
      | intros ? ] ].

(** The [try] block never falls through: it returns a response after a
    cleanup, or it throws. *)
Lemma rc_tryBlock (req : Request) (inputDir outDir : string) :
  returnsCleaned (tryBlock env req tmpRoot inputDir outDir) (fun _ _ => False).
Proof. unfold tryBlock. repeat rc_step. Qed.

Lemma rc_tryCatch (req : Request) (inputDir outDir : string) :
  returnsCleaned (tryCatch env req tmpRoot inputDir outDir) (fun _ _ => False).
Proof.
  intros st Hst. unfold tryCatch.
  pose proof (rc_tryBlock req inputDir outDir st Hst) as H.
  destruct (tryBlock env req tmpRoot inputDir outDir st) as [[r|r|e] st1];
    [contradiction | exact H |].
  assert (Hc : returnsCleaned (catchBlock env tmpRoot e) (fun (_ : Response) _ => False)).
  { unfold catchBlock. apply rc_bind; [apply rc_emit | intros _].
    apply rc_cleanup_respond. }
  exact (Hc st1 H).
Qed.

End HandlerFacts.

(** What the handler answers does not depend on the paths that exist, nor
    on whether [rmSync] throws. *)
Section ResponseFacts.
Context {RT : JS.Runtime}.
Variable env : Env.
Variable b : list Event -> bool.

Lemma ss_bind {A B} (m m' : M A) (k k' : A -> M B) :
  sameSignal m m' -> (forall a, sameSignal (k a) (k' a)) ->
  sameSignal (bindM m k) (bindM m' k').
Proof.
  intros Hm Hk st st'. unfold bindM. specialize (Hm st st').
  destruct (m st) as [[a|r|e] s1], (m' st') as [[a'|r'|e'] s1'];
    cbn in Hm; try discriminate; try (injection Hm as <-); try reflexivity.
  apply Hk.
Qed.

Lemma ss_await {A} (c : JS.completion A) : sameSignal (await c) (await c).
Proof. intros st st'. unfold await. now destruct c. Qed.

Lemma ss_ret {A} (a : A) : sameSignal (ret a) (ret a).
Proof. intros st st'. reflexivity. Qed.

Lemma ss_respond {A} (r : Response) : sameSignal (@respond A r) (respond r).
Proof. intros st st'. reflexivity. Qed.

Lemma ss_emit (ev : Event) : sameSignal (emit ev) (emit ev).
Proof. intros st st'. reflexivity. Qed.

Lemma ss_touch (p : string) : sameSignal (touch p) (touch p).
Proof. intros st st'. reflexivity. Qed.

Lemma ss_cleanup (root : string) :
  sameSignal (cleanup (withRmSyncThrows b env) root) (cleanup env root).
Proof. intros st st'. reflexivity. Qed.

Lemma ss_downloadS3ToFile (bucket key outPath : string) :
  sameSignal (downloadS3ToFile (withRmSyncThrows b env) bucket key outPath)
             (downloadS3ToFile env bucket key outPath).
Proof.
  unfold downloadS3ToFile.
  apply ss_bind; [apply ss_emit | intros _].
  apply ss_bind; [apply ss_await | intros [|]]; [|apply ss_await].
  apply ss_bind; [apply ss_touch | intros _].
  apply ss_bind; [apply ss_await | intros _]. apply ss_ret.
Qed.

Lemma ss_checkResolved (root : string) (byId : list Row) (clips : list clip) :
  sameSignal (checkResolved (withRmSyncThrows b env) root byId clips)
             (checkResolved env root byId clips).
Proof.
  induction clips as [|c rest IH]; cbn [checkResolved]; [apply ss_ret|].
  destruct (mapHas byId (videoId c)); [exact IH|].
  apply ss_bind; [apply ss_cleanup | intros _]. apply ss_respond.
Qed.

Lemma ss_downloadAll (root inputDir bucket : string) (byId : list Row) (clips : list clip) :
  forall i inputPaths,
    sameSignal (downloadAll (withRmSyncThrows b env) root inputDir bucket byId i clips inputPaths)
               (downloadAll env root inputDir bucket byId i clips inputPaths).
Proof.
  induction clips as [|c rest IH]; intros i inputPaths; cbn [downloadAll]; [apply ss_ret|].
  destruct (mapGet byId (videoId c)) as [row|]; [|apply ss_await].
  destruct (negb _).
  - apply ss_bind; [apply ss_cleanup | intros _]. apply ss_respond.
  - apply ss_bind; [apply ss_downloadS3ToFile | intros _]. apply IH.
Qed.

Lemma ss_spawnProbes (inputPaths : list string) :
  sameSignal (spawnProbes inputPaths) (spawnProbes inputPaths).
Proof.
  induction inputPaths as [|p rest IH]; cbn [spawnProbes]; [apply ss_ret|].
  apply ss_bind; [apply ss_emit | intros _]. exact IH.
Qed.

Lemma ss_encode (args : list string) (outPath : string) :
  sameSignal (encode (withRmSyncThrows b env) args outPath) (encode env args outPath).
Proof.
  unfold encode. cbn [withRmSyncThrows spawn].
  apply ss_bind; [apply ss_emit | intros _].
  apply ss_bind;
    [destruct (spawn env "ffmpeg" args); [apply ss_ret | apply ss_touch] | intros _].
  apply ss_bind; [apply ss_await | intros _]. apply ss_ret.
Qed.

Ltac ss_step :=
  first
    [ match goal with
      | |- sameSignal (if ?c then _ else _) _ => destruct c
      | |- sameSignal (match ?o with Some _ => _ | None => _ end) _ => destruct o
      | |- sameSignal (match ?l with nil => _ | cons _ _ => _ end) _ => destruct l
      end
    | apply ss_respond
    | apply ss_await
    | apply ss_bind;
      [ first [ apply ss_await | apply ss_emit | apply ss_touch | apply ss_cleanup
              | apply ss_checkResolved | apply ss_downloadAll | apply ss_spawnProbes
              | apply ss_encode ]
      | intros ? ] ].

Lemma ss_tryBlock (req : Request) (root inputDir outDir : string) :
  sameSignal (tryBlock (withRmSyncThrows b env) req root inputDir outDir)
             (tryBlock env req root inputDir outDir).
Proof.
  unfold tryBlock.
  cbn [withRmSyncThrows S3_UPLOADS_BUCKET spawn now randomHex uploadFileToS3 insertVideo].
  repeat ss_step.
Qed.

Lemma ss_tryCatch (req : Request) (root inputDir outDir : string) :
  sameSignal (tryCatch (withRmSyncThrows b env) req root inputDir outDir)
             (tryCatch env req root inputDir outDir).
Proof.
  intros st st'. unfold tryCatch.
  pose proof (ss_tryBlock req root inputDir outDir st st') as H.
  destruct (tryBlock (withRmSyncThrows b env) req root inputDir outDir st) as [[r|r|e] s1],
           (tryBlock env req root inputDir outDir st') as [[r'|r'|e'] s1'];
    cbn in H; try discriminate; try exact H.
  injection H as <-. reflexivity.
Qed.

Lemma handler_response_ignores_rmSync (req : Request) (st : State) :
  fst (handler (withRmSyncThrows b env) req st) = fst (handler env req st).
Proof.
  unfold handler. cbn [withRmSyncThrows mkdtempSync mkdirSync tmpdir].
  destruct (mkdtempSync env _) as [root|e]; [|reflexivity].
  destruct (mkdirSync env (pathJoin root "inputs")); [|reflexivity].
  destruct (mkdirSync env (pathJoin root "out")); [|reflexivity].
  match goal with
  | |- fst (match ?x with _ => _ end) = fst (match ?y with _ => _ end) =>
      assert (H : fst x = fst y) by apply ss_tryCatch;
      destruct x as [[r|r|e] s1], y as [[r'|r'|e'] s1']
  end; cbn in H; try discriminate; injection H as <-; reflexivity.
Qed.

End ResponseFacts.

Section ExitPaths.
Context {RT : JS.Runtime}.
Variable env : Env.
Variable tmpRoot : string.

(** The state [cleanup] leaves. *)
Lemma cleanup_run (st : State) :
  cleanup env tmpRoot st
  = (Continue tt,
     mkState (if rmSyncThrows env (trace st) then files st
              else rmRecursive tmpRoot (files st))
             (trace st ++ [EvCleanup tmpRoot])).
Proof. reflexivity. Qed.

Lemma handler_of_tryCatch (req : Request) (st : State) :
  scratchCreated env tmpRoot ->
  handler env req st
  = match tryCatch env req tmpRoot (pathJoin tmpRoot "inputs") (pathJoin tmpRoot "out")
                   (atTry tmpRoot st) with
    | (Continue r, st') => (Responded r, st')
    | (Return r, st') => (Responded r, st')
    | (Raise e, st') => (Unhandled e, st')
    end.
Proof.
  intros (H1 & H2 & H3). unfold handler. rewrite H1, H2, H3. reflexivity.
Qed.

(** What the handler does with an exception thrown in its [try] block. *)
Lemma handler_of_raise (req : Request) (st st1 : State) (e : JS.Error) :
  scratchCreated env tmpRoot ->
  tryBlock env req tmpRoot (pathJoin tmpRoot "inputs") (pathJoin tmpRoot "out")
           (atTry tmpRoot st) = (Raise e, st1) ->
  handler env req st
  = (Responded (Failure 500 (JS.orString (JS.message e) genericMessage)),
     mkState (if rmSyncThrows env (trace st1 ++ [EvConsoleError e]) then files st1
              else rmRecursive tmpRoot (files st1))
             (trace st1 ++ [EvConsoleError e; EvCleanup tmpRoot])).
Proof.
  intros Hc H. rewrite (handler_of_tryCatch req st Hc). unfold tryCatch. rewrite H.
  unfold catchBlock, bindM, emit, respond. rewrite cleanup_run. cbn [files trace].
  now rewrite <- app_assoc.
Qed.

Lemma handler_of_return (req : Request) (st st1 : State) (r : Response) :
  scratchCreated env tmpRoot ->
  tryBlock env req tmpRoot (pathJoin tmpRoot "inputs") (pathJoin tmpRoot "out")
           (atTry tmpRoot st) = (Return r, st1) ->
  handler env req st = (Responded r, st1).
Proof.
  intros Hc H. rewrite (handler_of_tryCatch req st Hc). unfold tryCatch. now rewrite H.
Qed.

(** The [catch] block ends in a response: no exception leaves
    [tryCatch]. *)
Lemma tryCatch_catches (req : Request) (inputDir outDir : string) (st st1 : State)
      (e : JS.Error) :
  tryCatch env req tmpRoot inputDir outDir st <> (Raise e, st1).
Proof.
  unfold tryCatch.
  destruct (tryBlock env req tmpRoot inputDir outDir st) as [[r|r|e0] s1];
    discriminate.
Qed.

(** The handler answers, after a cleanup that leaves nothing of the scratch
    directory unless [rmSync] throws. *)
Lemma handler_cleaned (req : Request) (st st' : State) (o : Outcome) :
  scratchCreated env tmpRoot ->
  handler env req st = (o, st') ->
  (exists r, o = Responded r) /\ cleaned env tmpRoot st st'.
Proof.
  intros Hc H. rewrite (handler_of_tryCatch req st Hc) in H.
  assert (Hg : grown st (atTry tmpRoot st)) by (exists []; cbn; now rewrite app_nil_r).
  pose proof (rc_tryCatch env tmpRoot st req (pathJoin tmpRoot "inputs")
                          (pathJoin tmpRoot "out") _ Hg) as Hrc.
  pose proof (tryCatch_catches req (pathJoin tmpRoot "inputs") (pathJoin tmpRoot "out")
                               (atTry tmpRoot st)) as Hno.
  destruct (tryCatch env req tmpRoot _ _ (atTry tmpRoot st)) as [[r|r|e] s1];
    [contradiction| |].
  - injection H as <- <-. split; [now exists r | exact Hrc].
  - exfalso. now apply (Hno s1 e).
Qed.

(** *** Running the [try] block step by step *)

Lemma run_await_Normal {A B} (a : A) (k : A -> M B) (st : State) :
  bindM (await (JS.Normal a)) k st = k a st.
Proof. reflexivity. Qed.

Lemma run_await_Throw {A B} (e : JS.Error) (k : A -> M B) (st : State) :
  bindM (await (JS.Throw e)) k st = (Raise e, st).
Proof. reflexivity. Qed.

Lemma run_emit {B} (ev : Event) (k : unit -> M B) (st : State) :
  bindM (emit ev) k st = k tt (mkState (files st) (trace st ++ [ev])).
Proof. reflexivity. Qed.

Lemma run_cleanup_respond {B} (r : Response) (st : State) :
  bindM (cleanup env tmpRoot) (fun _ => @respond B r) st
  = (Return r,
     mkState (if rmSyncThrows env (trace st) then files st
              else rmRecursive tmpRoot (files st))
             (trace st ++ [EvCleanup tmpRoot])).
Proof. reflexivity. Qed.

Lemma run_return {A B} (m : M A) (k : A -> M B) (st st1 : State) (r : Response) :
  m st = (Return r, st1) -> bindM m k st = (Return r, st1).
Proof. intros H. unfold bindM. now rewrite H. Qed.

(** The rows the lookup finds cover a clip of the timeline exactly when
    the table has a row for its source id. *)
Lemma mapHas_selected (ids : list string) (k : string) :
  In k ids ->
  mapHas (filter (fun r => existsb (String.eqb (rowId r)) ids) (videos env)) k
  = existsb (String.eqb k) (map rowId (videos env)).
Proof.
  intros Hk. unfold mapHas. apply eq_true_iff_eq.
  rewrite !existsb_exists. split.
  - intros (r & Hr & E). apply filter_In in Hr as [Hr _]. apply String.eqb_eq in E.
    exists (rowId r). split; [now apply in_map | subst; apply String.eqb_refl].
  - intros (x & Hx & E). apply String.eqb_eq in E. subst x.
    apply in_map_iff in Hx as (r & <- & Hr). exists r. split; [|apply String.eqb_refl].
    apply filter_In. split; [assumption|]. apply existsb_exists.
    exists (rowId r). split; [assumption | apply String.eqb_refl].
Qed.

(** The check stops at the first clip without a row. *)
Lemma checkResolved_stops (byId : list Row) (clips : list clip) (c0 : clip) (st : State) :
  find (fun c => negb (mapHas byId (videoId c))) clips = Some c0 ->
  checkResolved env tmpRoot byId clips st
  = (Return (Failure 400 ("Unknown clip videoId " ++ videoId c0)),
     mkState (if rmSyncThrows env (trace st) then files st
              else rmRecursive tmpRoot (files st))
             (trace st ++ [EvCleanup tmpRoot])).
Proof.
  induction clips as [|c rest IH]; cbn [find checkResolved]; [discriminate|].
  destruct (mapHas byId (videoId c)); cbn [negb].
  - exact IH.
  - intros [= <-]. apply run_cleanup_respond.
Qed.

Lemma find_unresolved (clips : list clip) :
  find (fun c => negb (mapHas (filter (fun r => existsb (String.eqb (rowId r))
                                                        (map videoId clips))
                                      (videos env))
                              (videoId c))) clips
  = find (unresolved env) clips.
Proof.
  assert (H : forall l, incl l clips ->
              find (fun c => negb (mapHas (filter (fun r => existsb (String.eqb (rowId r))
                                                                (map videoId clips))
                                                  (videos env))
                                          (videoId c))) l
              = find (unresolved env) l).
  { induction l as [|c l IH]; intros Hl; [reflexivity|].
    cbn [find]. unfold unresolved at 1.
    rewrite mapHas_selected by (apply in_map, Hl; now left).
    rewrite IH by (intros x Hx; apply Hl; now right). reflexivity. }
  apply H, incl_refl.
Qed.

End ExitPaths.

Section Resolution.
Context {RT : JS.Runtime}.
Variable env : Env.
Variable tmpRoot : string.

Ltac ends_early :=
  repeat split; intros; try discriminate; try reflexivity; try congruence;
  try (match goal with H : Return _ = Return _ |- _ => injection H as <- end; eauto).

(** With a clip that has no row, the [try] block ends before the download
    loop: at one of the checks, at the lookup, or at the clip. *)
Lemma tryBlock_unresolved (req : Request) (inputDir outDir : string)
      (clips : list clip) (c0 : clip) (st : State) :
  normTimeline (bodyField req "timeline") = JS.Normal clips ->
  find (unresolved env) clips = Some c0 ->
  exists sig st1 t,
    tryBlock env req tmpRoot inputDir outDir st = (sig, st1)
    /\ trace st1 = (trace st ++ t)%list
    /\ existsb isDownload t = false
    /\ (forall a, sig <> Continue a)
    /\ (forall r, sig = Return r -> exists status msg, r = Failure status msg)
    /\ (forall titleText bucket,
          JS.ToString (JS.orElse (bodyField req "title") (JS.VStr "")) = JS.Normal titleText ->
          JS.truthyString (JS.trim titleText) = true ->
          S3_UPLOADS_BUCKET env = Some bucket ->
          JS.truthyString bucket = true ->
          selectRejects env = None ->
          sig = Return (Failure 400 ("Unknown clip videoId " ++ videoId c0))
          /\ t = [EvQuery (map videoId clips); EvCleanup tmpRoot]).
Proof.
  intros Hnorm Hfind. unfold tryBlock. cbv zeta.
  rewrite Hnorm, run_await_Normal.
  destruct (JS.ToString (JS.orElse (bodyField req "title") (JS.VStr ""))) as [titleText|e]
    eqn:Htitle.
  2:{ rewrite run_await_Throw. exists (Raise e), st, []. rewrite app_nil_r. ends_early. }
  rewrite run_await_Normal.
  destruct (JS.truthyString (JS.trim titleText)) eqn:Hblank; cbn [negb].
  2:{ rewrite run_cleanup_respond. eexists _, _, [EvCleanup tmpRoot].
      split; [reflexivity|]. ends_early. }
  destruct clips as [|c1 rest] eqn:Hclips; [discriminate|]. rewrite <- Hclips in *.
  replace (List.length clips =? 0)%nat with false by (now rewrite Hclips).
  destruct (S3_UPLOADS_BUCKET env) as [bucket|] eqn:Hbucket.
  2:{ rewrite run_cleanup_respond. eexists _, _, [EvCleanup tmpRoot].
      split; [reflexivity|]. ends_early. }
  destruct (JS.truthyString bucket) eqn:Hb; cbn [negb].
  2:{ rewrite run_cleanup_respond. eexists _, _, [EvCleanup tmpRoot].
      split; [reflexivity|]. ends_early. }
  rewrite run_emit. unfold selectVideos.
  destruct (selectRejects env) as [e|] eqn:Hsel.
  { rewrite run_await_Throw. eexists _, _, [EvQuery (map videoId clips)].
    split; [reflexivity|]. ends_early. }
  rewrite run_await_Normal.
  erewrite run_return.
  2:{ apply checkResolved_stops. rewrite find_unresolved. exact Hfind. }
  eexists _, _, [EvQuery (map videoId clips); EvCleanup tmpRoot].
  split; [reflexivity|]. cbn [trace]. rewrite <- app_assoc. ends_early.
Qed.

End Resolution.

(* ================================================================== *)
(** ** The guarantees of the handler *)
(* ================================================================== *)

Section Guarantees.
Context {RT : JS.Runtime}.

(** C4. Once the scratch tree has been created, the handler always ends
    with a response, never with an uncaught exception; on the way it has
    called [cleanup]; when [rmSync] does not throw, no path of the scratch
    directory exists afterwards, whatever the exit: success, a validation
    failure, the missing bucket, or an exception of any collaborator; and
    whenever [rmSync] throws, the exception is dropped and the response is
    the one of the run in which it does not throw. *)
Theorem scratch_removed_on_every_exit
        (env : Env) (req : Request) (st st' : State) (tmpRoot : string) (o : Outcome) :
  scratchCreated env tmpRoot ->
  handler env req st = (o, st') ->
  (exists r, o = Responded r)
  /\ (exists t, trace st' = (trace st ++ t)%list /\ In (EvCleanup tmpRoot) t)
  /\ ((forall tr, rmSyncThrows env tr = false) -> scratchExists tmpRoot st' = false)
  /\ (forall b, fst (handler (withRmSyncThrows b env) req st) = o).
Proof.
  intros Hc H. destruct (handler_cleaned env tmpRoot req st st' o Hc H) as [Hr [Ht Hgone]].
  repeat split; try assumption.
  intros b. rewrite handler_response_ignores_rmSync. now rewrite H.
Qed.

(** C5. When the normalized timeline has a clip whose source id has no
    row in the store, the handler answers with an error, has started no
    download for any clip, and has called [cleanup], so that the scratch
    directory is gone unless [rmSync] throws. When moreover the request
    gets as far as the lookup (a title that is not blank, a bucket, an
    answer from the store), the error has status 400 and names the first
    such clip of the timeline, and the lookup and the cleanup are the only
    calls made. *)
Theorem unresolved_source_stops_the_job
        (env : Env) (req : Request) (st : State) (tmpRoot : string)
        (clips : list clip) (c0 : clip) :
  scratchCreated env tmpRoot ->
  normTimeline (bodyField req "timeline") = JS.Normal clips ->
  find (unresolved env) clips = Some c0 ->
  exists status msg st' t,
    handler env req st = (Responded (Failure status msg), st')
    /\ trace st' = (trace st ++ t)%list
    /\ existsb isDownload t = false
    /\ In (EvCleanup tmpRoot) t
    /\ ((forall tr, rmSyncThrows env tr = false) -> scratchExists tmpRoot st' = false)
    /\ (forall titleText bucket,
          JS.ToString (JS.orElse (bodyField req "title") (JS.VStr "")) = JS.Normal titleText ->
          JS.truthyString (JS.trim titleText) = true ->
          S3_UPLOADS_BUCKET env = Some bucket ->
          JS.truthyString bucket = true ->
          selectRejects env = None ->
          status = 400 /\ msg = "Unknown clip videoId " ++ videoId c0
          /\ t = [EvQuery (map videoId clips); EvCleanup tmpRoot]).
Proof.
  intros Hc Hnorm Hfind.
  destruct (tryBlock_unresolved env tmpRoot req (pathJoin tmpRoot "inputs")
              (pathJoin tmpRoot "out") clips c0 (atTry tmpRoot st) Hnorm Hfind)
    as (sig & st1 & t & Hrun & Htrace & Hnodl & Hnc & Hret & Hfar).
  destruct sig as [a|r|e].
  - now destruct (Hnc a).
  - destruct (Hret r eq_refl) as (status & msg & ->).
    pose proof (handler_of_return env tmpRoot req st st1 _ Hc Hrun) as Hh.
    destruct (handler_cleaned env tmpRoot req st st1 _ Hc Hh) as [_ [[t' [Ht' Hin]] Hgone]].
    exists status, msg, st1, t. split; [exact Hh|]. split; [exact Htrace|].
    split; [exact Hnodl|]. split.
    { cbn [atTry trace] in Htrace. rewrite Htrace in Ht'.
      apply app_inv_head in Ht'. now subst t'. }
    split; [exact Hgone|].
    intros titleText bucket H1 H2 H3 H4 H5.
    destruct (Hfar titleText bucket H1 H2 H3 H4 H5) as [[= -> ->] ->]. auto.
  - pose proof (handler_of_raise env tmpRoot req st st1 e Hc Hrun) as Hh.
    destruct (handler_cleaned env tmpRoot req st _ _ Hc Hh) as [_ [_ Hgone]].
    eexists _, _, _, (t ++ [EvConsoleError e; EvCleanup tmpRoot])%list.
    split; [exact Hh|]. cbn [trace]. split.
    { rewrite Htrace. cbn [atTry trace]. now rewrite app_assoc. }
    split; [rewrite existsb_app, Hnodl; reflexivity|]. split.
    { apply in_app_iff. right. right. now left. }
    split; [exact Hgone|].
    intros titleText bucket H1 H2 H3 H4 H5.
    destruct (Hfar titleText bucket H1 H2 H3 H4 H5) as [Hsig _]. discriminate.
Qed.

(** What the [catch] block does with an exception thrown in the [try]
    block: it writes the exception to the server log, and it sends status
    500 with the message of that exception as the error text; the fixed text
    [Failed to publish generated video] is sent only when the message is
    empty. *)
Theorem failure_carries_the_error_message
        (env : Env) (req : Request) (st st1 : State) (tmpRoot : string) (e : JS.Error) :
  scratchCreated env tmpRoot ->
  tryBlock env req tmpRoot (pathJoin tmpRoot "inputs") (pathJoin tmpRoot "out")
           (atTry tmpRoot st) = (Raise e, st1) ->
  exists st',
    handler env req st
    = (Responded (Failure 500 (if JS.truthyString (JS.message e)
                               then JS.message e else genericMessage)), st')
    /\ trace st' = (trace st1 ++ [EvConsoleError e; EvCleanup tmpRoot])%list.
Proof.
  intros Hc Hrun. eexists. split.
  - exact (handler_of_raise env tmpRoot req st st1 e Hc Hrun).
  - reflexivity.
Qed.

End Guarantees.

Lemma scratch_removed_on_every_exit_witness :
  scratchCreated brokenEncoderEnv scratchRoot
  /\ (exists r, fst (@handler Plain.runtime brokenEncoderEnv publishReq idle) = Responded r)
  /\ scratchExists scratchRoot (snd (@handler Plain.runtime brokenEncoderEnv publishReq idle))
     = false.
Proof.
  assert (Hc : scratchCreated brokenEncoderEnv scratchRoot) by (repeat split).
  split; [exact Hc|].
  destruct (@scratch_removed_on_every_exit Plain.runtime brokenEncoderEnv publishReq idle
              (snd (@handler Plain.runtime brokenEncoderEnv publishReq idle)) scratchRoot
              (fst (@handler Plain.runtime brokenEncoderEnv publishReq idle))
              Hc (surjective_pairing _))
    as (Hr & _ & Hgone & _).
  split; [exact Hr | exact (Hgone (fun _ => eq_refl))].
Defined.

Lemma unresolved_source_stops_the_job_witness :
  scratchCreated studioEnv scratchRoot
  /\ @normTimeline Plain.runtime (bodyField strayReq "timeline") = JS.Normal strayClips
  /\ find (unresolved studioEnv) strayClips = Some (mkClip "9" (JS.Fin 5) (JS.Fin 0) (JS.Fin 3))
  /\ exists st',
       @handler Plain.runtime studioEnv strayReq idle
       = (Responded (Failure 400 "Unknown clip videoId 9"), st')
       /\ trace st' = [EvQuery ["7"; "9"; "10"]; EvCleanup scratchRoot].
Proof.
  assert (Hc : scratchCreated studioEnv scratchRoot) by (repeat split).
  split; [exact Hc|]. split; [reflexivity|]. split; [reflexivity|].
  destruct (@unresolved_source_stops_the_job Plain.runtime studioEnv strayReq idle scratchRoot
              strayClips (mkClip "9" (JS.Fin 5) (JS.Fin 0) (JS.Fin 3))
              Hc eq_refl eq_refl)
    as (status & msg & st' & t & Hh & Ht & _ & _ & _ & Hfar).
  destruct (Hfar "Trip" "media" eq_refl eq_refl eq_refl eq_refl eq_refl) as (-> & -> & ->).
  exists st'. split; [exact Hh | exact Ht].
Defined.

Lemma failure_carries_the_error_message_witness :
  scratchCreated brokenEncoderEnv scratchRoot
  /\ fst (@tryBlock Plain.runtime brokenEncoderEnv publishReq scratchRoot
            (pathJoin scratchRoot "inputs") (pathJoin scratchRoot "out")
            (atTry scratchRoot idle))
     = Raise (JS.newError encoderComplaint)
  /\ fst (@handler Plain.runtime brokenEncoderEnv publishReq idle)
     = Responded (Failure 500 encoderComplaint).
Proof.
  assert (Hc : scratchCreated brokenEncoderEnv scratchRoot) by (repeat split).
  split; [exact Hc|]. split; [reflexivity|].
  destruct (@failure_carries_the_error_message Plain.runtime brokenEncoderEnv publishReq idle
              (snd (@tryBlock Plain.runtime brokenEncoderEnv publishReq scratchRoot
                      (pathJoin scratchRoot "inputs") (pathJoin scratchRoot "out")
                      (atTry scratchRoot idle)))
              scratchRoot (JS.newError encoderComplaint) Hc eq_refl)
    as (st' & Hh & _).
  now rewrite Hh.
Defined.

(** C8. The claim asks for a fixed error text that shows nothing of the
    server, the detail going to the server log only; the handler does not
    keep to it when an exception is caught. With both sources stored and an
    encoder that exits with code 1 after naming its input file on its error
    stream, the exception is written to the server log, and the same text is
    sent to the caller with status 500: it is not the fixed text [Failed to
    publish generated video], and it holds a path inside the scratch
    directory. A request that fails one of the checks instead, here a blank
    title, is answered with a fixed text and nothing is logged. *)
Theorem error_text_reaches_the_caller :
  fst (@handler Plain.runtime brokenEncoderEnv publishReq idle)
  = Responded (Failure 500 encoderComplaint)
  /\ encoderComplaint <> genericMessage
  /\ String.prefix scratchRoot encoderComplaint = true
  /\ In (EvConsoleError (JS.newError encoderComplaint))
        (trace (snd (@handler Plain.runtime brokenEncoderEnv publishReq idle)))
  /\ fst (@handler Plain.runtime brokenEncoderEnv (request "  " []) idle)
     = Responded (Failure 400 "Title is required")
  /\ trace (snd (@handler Plain.runtime brokenEncoderEnv (request "  " []) idle))
     = [EvCleanup scratchRoot].
Proof.
  split; [reflexivity|]. split; [discriminate|]. split; [reflexivity|].
  split; [|split; reflexivity].
  vm_compute. repeat (first [left; reflexivity | right]).
Qed.

(* ================================================================== *)
(** ** The exits of the handler, one run each *)
(* ================================================================== *)

Section Runs.

Local Abbreviation run env req := (@handler Plain.runtime env req idle).
Local Abbreviation gone st := (scratchExists scratchRoot st = false).
Local Abbreviation failing name text := (JS.Throw (JS.mkError name text)).

Example exit_success :
  fst (run studioEnv publishReq) = Responded (Published (JS.VNum (JS.Fin 42)) (JS.VStr "Timeline"))
  /\ gone (snd (run studioEnv publishReq)).
Proof. split; reflexivity. Qed.

Example exit_blank_title :
  fst (run studioEnv (request "  " [clipRequest (JS.VStr "7") 0 2 5]))
  = Responded (Failure 400 "Title is required")
  /\ gone (snd (run studioEnv (request "  " [clipRequest (JS.VStr "7") 0 2 5]))).
Proof. split; reflexivity. Qed.

Example exit_empty_timeline :
  fst (run studioEnv (request "Trip" [clipRequest (JS.VStr "7") 0 5 5]))
  = Responded (Failure 400 "Timeline is empty")
  /\ gone (snd (run studioEnv (request "Trip" [clipRequest (JS.VStr "7") 0 5 5]))).
Proof. split; reflexivity. Qed.

Example exit_missing_bucket :
  let env := studio None storedRows (JS.Normal true) (Closed (Some 0%Z) "" "")
                    (JS.Normal tt) (JS.Normal [JS.VNum (JS.Fin 42)]) in
  fst (run env publishReq) = Responded (Failure 500 "Missing env S3_UPLOADS_BUCKET")
  /\ gone (snd (run env publishReq)).
Proof. split; reflexivity. Qed.

Example exit_unknown_clip :
  fst (run studioEnv strayReq) = Responded (Failure 400 "Unknown clip videoId 9")
  /\ gone (snd (run studioEnv strayReq)).
Proof. split; reflexivity. Qed.

Example exit_missing_filename :
  let env := studio (Some "media") [mkRow "7" (Some "uploads/1/a.mp4"); mkRow "8" None]
                    (JS.Normal true) (Closed (Some 0%Z) "" "")
                    (JS.Normal tt) (JS.Normal [JS.VNum (JS.Fin 42)]) in
  fst (run env publishReq) = Responded (Failure 400 "Missing filename for 8")
  /\ gone (snd (run env publishReq)).
Proof. split; reflexivity. Qed.

Example exit_download_throws :
  let env := studio (Some "media") storedRows
                    (failing "NoSuchKey" "The specified key does not exist.")
                    (Closed (Some 0%Z) "" "") (JS.Normal tt) (JS.Normal [JS.VNum (JS.Fin 42)]) in
  fst (run env publishReq) = Responded (Failure 500 "The specified key does not exist.")
  /\ gone (snd (run env publishReq)).
Proof. split; reflexivity. Qed.

Example exit_download_without_body :
  let env := studio (Some "media") storedRows (JS.Normal false)
                    (Closed (Some 0%Z) "" "") (JS.Normal tt) (JS.Normal [JS.VNum (JS.Fin 42)]) in
  fst (run env publishReq) = Responded (Failure 500 "S3 download failed for uploads/1/a.mp4")
  /\ gone (snd (run env publishReq)).
Proof. split; reflexivity. Qed.

Example exit_encoder_missing :
  let env := studio (Some "media") storedRows (JS.Normal true)
                    (SpawnError (JS.mkError "Error" "spawn ffmpeg ENOENT"))
                    (JS.Normal tt) (JS.Normal [JS.VNum (JS.Fin 42)]) in
  fst (run env publishReq) = Responded (Failure 500 "spawn ffmpeg ENOENT")
  /\ gone (snd (run env publishReq)).
Proof. split; reflexivity. Qed.

Example exit_encoder_silent_failure :
  let env := studio (Some "media") storedRows (JS.Normal true) (Closed (Some 1%Z) "" "")
                    (JS.Normal tt) (JS.Normal [JS.VNum (JS.Fin 42)]) in
  fst (run env publishReq) = Responded (Failure 500 "ffmpeg exited with code 1")
  /\ gone (snd (run env publishReq)).
Proof. split; reflexivity. Qed.

Example exit_upload_throws :
  let env := studio (Some "media") storedRows (JS.Normal true) (Closed (Some 0%Z) "" "")
                    (failing "AccessDenied" "Access Denied") (JS.Normal [JS.VNum (JS.Fin 42)]) in
  fst (run env publishReq) = Responded (Failure 500 "Access Denied")
  /\ gone (snd (run env publishReq)).
Proof. split; reflexivity. Qed.

Example exit_insert_throws :
  let env := studio (Some "media") storedRows (JS.Normal true) (Closed (Some 0%Z) "" "")
                    (JS.Normal tt) (failing "error" "") in
  fst (run env publishReq) = Responded (Failure 500 "Failed to publish generated video")
  /\ gone (snd (run env publishReq)).
Proof. split; reflexivity. Qed.

Example exit_null_clip :
  fst (run studioEnv (request "Trip" [JS.VNull]))
  = Responded (Failure 500 "Cannot read properties of null (reading 'videoId')")
  /\ gone (snd (run studioEnv (request "Trip" [JS.VNull]))).
Proof. split; reflexivity. Qed.

(** A cleanup that fails is not seen by the caller; the directory stays. *)
Example exit_cleanup_throws :
  let env := withRmSyncThrows (fun _ => true) brokenEncoderEnv in
  fst (run env publishReq) = Responded (Failure 500 encoderComplaint)
  /\ scratchExists scratchRoot (snd (run env publishReq)) = true.
Proof. split; reflexivity. Qed.

End Runs.

(* ================================================================== *)
(** ** The process runner *)
(* ================================================================== *)

Section RunnerFacts.
Context {RT : JS.Runtime}.
Variable spawn : string -> list string -> ProcResult.

Lemma orString_not_empty (s d : string) : d <> "" -> JS.orString s d <> "".
Proof. intros Hd. unfold JS.orString. destruct s; [exact Hd | discriminate]. Qed.

Lemma append_not_empty_r (a b : string) : b <> "" -> a ++ b <> "".
Proof.
  intros Hb. destruct a; [exact Hb | discriminate].
Qed.

(** X1. [runCmd] resolves exactly when the process closes with exit code 0,
    and then with the two texts collected. When the binary cannot be
    launched it rejects with the error of the launch. When the process
    closes with another code, or with none, it rejects with a new [Error]
    whose message is the error text collected, or, when that is empty, the
    command followed by [exited with code] and the code; so the message of
    such a rejection is never empty. *)
Theorem runCmd_resolves_on_zero_only (cmd : string) (args : list string) :
  (forall o e, runCmd spawn cmd args = JS.Normal (o, e)
               <-> spawn cmd args = Closed (Some 0%Z) o e)
  /\ (forall err, runCmd spawn cmd args = JS.Throw err ->
        spawn cmd args = SpawnError err
        \/ exists code o e,
             spawn cmd args = Closed code o e /\ code <> Some 0%Z
             /\ JS.name err = "Error" /\ JS.message err <> ""
             /\ JS.message err
                = (if JS.truthyString e then e
                   else cmd ++ " exited with code " ++ codeToString code)).
Proof.
  unfold runCmd. destruct (spawn cmd args) as [e0|code o0 e0].
  - split.
    + intros o e. split; discriminate.
    + intros err [= <-]. now left.
  - assert (Hmsg : JS.orString e0 (cmd ++ " exited with code " ++ codeToString code) <> "").
    { apply orString_not_empty, append_not_empty_r. discriminate. }
    assert (Hthrow : forall err,
               @JS.Throw (string * string)
                         (JS.newError
                            (JS.orString e0 (cmd ++ " exited with code " ++ codeToString code)))
               = JS.Throw err ->
               code <> Some 0%Z ->
               Closed code o0 e0 = SpawnError err
               \/ exists code' o e,
                    Closed code o0 e0 = Closed code' o e /\ code' <> Some 0%Z
                    /\ JS.name err = "Error" /\ JS.message err <> ""
                    /\ JS.message err
                       = (if JS.truthyString e then e
                          else cmd ++ " exited with code " ++ codeToString code')).
    { intros err [= <-] Hc. right. exists code, o0, e0. repeat split; assumption. }
    destruct code as [[|p|p]|]; split;
      try (intros o e; split; [discriminate | intros [= E]; discriminate E]);
      try (intros err H; apply Hthrow; [exact H | discriminate]).
    + intros o e. split; intros [= <- <-]; reflexivity.
    + discriminate.
Qed.

End RunnerFacts.

(* ================================================================== *)
(** ** [clamp] *)
(* ================================================================== *)

Section ClampFacts.

Lemma lt_trans (a b c : JS.number) :
  JS.lt a b = true -> JS.lt b c = true -> JS.lt a c = true.
Proof.
  destruct a as [| | |x], b as [| | |y], c as [| | |z];
    try discriminate; try reflexivity.
  rewrite !lt_Fin. apply Qlt_trans.
Qed.

Lemma le_refl (a : JS.number) : JS.isNaN a = false -> JS.le a a = true.
Proof.
  destruct a as [| | |x]; try discriminate; try reflexivity.
  intros _. apply le_Fin, Qle_refl.
Qed.

Lemma le_total (a b : JS.number) :
  JS.isNaN a = false -> JS.isNaN b = false -> JS.lt b a = false -> JS.le a b = true.
Proof. intros Ha Hb H. unfold JS.le. now rewrite Ha, Hb, H. Qed.

Lemma le_not_NaN (a b : JS.number) :
  JS.le a b = true -> JS.isNaN a = false /\ JS.isNaN b = false.
Proof.
  unfold JS.le. intros H. apply andb_true_iff in H as [H _].
  apply andb_true_iff in H as [Ha Hb]. now rewrite negb_true_iff in Ha, Hb.
Qed.

Lemma Math_min_cases (a b : JS.number) :
  JS.isNaN a = false -> JS.isNaN b = false ->
  Math_min a b = if JS.lt b a then b else a.
Proof. intros Ha Hb. unfold Math_min. now rewrite Ha, Hb. Qed.

Lemma Math_max_cases (a b : JS.number) :
  JS.isNaN a = false -> JS.isNaN b = false ->
  JS.Math_max a b = if JS.lt a b then b else a.
Proof. intros Ha Hb. unfold JS.Math_max. now rewrite Ha, Hb. Qed.

Lemma clamp_cases (n mn mx : JS.number) :
  JS.isNaN n = false -> JS.isNaN mn = false -> JS.isNaN mx = false ->
  clamp n mn mx
  = if JS.lt n mx then (if JS.lt mn n then n else mn)
    else (if JS.lt mn mx then mx else mn).
Proof.
  intros Hn Hmn Hmx. unfold clamp. rewrite (Math_min_cases mx n Hmx Hn).
  destruct (JS.lt n mx); now rewrite Math_max_cases.
Qed.

Lemma lt_le_trans (a b c : JS.number) :
  JS.lt a b = true -> JS.le b c = true -> JS.lt a c = true.
Proof.
  destruct a as [| | |x], b as [| | |y], c as [| | |z];
    try discriminate; try reflexivity.
  rewrite !lt_Fin, le_Fin. apply Qlt_le_trans.
Qed.

Lemma lt_irrefl (a : JS.number) : JS.lt a a = false.
Proof.
  destruct (JS.lt a a) eqn:E; [|reflexivity]. now rewrite (lt_asym _ _ E) in E.
Qed.

(** X2. With bounds in order, [min <= max], and a number that is not NaN,
    [clamp] returns a number between the bounds: the number itself when it
    lies strictly between them, [min] when it is not above [min], [max] when
    it is not below [max]; clamping the result again changes nothing. *)
Theorem clamp_within_bounds (n mn mx : JS.number) :
  JS.isNaN n = false ->
  JS.le mn mx = true ->
  JS.le mn (clamp n mn mx) = true
  /\ JS.le (clamp n mn mx) mx = true
  /\ (JS.lt mn n = true -> JS.lt n mx = true -> clamp n mn mx = n)
  /\ (JS.le n mn = true -> clamp n mn mx = mn)
  /\ (JS.le mx n = true -> JS.lt mn mx = true -> clamp n mn mx = mx)
  /\ clamp (clamp n mn mx) mn mx = clamp n mn mx.
Proof.
  intros Hn Hle. destruct (le_not_NaN _ _ Hle) as [Hmn Hmx].
  rewrite (clamp_cases n mn mx Hn Hmn Hmx).
  destruct (JS.lt n mx) eqn:E1; [destruct (JS.lt mn n) eqn:E2 | destruct (JS.lt mn mx) eqn:E3].
  - split; [now apply lt_le|]. split; [now apply lt_le|]. split; [reflexivity|].
    split; [intros H; apply le_lt_false in H; congruence|].
    split; [intros H; apply le_lt_false in H; congruence|].
    now rewrite (clamp_cases n mn mx Hn Hmn Hmx), E1, E2.
  - split; [now apply le_refl|]. split; [exact Hle|]. split; [intros; congruence|].
    split; [reflexivity|].
    split; [intros H; apply le_lt_false in H; congruence|].
    rewrite (clamp_cases mn mn mx Hmn Hmn Hmx), lt_irrefl.
    now destruct (JS.lt mn mx).
  - split; [now apply lt_le|]. split; [now apply le_refl|]. split; [intros; congruence|].
    split.
    { intros H. exfalso.
      assert (Hmxn : JS.le mx n = true) by (apply le_total; assumption).
      pose proof (lt_le_trans _ _ _ E3 Hmxn) as Hlt.
      apply le_lt_false in H. congruence. }
    split; [reflexivity|].
    now rewrite (clamp_cases mx mn mx Hmx Hmn Hmx), lt_irrefl, E3.
  - split; [now apply le_refl|]. split; [exact Hle|]. split; [intros; congruence|].
    split; [reflexivity|]. split; [intros; congruence|].
    now rewrite (clamp_cases mn mn mx Hmn Hmn Hmx), lt_irrefl, E3.
Qed.

(** X3. With the bounds the wrong way round, [max < min], [clamp] returns
    [min] for every number that is not NaN. And whatever the bounds, in
    order or not, NaN or not, NaN as the number gives NaN; so does a bound
    that is NaN, whatever the number. *)
Theorem clamp_inverted_bounds (n mn mx : JS.number) :
  (JS.lt mx mn = true -> JS.isNaN n = false -> clamp n mn mx = mn)
  /\ clamp JS.NaN mn mx = JS.NaN
  /\ clamp n JS.NaN mx = JS.NaN
  /\ clamp n mn JS.NaN = JS.NaN.
Proof.
  split; [|split; [|split]].
  - intros Hinv Hn.
    assert (Hmx : JS.isNaN mx = false) by (destruct mx; try reflexivity; discriminate).
    assert (Hmn : JS.isNaN mn = false)
      by (destruct mn; try reflexivity; destruct mx; discriminate).
    rewrite (clamp_cases n mn mx Hn Hmn Hmx).
    rewrite (lt_asym _ _ Hinv).
    destruct (JS.lt n mx) eqn:E; [|reflexivity].
    now rewrite (lt_asym _ _ (lt_trans _ _ _ E Hinv)).
  - unfold clamp, Math_min, JS.Math_max. cbn [JS.isNaN]. rewrite orb_true_r.
    cbn [JS.isNaN]. now rewrite orb_true_r.
  - unfold clamp, JS.Math_max. reflexivity.
  - unfold clamp, Math_min, JS.Math_max. cbn [JS.isNaN orb]. now rewrite orb_true_r.
Qed.

End ClampFacts.

Lemma clamp_within_bounds_witness :
  JS.isNaN (num 7) = false
  /\ JS.le (num 1) (num 5) = true
  /\ clamp (num 7) (num 1) (num 5) = num 5
  /\ clamp (num 3) (num 1) (num 5) = num 3.
Proof.
  split; [reflexivity|]. split; [reflexivity|].
  destruct (clamp_within_bounds (num 7) (num 1) (num 5) eq_refl eq_refl)
    as (_ & _ & _ & _ & Hhigh & _).
  destruct (clamp_within_bounds (num 3) (num 1) (num 5) eq_refl eq_refl)
    as (_ & _ & Hin & _).
  split; [exact (Hhigh eq_refl eq_refl) | exact (Hin eq_refl eq_refl)].
Defined.

Lemma clamp_inverted_bounds_witness :
  JS.lt (num 1) (num 5) = true /\ clamp (num 3) (num 5) (num 1) = num 5.
Proof.
  split; [reflexivity|].
  exact (proj1 (clamp_inverted_bounds (num 3) (num 5) (num 1)) eq_refl eq_refl).
Defined.

(* ================================================================== *)
(** ** More on the timeline normalizer *)
(* ================================================================== *)

Section NormalizerMore.
Context {RT : JS.Runtime}.

Lemma normTimeline_run (l : list JS.value) (cs : list clip) :
  JS.mapM coerceClip l = JS.Normal cs ->
  normTimeline (JS.VArr l) = JS.Normal (sort byStart (filter survives cs)).
Proof.
  intros H. destruct (normTimeline (JS.VArr l)) as [t|e] eqn:E.
  - destruct (normTimeline_inv _ _ E) as (cs' & Hcs' & ->).
    cbn [elements] in Hcs'. rewrite H in Hcs'. now injection Hcs' as <-.
  - unfold normTimeline in E. rewrite H in E. discriminate.
Qed.

Lemma mapM_cons_inv {A B} (f : A -> JS.completion B) (x : A) (l : list A) (ys : list B) :
  JS.mapM f (x :: l) = JS.Normal ys ->
  exists y ys', f x = JS.Normal y /\ JS.mapM f l = JS.Normal ys' /\ ys = y :: ys'.
Proof.
  cbn [JS.mapM]. destruct (f x) as [y|e]; cbn [JS.bind]; [|discriminate].
  destruct (JS.mapM f l) as [ys'|e]; cbn [JS.bind]; [|discriminate].
  intros [= <-]. eauto.
Qed.

Lemma mapM_cons {A B} (f : A -> JS.completion B) (x : A) (l : list A) (y : B) (ys : list B) :
  f x = JS.Normal y -> JS.mapM f l = JS.Normal ys ->
  JS.mapM f (x :: l) = JS.Normal (y :: ys).
Proof. intros Hx Hl. cbn [JS.mapM]. now rewrite Hx, Hl. Qed.

Lemma mapM_perm {A B} (f : A -> JS.completion B) (l l' : list A) :
  Permutation l l' ->
  forall ys, JS.mapM f l = JS.Normal ys ->
             exists ys', JS.mapM f l' = JS.Normal ys' /\ Permutation ys ys'.
Proof.
  induction 1 as [|x l l' Hp IH|x y l|l l' l'' H1 IH1 H2 IH2]; intros ys Hys.
  - exists ys. split; [exact Hys | reflexivity].
  - destruct (mapM_cons_inv _ _ _ _ Hys) as (z & zs & Hz & Hzs & ->).
    destruct (IH zs Hzs) as (zs' & Hzs' & Hperm).
    exists (z :: zs'). split; [now apply mapM_cons | now constructor].
  - destruct (mapM_cons_inv _ _ _ _ Hys) as (z1 & zs1 & Hz1 & Hzs1 & ->).
    destruct (mapM_cons_inv _ _ _ _ Hzs1) as (z2 & zs2 & Hz2 & Hzs2 & ->).
    exists (z2 :: z1 :: zs2). split; [|apply perm_swap].
    apply mapM_cons; [assumption|]. now apply mapM_cons.
  - destruct (IH1 ys Hys) as (ys' & Hys' & Hp1).
    destruct (IH2 ys' Hys') as (ys'' & Hys'' & Hp2).
    exists ys''. split; [assumption|]. now apply perm_trans with ys'.
Qed.

Lemma filter_perm {A} (p : A -> bool) (l l' : list A) :
  Permutation l l' -> Permutation (filter p l) (filter p l').
Proof.
  induction 1 as [|x l l' Hp IH|x y l|l l' l'' H1 IH1 H2 IH2]; cbn [filter].
  - constructor.
  - destruct (p x); [now constructor | assumption].
  - destruct (p x), (p y); try reflexivity. apply perm_swap.
  - now apply perm_trans with (filter p l').
Qed.

(** Two sorted lists with the same clips are the same list when no two of
    the clips start together. *)
Lemma sorted_perm_unique (l : list clip) :
  forall l',
    StronglySorted startLe l -> StronglySorted startLe l' -> Permutation l l' ->
    (forall x y, In x l -> In y l -> startLe x y -> startLe y x -> x = y) ->
    l = l'.
Proof.
  induction l as [|x l IH]; intros l' Hs Hs' Hp Hanti.
  - now apply Permutation_nil in Hp.
  - destruct l' as [|y l'].
    { apply Permutation_sym, Permutation_nil in Hp. discriminate. }
    inversion Hs as [|? ? Hsl Hx]; subst. inversion Hs' as [|? ? Hsl' Hy]; subst.
    rewrite Forall_forall in Hx, Hy.
    assert (Exy : x = y).
    { assert (Hxin : In x (y :: l')) by (apply (Permutation_in _ Hp); now left).
      assert (Hyin : In y (x :: l)) by (apply (Permutation_in _ (Permutation_sym Hp)); now left).
      destruct Hxin as [->|Hxin]; [reflexivity|].
      destruct Hyin as [->|Hyin]; [reflexivity|].
      apply Hanti; [now left | now right | now apply Hx | now apply Hy]. }
    subst y. f_equal. apply Permutation_cons_inv in Hp.
    apply IH; try assumption.
    intros a b Ha Hb. apply Hanti; now right.
Qed.

(** X4. The source id of an element is read from [videoId] whenever that
    property is neither [undefined] nor [null], whatever [id] holds; [id] is
    read only otherwise, and the empty text stands in when both are missing.
    So an element whose [videoId] is the empty text contributes nothing to
    the timeline even when it has an [id]. *)
Theorem videoId_hides_id (fields : list (string * JS.value)) :
  (forall cl, coerceClip (JS.VObj fields) = JS.Normal cl ->
     JS.ToString (if JS.nullish (JS.lookup "videoId" fields)
                  then JS.coalesce (JS.lookup "id" fields) (JS.VStr "")
                  else JS.lookup "videoId" fields)
     = JS.Normal (videoId cl))
  /\ (forall other,
        JS.nullish (JS.lookup "videoId" fields) = false ->
        coerceClip (JS.VObj (("id", other) :: fields)) = coerceClip (JS.VObj fields))
  /\ (forall l t,
        JS.lookup "videoId" fields = JS.VStr "" ->
        normTimeline (JS.VArr (JS.VObj fields :: l)) = JS.Normal t ->
        normTimeline (JS.VArr l) = JS.Normal t).
Proof.
  assert (Hvid : forall cl, coerceClip (JS.VObj fields) = JS.Normal cl ->
            JS.ToString (if JS.nullish (JS.lookup "videoId" fields)
                         then JS.coalesce (JS.lookup "id" fields) (JS.VStr "")
                         else JS.lookup "videoId" fields)
            = JS.Normal (videoId cl)).
  { intros cl. unfold coerceClip. cbn [JS.getProp JS.bind].
    destruct (JS.nullish (JS.lookup "videoId" fields)); cbn [JS.bind];
      (match goal with |- context [JS.ToString ?v] => destruct (JS.ToString v) as [s|e] end;
       cbn [JS.bind]; [|discriminate];
       repeat (match goal with
               | |- context [JS.ToNumber ?v] => destruct (JS.ToNumber v); cbn [JS.bind];
                                                [|discriminate]
               end);
       intros [= <-]; reflexivity). }
  split; [exact Hvid|]. split.
  - intros other Hn. unfold coerceClip. cbn [JS.getProp JS.bind JS.lookup].
    change (String.eqb "videoId" "id") with false.
    change (String.eqb "start" "id") with false.
    change (String.eqb "in" "id") with false.
    change (String.eqb "out" "id") with false.
    cbn iota. now rewrite Hn.
  - intros l t Hempty H.
    destruct (normTimeline_inv _ _ H) as (cs & Hcs & ->). cbn [elements] in Hcs.
    destruct (mapM_cons_inv _ _ _ _ Hcs) as (cl & cs' & Hcl & Hcs' & ->).
    rewrite (normTimeline_run l cs' Hcs'). do 2 f_equal.
    specialize (Hvid cl Hcl). rewrite Hempty in Hvid. cbn in Hvid.
    injection Hvid as Hvid.
    assert (Hdrop : survives cl = false)
      by (unfold survives, wellTyped; now rewrite <- Hvid).
    cbn [filter]. now rewrite Hdrop.
Qed.

(** X5. The order of the elements in the request does not matter when no
    two clips of the result start together: a request with the same elements
    in another order gives the same timeline. *)
Theorem normTimeline_order_independent (l l' : list JS.value) (t : list clip) :
  Permutation l l' ->
  normTimeline (JS.VArr l) = JS.Normal t ->
  (forall x y, In x t -> In y t -> startIs (start x) y = true -> x = y) ->
  normTimeline (JS.VArr l') = JS.Normal t.
Proof.
  intros Hp Hn Hdistinct.
  pose proof (normTimeline_sorted _ _ Hn) as Hsorted.
  destruct (normTimeline_inv _ _ Hn) as (cs & Hcs & Et). cbn [elements] in Hcs.
  destruct (mapM_perm coerceClip l l' Hp cs Hcs) as (cs' & Hcs' & Hperm).
  pose proof (normTimeline_run l' cs' Hcs') as Hn'.
  rewrite Hn'. f_equal. symmetry.
  apply sorted_perm_unique.
  - exact Hsorted.
  - exact (normTimeline_sorted _ _ Hn').
  - subst t. apply perm_trans with (filter survives cs); [apply sort_perm|].
    apply perm_trans with (filter survives cs'); [now apply filter_perm|].
    apply Permutation_sym, sort_perm.
  - intros x y Hx Hy Hxy Hyx. apply Hdistinct; try assumption.
    unfold startIs. unfold startLe in *. now rewrite Hxy, Hyx.
Qed.

(** X6. Every clip of a normalized timeline has a duration above zero:
    [out - in] is positive, and it is the duration the filter graph builder
    computes for the clip. *)
Theorem normalized_duration_positive (raw : JS.value) (t : list clip) :
  normTimeline raw = JS.Normal t ->
  Forall (fun c => JS.lt JS.zero (JS.sub (out c) (in_ c)) = true
                   /\ dur c = JS.sub (out c) (in_ c)
                   /\ JS.lt JS.zero (dur c) = true) t.
Proof.
  intros H. eapply Forall_impl; [|exact (normTimeline_Valid _ _ H)].
  intros c Hv. pose proof (dur_Valid c Hv) as Hd.
  destruct Hv as (_ & _ & Hi & Ho & Hle & _).
  assert (Hpos : JS.lt JS.zero (JS.sub (out c) (in_ c)) = true).
  { rewrite sub_positive. now apply (gt_le_Fin _ _ Ho Hi). }
  split; [exact Hpos|]. split; [exact Hd|]. now rewrite Hd.
Qed.

End NormalizerMore.

Lemma normTimeline_order_independent_witness :
  Permutation (elements scenarioRaw) scenarioRawSwapped
  /\ @normTimeline Plain.runtime scenarioRaw = JS.Normal scenarioClips
  /\ @normTimeline Plain.runtime (JS.VArr scenarioRawSwapped) = JS.Normal scenarioClips.
Proof.
  assert (Hp : Permutation (elements scenarioRaw) scenarioRawSwapped) by apply perm_swap.
  split; [exact Hp|]. split; [reflexivity|].
  apply (@normTimeline_order_independent Plain.runtime (elements scenarioRaw)
           scenarioRawSwapped scenarioClips Hp eq_refl).
  intros x y [<-|[<-|[]]] [<-|[<-|[]]] H; try reflexivity; discriminate H.
Defined.

Lemma normalized_duration_positive_witness :
  @normTimeline Plain.runtime scenarioRaw = JS.Normal scenarioClips
  /\ Forall (fun c => JS.lt JS.zero (JS.sub (out c) (in_ c)) = true
                      /\ dur c = JS.sub (out c) (in_ c)
                      /\ JS.lt JS.zero (dur c) = true) scenarioClips.
Proof.
  split; [reflexivity|].
  exact (@normalized_duration_positive Plain.runtime scenarioRaw scenarioClips eq_refl).
Defined.

(* ================================================================== *)
(** ** More on the filter graph builder and the prober *)
(* ================================================================== *)

Section GraphMore.
Context {RT : JS.Runtime}.

Lemma clipStages_same_trims (flags : list bool) (clips clips' : list clip) :
  Forall2 (fun c c' => in_ c = in_ c' /\ out c = out c') clips clips' ->
  forall i, clipStages flags i clips = clipStages flags i clips'.
Proof.
  induction 1 as [|c c' l l' [Hi Ho] _ IH]; intros i; cbn [clipStages]; [reflexivity|].
  rewrite IH. unfold videoStage, audioStage, audioTrimStage, silenceStage, dur.
  now rewrite Hi, Ho.
Qed.

(** X7. The graph is made from the trim points alone: two timelines whose
    clips have, place by place, the same [in] and [out] give the same graph,
    whatever their source ids and their [start] values. *)
Theorem graph_ignores_start_and_source (clips clips' : list clip) (audioFlags : list bool) :
  Forall2 (fun c c' => in_ c = in_ c' /\ out c = out c') clips clips' ->
  buildFilterForConcat clips audioFlags = buildFilterForConcat clips' audioFlags.
Proof.
  intros H. unfold buildFilterForConcat. rewrite !filterParts_spec.
  rewrite (clipStages_same_trims audioFlags clips clips' H 0).
  now rewrite (Forall2_length H).
Qed.

Lemma clipStages_same_flags (flags flags' : list bool) (clips : list clip) :
  forall k,
    (forall i, i < List.length clips -> nth (k + i) flags false = nth (k + i) flags' false) ->
    clipStages flags k clips = clipStages flags' k clips.
Proof.
  induction clips as [|c rest IH]; intros k H; cbn [clipStages]; [reflexivity|].
  rewrite (IH (S k)).
  - unfold audioStage, flagAt.
    specialize (H 0 (Nat.lt_0_succ _)). rewrite Nat.add_0_r in H. now rewrite H.
  - intros i Hi. specialize (H (S i)). cbn [List.length] in H.
    replace (S k + i) with (k + S i) by lia. apply H. lia.
Qed.

(** X8. Of the flags, the builder reads the one of each clip and no other:
    two flag arrays that agree at the places of the clips, a missing flag
    counting as false, give the same graph. Flags beyond the last clip are
    never looked at. *)
Theorem graph_reads_one_flag_per_clip (clips : list clip) (audioFlags audioFlags' : list bool) :
  (forall i, i < List.length clips -> nth i audioFlags false = nth i audioFlags' false) ->
  buildFilterForConcat clips audioFlags = buildFilterForConcat clips audioFlags'.
Proof.
  intros H. unfold buildFilterForConcat. rewrite !filterParts_spec.
  now rewrite (clipStages_same_flags audioFlags audioFlags' clips 0 H).
Qed.

Variable spawn : string -> list string -> ProcResult.

Lemma hasAudioStream_returns (filePath : string) :
  exists b, hasAudioStream spawn filePath = JS.Normal b.
Proof.
  unfold hasAudioStream. destruct (runCmd spawn "ffprobe" (ffprobeArgs filePath)) as [[o e]|e];
    eauto.
Qed.

(** X9. Probing the inputs never throws and gives one flag per path, the
    flag at each place being what [hasAudioStream] answers for the path at
    that place. *)
Theorem probeAll_one_flag_per_path (inputPaths : list string) :
  exists flags,
    probeAll spawn inputPaths = JS.Normal flags
    /\ List.length flags = List.length inputPaths
    /\ Forall2 (fun p b => hasAudioStream spawn p = JS.Normal b) inputPaths flags.
Proof.
  unfold probeAll. induction inputPaths as [|p l IH].
  - exists []. repeat split. constructor.
  - destruct IH as (flags & Hf & Hlen & Hall).
    destruct (hasAudioStream_returns p) as [b Hb].
    exists (b :: flags). cbn [JS.mapM]. rewrite Hb, Hf. cbn [JS.bind List.length].
    repeat split; [now rewrite Hlen | now constructor].
Qed.

End GraphMore.

Lemma graph_ignores_start_and_source_witness :
  Forall2 (fun c c' => in_ c = in_ c' /\ out c = out c') scenarioClips scenarioClipsMoved
  /\ @buildFilterForConcat Plain.runtime scenarioClips scenarioFlags
     = @buildFilterForConcat Plain.runtime scenarioClipsMoved scenarioFlags.
Proof.
  assert (H : Forall2 (fun c c' => in_ c = in_ c' /\ out c = out c')
                      scenarioClips scenarioClipsMoved)
    by (repeat constructor).
  split; [exact H|].
  exact (@graph_ignores_start_and_source Plain.runtime scenarioClips scenarioClipsMoved
           scenarioFlags H).
Defined.

Lemma graph_reads_one_flag_per_clip_witness :
  (forall i, i < List.length scenarioClips ->
             nth i [true] false = nth i [true; false; true; true] false)
  /\ @buildFilterForConcat Plain.runtime scenarioClips [true]
     = @buildFilterForConcat Plain.runtime scenarioClips [true; false; true; true].
Proof.
  assert (H : forall i, i < List.length scenarioClips ->
                        nth i [true] false = nth i [true; false; true; true] false).
  { intros [|[|i]] Hi; [reflexivity | reflexivity | cbn in Hi; lia]. }
  split; [exact H|].
  exact (@graph_reads_one_flag_per_clip Plain.runtime scenarioClips [true]
           [true; false; true; true] H).
Defined.

(* ================================================================== *)
(** ** Duration probe and thumbnail seconds *)
(* ================================================================== *)

Section ThumbnailFacts.
Context {RT : JS.Runtime}.
Variable spawn : string -> list string -> ProcResult.
Variable ffmpegWrites : list string -> list string -> list string.

Lemma le_false_lt (a b : JS.number) :
  JS.isFinite a = true -> JS.isFinite b = true -> JS.le a b = false -> JS.lt b a = true.
Proof.
  intros Ha Hb H. destruct (JS.lt b a) eqn:E; [reflexivity|].
  rewrite (le_total_Fin a b Ha Hb E) in H. discriminate.
Qed.

(** X10. [getVideoDurationSeconds] never throws. It answers with a number
    exactly when the probe closed with exit code 0 and its output, trimmed
    and read as a number, is finite and above zero, and that number is the
    answer; in every other case it answers [null]. *)
Theorem duration_is_positive_or_null (videoPath : string) :
  exists r,
    getVideoDurationSeconds spawn videoPath = JS.Normal r
    /\ (forall d, r = Some d <->
          exists o e, spawn "ffprobe" (durationArgs videoPath) = Closed (Some 0%Z) o e
                      /\ d = JS.stringToNumber (JS.trim o)
                      /\ JS.isFinite d = true /\ JS.lt JS.zero d = true).
Proof.
  unfold getVideoDurationSeconds, runCmd.
  destruct (spawn "ffprobe" (durationArgs videoPath)) as [e0|code o0 e0].
  - exists None. split; [reflexivity|]. intros d. split; [discriminate|].
    intros (o & e & H & _). discriminate.
  - destruct code as [[|p|p]|];
      try (exists None; split; [reflexivity|]; intros d; split; [discriminate|];
           intros (o & e & H & _); discriminate).
    destruct (JS.isFinite (JS.stringToNumber (JS.trim o0))) eqn:Hfin; cbn [negb orb].
    + destruct (JS.le (JS.stringToNumber (JS.trim o0)) JS.zero) eqn:Hle.
      * exists None. split; [reflexivity|]. intros d. split; [discriminate|].
        intros (o & e & [= <- <-] & -> & _ & Hpos).
        apply le_lt_false in Hle. congruence.
      * exists (Some (JS.stringToNumber (JS.trim o0))). split; [reflexivity|].
        intros d. split.
        -- intros [= <-]. exists o0, e0. repeat split; [assumption|].
           now apply le_false_lt.
        -- intros (o & e & [= <- <-] & -> & _). reflexivity.
    + exists None. split; [reflexivity|]. intros d. split; [discriminate|].
      intros (o & e & [= <- <-] & -> & Hf & _). congruence.
Qed.

Lemma clamp_choice (n mn mx : JS.number) :
  JS.isNaN n = false -> JS.isNaN mn = false -> JS.isNaN mx = false ->
  clamp n mn mx = n \/ clamp n mn mx = mn \/ clamp n mn mx = mx.
Proof.
  intros Hn Hmn Hmx. rewrite (clamp_cases n mn mx Hn Hmn Hmx).
  destruct (JS.lt n mx), (JS.lt mn n), (JS.lt mn mx); auto.
Qed.

Lemma clamp_between (n mn mx : JS.number) :
  JS.isNaN n = false -> JS.le mn mx = true ->
  JS.le mn (clamp n mn mx) = true /\ JS.le (clamp n mn mx) mx = true.
Proof.
  intros Hn Hle. destruct (le_not_NaN _ _ Hle) as [Hmn Hmx].
  rewrite (clamp_cases n mn mx Hn Hmn Hmx).
  destruct (JS.lt n mx) eqn:E1; [destruct (JS.lt mn n) eqn:E2 | destruct (JS.lt mn mx) eqn:E3];
    split; try (now apply lt_le); try (now apply le_refl); assumption.
Qed.

Lemma finite_not_NaN (a : JS.number) : JS.isFinite a = true -> JS.isNaN a = false.
Proof. destruct a; try discriminate; reflexivity. Qed.

Lemma Math_max_zero_finite (x : JS.number) :
  JS.isFinite x = true ->
  JS.isFinite (JS.Math_max JS.zero x) = true /\ JS.le JS.zero (JS.Math_max JS.zero x) = true.
Proof.
  intros Hx. rewrite Math_max_cases by (try reflexivity; now apply finite_not_NaN).
  destruct (JS.lt JS.zero x) eqn:E; split; try assumption; try reflexivity.
  now apply lt_le.
Qed.

Lemma Math_floor_finite (x : JS.number) :
  JS.isFinite x = true -> JS.isFinite (Math_floor x) = true /\ JS.le (Math_floor x) x = true.
Proof.
  destruct x as [| | |q]; try discriminate. intros _. split; [reflexivity|].
  cbn [Math_floor]. apply le_Fin, Qfloor_le.
Qed.

Lemma sameNumber_sym (a b : JS.number) : sameNumber a b = sameNumber b a.
Proof. destruct a, b; try reflexivity; apply andb_comm. Qed.

Lemma FOP_snoc {A} (R : A -> A -> Prop) (l : list A) (x : A) :
  ForallOrdPairs R l -> Forall (fun a => R a x) l -> ForallOrdPairs R (l ++ [x]).
Proof.
  induction 1 as [|a l Ha Hl IH]; intros Hx; cbn [app].
  - repeat constructor.
  - inversion Hx as [|? ? Hax Hlx]; subst. constructor; [|now apply IH].
    apply Forall_app. split; [assumption | now repeat constructor].
Qed.

Lemma fold_addNumber_spec (l : list JS.number) :
  forall acc,
    ForallOrdPairs (fun a b => sameNumber a b = false) acc ->
    ForallOrdPairs (fun a b => sameNumber a b = false) (fold_left addNumber l acc)
    /\ (forall x, In x (fold_left addNumber l acc) -> In x acc \/ In x l)
    /\ List.length (fold_left addNumber l acc) <= List.length acc + List.length l
    /\ (acc <> [] \/ l <> [] -> fold_left addNumber l acc <> []).
Proof.
  induction l as [|x l IH]; intros acc Hacc; cbn [fold_left].
  - split; [assumption|]. split; [auto|]. split; [cbn; lia|].
    intros [H|H]; [assumption | contradiction].
  - assert (Hnext : ForallOrdPairs (fun a b => sameNumber a b = false) (addNumber acc x)).
    { unfold addNumber. destruct (existsb (sameNumber x) acc) eqn:E; [assumption|].
      apply FOP_snoc; [assumption|]. apply Forall_forall. intros a Ha.
      rewrite sameNumber_sym. apply not_true_iff_false. intros Hs.
      apply not_true_iff_false in E. apply E. apply existsb_exists. eauto. }
    destruct (IH (addNumber acc x) Hnext) as (H1 & H2 & H3 & H4).
    split; [assumption|]. split; [|split].
    + intros y Hy. destruct (H2 y Hy) as [Hin|Hin]; [|right; now right].
      unfold addNumber in Hin. destruct (existsb (sameNumber x) acc); [now left|].
      apply in_app_iff in Hin as [Hin|[<-|[]]]; [now left | right; now left].
    + etransitivity; [exact H3|]. unfold addNumber.
      destruct (existsb (sameNumber x) acc); [cbn; lia|].
      rewrite length_app. cbn. lia.
    + intros _. apply H4. left. unfold addNumber.
      destruct (existsb (sameNumber x) acc) eqn:E.
      * intros ->. discriminate.
      * destruct acc; discriminate.
Qed.

(** For a duration that is finite and above zero, the seconds tried are
    the distinct ones among five clamped seconds, each of which is kept by
    the filter. *)
Lemma candidates_mapped (d : JS.number) :
  JS.isFinite d = true ->
  JS.lt JS.zero d = true ->
  let hi := JS.Math_max JS.zero (Math_floor (JS.sub d quarter)) in
  exists half,
    thumbnailCandidates (Some d)
    = distinctNumbers (map (fun t => clamp t JS.zero hi) [half; num 30; num 10; num 3; num 1])
    /\ Forall (fun t => JS.isFinite t = true /\ JS.le JS.zero t = true
                        /\ JS.le t hi = true /\ JS.le t d = true)
              (map (fun t => clamp t JS.zero hi) [half; num 30; num 10; num 3; num 1]).
Proof.
  intros Hfin Hpos hi.
  destruct (isFinite_Fin _ Hfin) as [q ->].
  assert (Hq : (0 < q)%Q) by now apply lt_Fin.
  assert (Htruthy : JS.truthyNumber (JS.Fin q) && JS.gt (JS.Fin q) JS.zero = true).
  { unfold JS.gt. rewrite Hpos, andb_true_r. cbn [JS.truthyNumber].
    apply negb_true_iff, not_true_iff_false. intros E. apply Qeq_bool_iff in E.
    rewrite E in Hq. exact (Qlt_irrefl _ Hq). }
  unfold thumbnailCandidates. rewrite Htruthy. fold hi.
  set (half := clamp (Math_floor (mul (JS.Fin q) half_)) (num 1)
                     (JS.Math_max (num 1) (Math_floor (JS.sub (JS.Fin q) (num 1))))).
  assert (Hhi : JS.isFinite hi = true /\ JS.le JS.zero hi = true)
    by (apply Math_max_zero_finite; reflexivity).
  destruct Hhi as [Hhifin Hhi0].
  assert (Hhid : JS.le hi (JS.Fin q) = true).
  { unfold hi. rewrite Math_max_cases by reflexivity.
    destruct (JS.lt JS.zero (Math_floor _)); [|now apply lt_le].
    cbn [JS.sub Math_floor quarter]. apply le_Fin.
    eapply Qle_trans; [apply Qfloor_le|].
    apply Qplus_le_l with (z := (1 # 4)%Q). ring_simplify.
    rewrite <- (Qplus_0_r q) at 1. apply Qplus_le_r. discriminate. }
  assert (Hhalf : JS.isFinite half = true).
  { assert (Hmx : JS.isFinite (JS.Math_max (num 1) (Math_floor (JS.sub (JS.Fin q) (num 1))))
                  = true).
    { rewrite Math_max_cases by reflexivity. now destruct (JS.lt (num 1) _). }
    destruct (clamp_choice (Math_floor (mul (JS.Fin q) half_)) (num 1)
                (JS.Math_max (num 1) (Math_floor (JS.sub (JS.Fin q) (num 1))))
                eq_refl eq_refl (finite_not_NaN _ Hmx))
      as [E|[E|E]]; unfold half; rewrite E; try reflexivity. exact Hmx. }
  assert (Hmapped : Forall (fun t => JS.isFinite t = true /\ JS.le JS.zero t = true
                                     /\ JS.le t hi = true /\ JS.le t (JS.Fin q) = true)
                           (map (fun t => clamp t JS.zero hi)
                                [half; num 30; num 10; num 3; num 1])).
  { apply Forall_forall. intros t' Ht'. apply in_map_iff in Ht' as (t & <- & Ht).
    assert (Htfin : JS.isFinite t = true)
      by (destruct Ht as [<-|[<-|[<-|[<-|[<-|[]]]]]]; try reflexivity; exact Hhalf).
    destruct (clamp_between t JS.zero hi (finite_not_NaN _ Htfin) Hhi0) as [H0 H1].
    assert (Hcfin : JS.isFinite (clamp t JS.zero hi) = true).
    { destruct (clamp_choice t JS.zero hi (finite_not_NaN _ Htfin) eq_refl
                             (finite_not_NaN _ Hhifin)) as [E|[E|E]];
        rewrite E; try assumption; reflexivity. }
    repeat split; try assumption.
    eapply le_trans_Fin with (b := hi); try assumption; reflexivity. }
  assert (Hkept : filter (fun t => JS.isFinite t && JS.ge t JS.zero)
                         (map (fun t => clamp t JS.zero hi)
                              [half; num 30; num 10; num 3; num 1])
                  = map (fun t => clamp t JS.zero hi) [half; num 30; num 10; num 3; num 1]).
  { apply filter_all. eapply Forall_impl; [|exact Hmapped].
    intros t (Hf & H0 & _). unfold JS.ge. now rewrite Hf, H0. }
  rewrite Hkept. exists half. split; [reflexivity | exact Hmapped].
Qed.

(** X11. For a duration that is finite and above zero, the seconds the
    thumbnail helper will try are at least one and at most five, they are
    finite, none is below 0 nor above [Math.max(0, Math.floor(dur - 0.25))],
    hence none is beyond the duration, and no second is listed twice. *)
Theorem thumbnail_seconds_within_video (d : JS.number) :
  JS.isFinite d = true ->
  JS.lt JS.zero d = true ->
  let hi := JS.Math_max JS.zero (Math_floor (JS.sub d quarter)) in
  thumbnailCandidates (Some d) <> []
  /\ List.length (thumbnailCandidates (Some d)) <= 5
  /\ Forall (fun t => JS.isFinite t = true /\ JS.le JS.zero t = true
                      /\ JS.le t hi = true /\ JS.le t d = true)
            (thumbnailCandidates (Some d))
  /\ ForallOrdPairs (fun a b => sameNumber a b = false) (thumbnailCandidates (Some d)).
Proof.
  intros Hfin Hpos hi.
  destruct (candidates_mapped d Hfin Hpos) as (half & -> & Hmapped). fold hi in Hmapped.
  unfold distinctNumbers.
  destruct (fold_addNumber_spec
              (map (fun t => clamp t JS.zero hi) [half; num 30; num 10; num 3; num 1]) []
              (FOP_nil _)) as (Hapart & Hin & Hlen & Hne).
  split; [apply Hne; right; discriminate|]. split; [exact Hlen|]. split; [|exact Hapart].
  apply Forall_forall. intros t Ht. destruct (Hin t Ht) as [[]|Hm].
  rewrite Forall_forall in Hmapped. now apply Hmapped.
Qed.

Lemma duration_returns (videoPath : string) :
  exists r,
    getVideoDurationSeconds spawn videoPath = JS.Normal r
    /\ (forall d, r = Some d -> JS.isFinite d = true /\ JS.lt JS.zero d = true).
Proof.
  unfold getVideoDurationSeconds.
  destruct (runCmd spawn "ffprobe" (durationArgs videoPath)) as [[o e]|e].
  - destruct (JS.isFinite (JS.stringToNumber (JS.trim o))) eqn:Hfin; cbn [negb orb].
    + destruct (JS.le (JS.stringToNumber (JS.trim o)) JS.zero) eqn:Hle.
      * exists None. split; [reflexivity | discriminate].
      * eexists. split; [reflexivity|]. intros d [= <-]. split; [assumption|].
        now apply le_false_lt.
    + exists None. split; [reflexivity | discriminate].
  - exists None. split; [reflexivity | discriminate].
Qed.

Lemma candidates_nonempty (dur : option JS.number) :
  (forall d, dur = Some d -> JS.isFinite d = true) -> thumbnailCandidates dur <> [].
Proof.
  intros Hfin. destruct dur as [d|]; [|discriminate].
  destruct (JS.truthyNumber d && JS.gt d JS.zero) eqn:E.
  - apply andb_true_iff in E as [_ E].
    destruct (candidates_mapped d (Hfin d eq_refl) E) as (half & -> & _).
    unfold distinctNumbers.
    apply (fold_addNumber_spec _ [] (FOP_nil _)). right. discriminate.
  - unfold thumbnailCandidates. rewrite E. discriminate.
Qed.

Lemma tryCandidates_spec (u : bool) (v p : string) (cands : list JS.number) :
  forall lastErr files,
    match tryCandidates spawn ffmpegWrites u v p cands lastErr files with
    | (JS.Normal t, _) =>
        exists pre post,
          cands = (pre ++ t :: post)%list
          /\ Forall (fun x => exists e, generateThumbnailAtSecond spawn v p x = JS.Throw e) pre
          /\ generateThumbnailAtSecond spawn v p t = JS.Normal tt
    | (JS.Throw e, files') =>
        Forall (fun x => exists e, generateThumbnailAtSecond spawn v p x = JS.Throw e) cands
        /\ match rev cands with
           | [] => e = match lastErr with
                       | Some e0 => e0
                       | None => JS.newError "Thumbnail generation failed"
                       end
                   /\ files' = files
           | t :: _ => generateThumbnailAtSecond spawn v p t = JS.Throw e
                       /\ (u = false -> ~ In p files')
           end
    end.
Proof.
  induction cands as [|t rest IH]; intros lastErr files; cbn [tryCandidates].
  - split; [constructor | split; reflexivity].
  - destruct (generateThumbnailAtSecond spawn v p t) as [[]|e] eqn:Egen.
    + exists [], rest. split; [reflexivity|]. split; [constructor | exact Egen].
    + set (written := ffmpegWrites (thumbnailArgs v p t) files).
      set (swept := if existsb (String.eqb p) written && negb u
                    then filter (fun x => negb (String.eqb p x)) written
                    else written).
      assert (Hswept : u = false -> ~ In p swept).
      { intros ->. unfold swept. cbn [negb]. rewrite andb_true_r.
        destruct (existsb (String.eqb p) written) eqn:Eex.
        - intros Hin. apply filter_In in Hin as [_ Hin].
          rewrite String.eqb_refl in Hin. discriminate.
        - intros Hin. apply not_true_iff_false in Eex. apply Eex.
          apply existsb_exists. exists p. split; [assumption | apply String.eqb_refl]. }
      specialize (IH (Some e) swept).
      destruct (tryCandidates spawn ffmpegWrites u v p rest (Some e) swept)
        as [[t'|e'] files'].
      * destruct IH as (pre & post & -> & Hpre & Ht').
        exists (t :: pre), post. repeat split; [|assumption].
        constructor; [eauto | assumption].
      * destruct IH as [Hall Hlast]. split; [constructor; eauto|].
        cbn [rev]. destruct (rev rest) as [|t0 l] eqn:Er.
        -- cbn [app]. destruct Hlast as [-> ->]. split; [exact Egen | assumption].
        -- cbn [app]. exact Hlast.
Qed.

(** X12. [generateThumbnailHalfwayWithFallback] tries the seconds in the
    order of the list and answers with the first one for which the encoder
    exits with 0, together with the duration found: every second before it
    failed. It throws only when every second failed, and then it throws the
    error of the last second tried, never the text "Thumbnail generation
    failed", because the list is never empty; and when the removal of the
    thumbnail does not fail, no file is left at the thumbnail's path. *)
Theorem thumbnail_is_first_second_that_works (u : bool) (v p : string) (files : list string) :
  exists dur,
    getVideoDurationSeconds spawn v = JS.Normal dur
    /\ match generateThumbnailHalfwayWithFallback spawn ffmpegWrites u v p files with
       | (JS.Normal (t, dur'), _) =>
           dur' = dur
           /\ exists pre post,
               thumbnailCandidates dur = (pre ++ t :: post)%list
               /\ Forall (fun x => exists e, generateThumbnailAtSecond spawn v p x = JS.Throw e)
                         pre
               /\ generateThumbnailAtSecond spawn v p t = JS.Normal tt
       | (JS.Throw e, files') =>
           Forall (fun x => exists e, generateThumbnailAtSecond spawn v p x = JS.Throw e)
                  (thumbnailCandidates dur)
           /\ (exists pre t,
                 thumbnailCandidates dur = (pre ++ [t])%list
                 /\ generateThumbnailAtSecond spawn v p t = JS.Throw e)
           /\ (u = false -> ~ In p files')
       end.
Proof.
  destruct (duration_returns v) as (dur & Hdur & Hfin). exists dur.
  split; [assumption|].
  unfold generateThumbnailHalfwayWithFallback. rewrite Hdur.
  pose proof (tryCandidates_spec u v p (thumbnailCandidates dur) None files) as Hspec.
  pose proof (candidates_nonempty dur (fun d Hd => proj1 (Hfin d Hd))) as Hne.
  destruct (tryCandidates spawn ffmpegWrites u v p (thumbnailCandidates dur) None files)
    as [[t|e] files'].
  - split; [reflexivity | exact Hspec].
  - destruct Hspec as [Hall Hlast]. split; [assumption|].
    destruct (rev (thumbnailCandidates dur)) as [|t l] eqn:Er.
    + exfalso. apply Hne. apply (f_equal (@rev _)) in Er.
      now rewrite rev_involutive in Er.
    + destruct Hlast as [Ht Hfiles]. split; [|assumption].
      exists (rev l), t. split; [|assumption].
      apply (f_equal (@rev _)) in Er. now rewrite rev_involutive in Er.
Qed.

End ThumbnailFacts.

Lemma thumbnail_seconds_within_video_witness :
  JS.isFinite (num 100) = true /\ JS.lt JS.zero (num 100) = true
  /\ thumbnailCandidates (Some (num 100)) <> []
  /\ Forall (fun t => JS.le t (num 100) = true) (thumbnailCandidates (Some (num 100))).
Proof.
  split; [reflexivity|]. split; [reflexivity|].
  destruct (thumbnail_seconds_within_video (num 100) eq_refl eq_refl)
    as (Hne & _ & Hall & _).
  split; [exact Hne|]. eapply Forall_impl; [|exact Hall]. intros t H. apply H.
Defined.

(* ================================================================== *)
(** ** The download loop *)
(* ================================================================== *)

Section DownloadFacts.
Context {RT : JS.Runtime}.
Variable env : Env.
Variable tmpRoot : string.

Lemma downloadsFrom_snoc (bucket inputDir : string) (byId : list Row) (pre : list clip)
      (c : clip) :
  forall i,
    downloadsFrom bucket inputDir byId i (pre ++ [c])
    = (downloadsFrom bucket inputDir byId i pre
       ++ [EvDownload bucket (keyOf byId c) (localPathOf inputDir (i + List.length pre) c)])%list.
Proof.
  induction pre as [|x pre IH]; intros i; cbn [downloadsFrom app List.length].
  - now rewrite Nat.add_0_r.
  - rewrite IH. now rewrite Nat.add_succ_comm.
Qed.

(** One download: the call is recorded, then the body is asked for, then
    written. *)
Lemma downloadS3ToFile_run (bucket key outPath : string) (st : State) :
  downloadS3ToFile env bucket key outPath st
  = match s3Send env bucket key with
    | JS.Normal true =>
        match pipeline env outPath with
        | JS.Normal _ =>
            (Continue outPath,
             mkState (outPath :: files st) (trace st ++ [EvDownload bucket key outPath]))
        | JS.Throw e =>
            (Raise e,
             mkState (outPath :: files st) (trace st ++ [EvDownload bucket key outPath]))
        end
    | JS.Normal false =>
        (Raise (JS.newError ("S3 download failed for " ++ key)),
         mkState (files st) (trace st ++ [EvDownload bucket key outPath]))
    | JS.Throw e =>
        (Raise e, mkState (files st) (trace st ++ [EvDownload bucket key outPath]))
    end.
Proof.
  unfold downloadS3ToFile, bindM, emit, touch, await, ret.
  destruct (s3Send env bucket key) as [[|]|e]; try reflexivity.
  cbn [files trace]. destruct (pipeline env outPath); reflexivity.
Qed.

(** The loop from index [i]: what it leaves when it gets through, when it
    answers, and when it throws. *)
Lemma downloadAll_spec (inputDir bucket : string) (byId : list Row) (clips : list clip) :
  forall i inputPaths st,
    match downloadAll env tmpRoot inputDir bucket byId i clips inputPaths st with
    | (Continue paths, st') =>
        paths = (inputPaths ++ pathsFrom inputDir i clips)%list
        /\ trace st' = (trace st ++ downloadsFrom bucket inputDir byId i clips)%list
        /\ Forall (downloadWorked env) (downloadsFrom bucket inputDir byId i clips)
        /\ (forall p, In p (files st) \/ In p (pathsFrom inputDir i clips) -> In p (files st'))
    | (Return r, st') =>
        exists pre c post,
          clips = (pre ++ c :: post)%list
          /\ mapGet byId (videoId c) <> None
          /\ keyOf byId c = ""
          /\ r = Failure 400 ("Missing filename for " ++ videoId c)
          /\ trace st' = (trace st ++ downloadsFrom bucket inputDir byId i pre
                                   ++ [EvCleanup tmpRoot])%list
          /\ Forall (downloadWorked env) (downloadsFrom bucket inputDir byId i pre)
    | (Raise e, st') =>
        exists pre c post,
          clips = (pre ++ c :: post)%list
          /\ Forall (downloadWorked env) (downloadsFrom bucket inputDir byId i pre)
          /\ ((mapGet byId (videoId c) = None
               /\ trace st' = (trace st ++ downloadsFrom bucket inputDir byId i pre)%list)
              \/ (keyOf byId c <> ""
                  /\ ~ downloadWorked env (EvDownload bucket (keyOf byId c)
                                                      (localPathOf inputDir (i + List.length pre) c))
                  /\ trace st' = (trace st ++ downloadsFrom bucket inputDir byId i
                                                            (pre ++ [c]))%list))
    end.
Proof.
  induction clips as [|c rest IH]; intros i inputPaths st; cbn [downloadAll].
  - cbn [ret pathsFrom downloadsFrom]. rewrite !app_nil_r.
    repeat split; [constructor | intros p [H|[]]; exact H].
  - destruct (mapGet byId (videoId c)) as [row|] eqn:Hrow.
    2:{ cbn [await]. exists [], c, rest. split; [reflexivity|]. split; [constructor|].
        left. cbn [downloadsFrom]. now rewrite app_nil_r. }
    rewrite orString_empty.
    assert (Hkey : keyOf byId c = match filename row with Some f => f | None => "" end).
    { unfold keyOf. rewrite Hrow. destruct row as [rid [f|]]; reflexivity. }
    rewrite <- Hkey.
    destruct (JS.truthyString (keyOf byId c)) eqn:Htruthy; cbn [negb].
    2:{ unfold bindM, cleanup, respond. cbn [trace]. exists [], c, rest.
        split; [reflexivity|]. split; [congruence|].
        split; [now destruct (keyOf byId c)|]. split; [reflexivity|].
        split; [reflexivity | constructor]. }
    assert (Hne : keyOf byId c <> "") by (intros E; rewrite E in Htruthy; discriminate).
    fold (localPathOf inputDir i c).
    unfold bindM. rewrite downloadS3ToFile_run.
    destruct (s3Send env bucket (keyOf byId c)) as [[|]|e] eqn:Hsend.
    + destruct (pipeline env (localPathOf inputDir i c)) as [[]|e] eqn:Hpipe.
      * specialize (IH (S i) (inputPaths ++ [localPathOf inputDir i c])%list
                       (mkState (localPathOf inputDir i c :: files st)
                                (trace st ++ [EvDownload bucket (keyOf byId c)
                                                         (localPathOf inputDir i c)]))).
        destruct (downloadAll env tmpRoot inputDir bucket byId (S i) rest _ _)
          as [[paths|r|e] st'].
        -- destruct IH as (-> & Htr & Hall & Hfiles). cbn [trace files] in *.
           cbn [pathsFrom downloadsFrom]. rewrite <- !app_assoc in *. cbn [app] in *.
           split; [reflexivity|]. split; [exact Htr|].
           split; [constructor; [now repeat split | exact Hall]|].
           intros p [Hp|[<-|Hp]]; apply Hfiles; cbn [In]; auto.
        -- destruct IH as (pre & c' & post & -> & Hget & Hk & -> & Htr & Hall).
           exists (c :: pre), c', post. cbn [trace downloadsFrom app] in *.
           rewrite <- !app_assoc in *. cbn [app] in *.
           repeat split; try assumption. constructor; [now repeat split | exact Hall].
        -- destruct IH as (pre & c' & post & -> & Hall & Hcase).
           exists (c :: pre), c', post. cbn [trace downloadsFrom app List.length] in *.
           split; [reflexivity|].
           split; [constructor; [now repeat split | exact Hall]|].
           rewrite <- Nat.add_succ_comm.
           destruct Hcase as [[Hnone Htr]|(Hk & Hbad & Htr)]; [left | right];
             rewrite <- !app_assoc in *; cbn [app] in *; repeat split; assumption.
      * exists [], c, rest. cbn [trace downloadsFrom app List.length].
        rewrite Nat.add_0_r. split; [reflexivity|]. split; [constructor|]. right.
        split; [assumption|]. split; [|reflexivity].
        intros (_ & _ & Hp). congruence.
    + exists [], c, rest. cbn [trace downloadsFrom app List.length].
      rewrite Nat.add_0_r. split; [reflexivity|]. split; [constructor|]. right.
      split; [assumption|]. split; [|reflexivity].
      intros (_ & Hs & _). congruence.
    + exists [], c, rest. cbn [trace downloadsFrom app List.length].
      rewrite Nat.add_0_r. split; [reflexivity|]. split; [constructor|]. right.
      split; [assumption|]. split; [|reflexivity].
      intros (_ & Hs & _). congruence.
Qed.

(** X13. The download loop asks for the sources one clip at a time in the
    order of the timeline, each under the key of its row and into the file
    [src-<index>-<videoId>.mp4] of the input directory. When it gets through,
    every download went through, the paths it hands on are those files in
    the same order, and they exist. It stops at the first clip that fails:
    a clip whose row has no file name is answered with status 400 after a
    cleanup and no download for it, and after a clip whose download throws
    nothing more is asked for. *)
Theorem downloads_follow_the_timeline (inputDir bucket : string) (byId : list Row)
        (clips : list clip) (st : State) :
  match downloadAll env tmpRoot inputDir bucket byId 0 clips [] st with
  | (Continue paths, st') =>
      paths = pathsFrom inputDir 0 clips
      /\ trace st' = (trace st ++ downloadsFrom bucket inputDir byId 0 clips)%list
      /\ Forall (downloadWorked env) (downloadsFrom bucket inputDir byId 0 clips)
      /\ (forall p, In p paths -> In p (files st'))
  | (Return r, st') =>
      exists pre c post,
        clips = (pre ++ c :: post)%list
        /\ keyOf byId c = ""
        /\ r = Failure 400 ("Missing filename for " ++ videoId c)
        /\ trace st' = (trace st ++ downloadsFrom bucket inputDir byId 0 pre
                                 ++ [EvCleanup tmpRoot])%list
        /\ Forall (downloadWorked env) (downloadsFrom bucket inputDir byId 0 pre)
  | (Raise e, st') =>
      exists pre c post,
        clips = (pre ++ c :: post)%list
        /\ Forall (downloadWorked env) (downloadsFrom bucket inputDir byId 0 pre)
        /\ (trace st' = (trace st ++ downloadsFrom bucket inputDir byId 0 pre)%list
            \/ (~ downloadWorked env (EvDownload bucket (keyOf byId c)
                                                 (localPathOf inputDir (List.length pre) c))
                /\ trace st' = (trace st ++ downloadsFrom bucket inputDir byId 0
                                                          (pre ++ [c]))%list))
  end.
Proof.
  pose proof (downloadAll_spec inputDir bucket byId clips 0 [] st) as H.
  destruct (downloadAll env tmpRoot inputDir bucket byId 0 clips [] st)
    as [[paths|r|e] st'].
  - destruct H as (-> & Htr & Hall & Hfiles). cbn [app].
    repeat split; try assumption. intros p Hp. apply Hfiles. now right.
  - destruct H as (pre & c & post & -> & _ & Hk & -> & Htr & Hall).
    exists pre, c, post. repeat split; assumption.
  - destruct H as (pre & c & post & -> & Hall & Hcase).
    exists pre, c, post. split; [reflexivity|]. split; [assumption|].
    destruct Hcase as [[_ Htr]|(_ & Hbad & Htr)]; [now left | right].
    cbn [Nat.add] in Hbad. now split.
Qed.

End DownloadFacts.

(* ================================================================== *)
(** ** What an answer of success stands for *)
(* ================================================================== *)

Section SuccessFacts.
Context {RT : JS.Runtime}.
Variable env : Env.
Variable tmpRoot : string.

Lemma run_bind_cases {A B} (m : M A) (k : A -> M B) (st : State) :
  bindM m k st
  = match m st with
    | (Continue a, st') => k a st'
    | (Return r, st') => (Return r, st')
    | (Raise e, st') => (Raise e, st')
    end.
Proof. reflexivity. Qed.

(** The check of the clips against the rows leaves the state as it is
    unless it answers. *)
Lemma checkResolved_run (byId : list Row) (clips : list clip) (st : State) :
  checkResolved env tmpRoot byId clips st
  = match find (fun c => negb (mapHas byId (videoId c))) clips with
    | None => (Continue tt, st)
    | Some c =>
        (Return (Failure 400 ("Unknown clip videoId " ++ videoId c)),
         mkState (if rmSyncThrows env (trace st) then files st
                  else rmRecursive tmpRoot (files st))
                 (trace st ++ [EvCleanup tmpRoot]))
    end.
Proof.
  induction clips as [|c rest IH]; cbn [checkResolved find]; [reflexivity|].
  destruct (mapHas byId (videoId c)); cbn [negb]; [exact IH | reflexivity].
Qed.

(** Starting the probers records one call per input and nothing else. *)
Lemma spawnProbes_run (inputPaths : list string) (st : State) :
  spawnProbes inputPaths st
  = (Continue tt, mkState (files st) (trace st ++ probesOf inputPaths)).
Proof.
  revert st. induction inputPaths as [|p rest IH]; intros st; cbn [spawnProbes].
  - unfold ret, probesOf. cbn [map]. rewrite app_nil_r. now destruct st.
  - rewrite run_emit, IH. cbn [files trace]. unfold probesOf. cbn [map].
    now rewrite <- app_assoc.
Qed.

(** The encoder run: its call is recorded, and it goes on exactly when
    [runCmd] resolves. *)
Lemma encode_run (args : list string) (outPath : string) (st : State) :
  encode env args outPath st
  = match runCmd (spawn env) "ffmpeg" args with
    | JS.Normal _ =>
        (Continue tt, mkState (outPath :: files st) (trace st ++ [EvEncode args]))
    | JS.Throw e =>
        (Raise e,
         mkState (match spawn env "ffmpeg" args with
                  | Closed _ _ _ => outPath :: files st
                  | SpawnError _ => files st
                  end)
                 (trace st ++ [EvEncode args]))
    end.
Proof.
  unfold encode, runCmd, bindM, emit, touch, ret, await.
  destruct (spawn env "ffmpeg" args) as [e|[[|p|p]|] o e]; reflexivity.
Qed.

Lemma runCmd_Normal_zero (cmd : string) (args : list string) (oe : string * string) :
  runCmd (spawn env) cmd args = JS.Normal oe ->
  spawn env cmd args = Closed (Some 0%Z) (fst oe) (snd oe).
Proof.
  unfold runCmd. destruct (spawn env cmd args) as [e|[[|p|p]|] o e]; try discriminate.
  now intros [= <-].
Qed.

Ltac fails_here := intros Hrun; discriminate Hrun.

(** A [try] block that answers with success went through every step. *)
Lemma tryBlock_published (req : Request) (st st' : State) (newId name : JS.value) :
  tryBlock env req tmpRoot (pathJoin tmpRoot "inputs") (pathJoin tmpRoot "out") st
  = (Return (Published newId name), st') ->
  exists clips bucket rows flags v more,
    normTimeline (bodyField req "timeline") = JS.Normal clips
    /\ clips <> []
    /\ S3_UPLOADS_BUCKET env = Some bucket
    /\ bucket <> ""
    /\ selectVideos env (map videoId clips) = JS.Normal rows
    /\ Forall (fun c => mapHas rows (videoId c) = true) clips
    /\ Forall (downloadWorked env)
              (downloadsFrom bucket (pathJoin tmpRoot "inputs") rows 0 clips)
    /\ probeAll (spawn env) (pathsFrom (pathJoin tmpRoot "inputs") 0 clips) = JS.Normal flags
    /\ (exists o e, spawn env "ffmpeg" (encoderArgsOf env tmpRoot clips flags)
                    = Closed (Some 0%Z) o e)
    /\ uploadFileToS3 env bucket (uploadKeyOf env req) (outPathOf env tmpRoot) "video/mp4"
       = JS.Normal tt
    /\ insertVideo env v = JS.Normal (newId :: more)
    /\ name = JS.orDefault (bodyField req "timelineName") (JS.VStr "Timeline")
    /\ trace st' = (trace st ++ publishedTrace env req tmpRoot bucket rows clips flags v)%list.
Proof.
  unfold tryBlock. cbv zeta.
  destruct (normTimeline (bodyField req "timeline")) as [clips|e] eqn:Hclips;
    [rewrite run_await_Normal | rewrite run_await_Throw; fails_here].
  destruct (JS.ToString (JS.orElse (bodyField req "title") (JS.VStr ""))) as [titleText|e];
    [rewrite run_await_Normal | rewrite run_await_Throw; fails_here].
  destruct (JS.truthyString (JS.trim titleText)); cbn [negb];
    [|rewrite run_cleanup_respond; fails_here].
  destruct (List.length clips =? 0)%nat eqn:Hlen; [rewrite run_cleanup_respond; fails_here|].
  destruct (S3_UPLOADS_BUCKET env) as [bucket|] eqn:Hbucket;
    [|rewrite run_cleanup_respond; fails_here].
  destruct (JS.truthyString bucket) eqn:Htruthy; cbn [negb];
    [|rewrite run_cleanup_respond; fails_here].
  rewrite run_emit.
  destruct (selectVideos env (map videoId clips)) as [rows|e] eqn:Hrows;
    [rewrite run_await_Normal | rewrite run_await_Throw; fails_here].
  rewrite run_bind_cases, checkResolved_run.
  destruct (find (fun c => negb (mapHas rows (videoId c))) clips) eqn:Hfind; [fails_here|].
  rewrite run_bind_cases.
  match goal with
  | |- context [downloadAll env tmpRoot ?d bucket rows 0 clips [] ?s] =>
      pose proof (downloadAll_spec env tmpRoot d bucket rows clips 0 [] s) as Hd;
      destruct (downloadAll env tmpRoot d bucket rows 0 clips [] s) as [[paths|r|e] st1]
  end; [| destruct Hd as (? & ? & ? & _ & _ & _ & -> & _); fails_here | fails_here].
  cbn [app trace] in Hd. destruct Hd as (-> & Htr1 & Hall & _).
  rewrite run_bind_cases, spawnProbes_run.
  destruct (probeAll (spawn env) (pathsFrom (pathJoin tmpRoot "inputs") 0 clips))
    as [flags|e] eqn:Hflags;
    [rewrite run_await_Normal | rewrite run_await_Throw; fails_here].
  rewrite !run_emit. rewrite run_bind_cases, encode_run.
  fold (outNameOf env). fold (outPathOf env tmpRoot). fold (uploadKeyOf env req).
  fold (encoderArgsOf env tmpRoot clips flags).
  destruct (runCmd (spawn env) "ffmpeg" (encoderArgsOf env tmpRoot clips flags))
    as [oe|e] eqn:Hencode; [|fails_here].
  rewrite run_emit.
  destruct (uploadFileToS3 env bucket (uploadKeyOf env req) (outPathOf env tmpRoot) "video/mp4")
    as [[]|e] eqn:Hupload;
    [rewrite run_await_Normal | rewrite run_await_Throw; fails_here].
  destruct (JS.ToString (JS.orDefault (bodyField req "visibility") (JS.VStr "public")))
    as [visText|e];
    [rewrite run_await_Normal | rewrite run_await_Throw; fails_here].
  destruct (JS.ToString (JS.orElse (JS.orDefault (bodyField req "tags") (JS.VStr ""))
                                   (JS.VStr ""))) as [tagsText|e];
    [rewrite run_await_Normal | rewrite run_await_Throw; fails_here].
  destruct (JS.ToString (bodyField req "title")) as [titleText'|e];
    [rewrite run_await_Normal | rewrite run_await_Throw; fails_here].
  destruct (JS.ToString (JS.orElse (JS.orDefault (bodyField req "description") (JS.VStr ""))
                                   (JS.VStr ""))) as [descText|e];
    [rewrite run_await_Normal | rewrite run_await_Throw; fails_here].
  rewrite run_emit.
  match goal with
  | |- context [insertVideo env ?v] =>
      set (record := v); destruct (insertVideo env record) as [ins|e] eqn:Hins
  end; [rewrite run_await_Normal | rewrite run_await_Throw; fails_here].
  rewrite run_bind_cases, (cleanup_run env tmpRoot).
  destruct ins as [|id0 more]; [fails_here|].
  unfold respond. intros [= <- <- <-].
  exists clips, bucket, rows, flags, record, more.
  split; [reflexivity|]. split; [intros ->; discriminate|]. split; [reflexivity|].
  split; [intros ->; discriminate|]. split; [assumption|].
  split.
  { apply Forall_forall. intros c Hc. pose proof (find_none _ _ Hfind c Hc) as Hn.
    now apply negb_false_iff in Hn. }
  split; [assumption|]. split; [exact Hflags|].
  split.
  { apply runCmd_Normal_zero in Hencode. eauto. }
  split; [exact Hupload|]. split; [exact Hins|]. split; [reflexivity|].
  cbn [trace]. unfold publishedTrace. rewrite Htr1.
  rewrite <- !app_assoc. reflexivity.
Qed.

(** X14. An answer of success stands for a job that went through every
    step. When the handler answers [{ ok: true, videoId, timelineName }], the
    timeline had at least one clip after normalization, the bucket was
    configured, every clip had a row, every download went through, the
    encoder exited with 0 on the inputs and the filter built for these clips,
    the upload and the INSERT succeeded; after the creation of the scratch
    tree, the calls made are exactly the lookup, one download per clip in
    timeline order, one prober per input in the same order, the three lines
    of the log, the encoder run, the upload, the INSERT and the cleanup, in
    this order; [videoId] is the id of the first row the INSERT returned, and
    [timelineName] is the one of the request, or [Timeline] by default. *)
Theorem published_means_every_step_done
        (req : Request) (st st' : State) (newId name : JS.value) :
  scratchCreated env tmpRoot ->
  handler env req st = (Responded (Published newId name), st') ->
  exists clips bucket rows flags v more,
    normTimeline (bodyField req "timeline") = JS.Normal clips
    /\ clips <> []
    /\ S3_UPLOADS_BUCKET env = Some bucket
    /\ bucket <> ""
    /\ selectVideos env (map videoId clips) = JS.Normal rows
    /\ Forall (fun c => mapHas rows (videoId c) = true) clips
    /\ Forall (downloadWorked env)
              (downloadsFrom bucket (pathJoin tmpRoot "inputs") rows 0 clips)
    /\ probeAll (spawn env) (pathsFrom (pathJoin tmpRoot "inputs") 0 clips) = JS.Normal flags
    /\ (exists o e, spawn env "ffmpeg" (encoderArgsOf env tmpRoot clips flags)
                    = Closed (Some 0%Z) o e)
    /\ uploadFileToS3 env bucket (uploadKeyOf env req) (outPathOf env tmpRoot) "video/mp4"
       = JS.Normal tt
    /\ insertVideo env v = JS.Normal (newId :: more)
    /\ name = JS.orDefault (bodyField req "timelineName") (JS.VStr "Timeline")
    /\ trace st' = (trace st ++ publishedTrace env req tmpRoot bucket rows clips flags v)%list.
Proof.
  intros Hc H. rewrite (handler_of_tryCatch env tmpRoot req st Hc) in H.
  unfold tryCatch in H.
  assert (Hg : grown st (atTry tmpRoot st)) by (exists []; cbn; now rewrite app_nil_r).
  pose proof (rc_tryBlock env tmpRoot st req (pathJoin tmpRoot "inputs")
                          (pathJoin tmpRoot "out") _ Hg) as Hrc.
  destruct (tryBlock env req tmpRoot (pathJoin tmpRoot "inputs") (pathJoin tmpRoot "out")
                     (atTry tmpRoot st)) as [[r|r|e] s1] eqn:Htry.
  - contradiction.
  - injection H as -> ->. exact (tryBlock_published req _ _ _ _ Htry).
  - unfold catchBlock, bindM, emit, cleanup, respond in H. discriminate H.
Qed.

End SuccessFacts.

Lemma published_means_every_step_done_witness :
  scratchCreated studioEnv scratchRoot
  /\ fst (@handler Plain.runtime studioEnv publishReq idle)
     = Responded (Published (JS.VNum (JS.Fin 42)) (JS.VStr "Timeline"))
  /\ exists clips rows flags v,
       clips <> []
       /\ trace (snd (@handler Plain.runtime studioEnv publishReq idle))
          = @publishedTrace Plain.runtime studioEnv publishReq scratchRoot "media" rows
                            clips flags v.
Proof.
  assert (Hc : scratchCreated studioEnv scratchRoot) by (repeat split).
  split; [exact Hc|]. split; [reflexivity|].
  destruct (@published_means_every_step_done Plain.runtime studioEnv scratchRoot publishReq
              idle (snd (@handler Plain.runtime studioEnv publishReq idle))
              (JS.VNum (JS.Fin 42)) (JS.VStr "Timeline") Hc eq_refl)
    as (clips & bucket & rows & flags & v & more & _ & Hne & Hb & _ & _ & _ & _ & _ & _
        & _ & _ & _ & Htr).
  injection Hb as <-. exists clips, rows, flags, v. split; [exact Hne | exact Htr].
Defined.

(* ================================================================== *)
(** ** The calls the handler makes *)
(* ================================================================== *)

Section CallRules.
Context {RT : JS.Runtime}.
Variable env : Env.
Variable tmpRoot : string.
Variable P : Event -> Prop.















End CallRules.

Section CallFacts.
Context {RT : JS.Runtime}.
Variable env : Env.
Variable req : Request.
Variable tmpRoot : string.








End CallFacts.


(* ================================================================== *)
(** ** The ways out of the handler before any work *)
(* ================================================================== *)

Section EdgeFacts.
Context {RT : JS.Runtime}.
Variable env : Env.

(** X16. The handler lets an exception escape exactly when one of the
    three calls that create the scratch tree throws, and the exception is
    that one. It has then made no call and sent no response, and what was
    created of the tree before the failing call is still there: [cleanup] is
    not run. *)
Theorem uncaught_only_from_scratch_creation (req : Request) (st st' : State) (e : JS.Error) :
  handler env req st = (Unhandled e, st')
  <-> (mkdtempSync env (pathJoin (tmpdir env) "mytube-export-") = JS.Throw e /\ st' = st)
      \/ exists tmpRoot,
           mkdtempSync env (pathJoin (tmpdir env) "mytube-export-") = JS.Normal tmpRoot
           /\ ((mkdirSync env (pathJoin tmpRoot "inputs") = JS.Throw e
                /\ st' = mkState (tmpRoot :: files st) (trace st))
               \/ (mkdirSync env (pathJoin tmpRoot "inputs") = JS.Normal tt
                   /\ mkdirSync env (pathJoin tmpRoot "out") = JS.Throw e
                   /\ st' = mkState (pathJoin tmpRoot "inputs" :: tmpRoot :: files st)
                                    (trace st))).
Proof.
  unfold handler. split.
  - destruct (mkdtempSync env (pathJoin (tmpdir env) "mytube-export-")) as [tmpRoot|e0].
    2:{ intros [= <- <-]. left. auto. }
    intros H. right. exists tmpRoot. split; [reflexivity|].
    destruct (mkdirSync env (pathJoin tmpRoot "inputs")) as [[]|e1].
    2:{ injection H as <- <-. left. auto. }
    destruct (mkdirSync env (pathJoin tmpRoot "out")) as [[]|e2].
    2:{ injection H as <- <-. right. auto. }
    exfalso.
    destruct (tryCatch env req tmpRoot (pathJoin tmpRoot "inputs") (pathJoin tmpRoot "out") _)
      as [[r|r|e3] s1] eqn:E; try discriminate H.
    exact (tryCatch_catches env tmpRoot req _ _ _ _ _ E).
  - intros [[-> ->]|(tmpRoot & -> & [[-> ->]|(-> & -> & ->)])]; reflexivity.
Qed.

(** X17. The three checks come before any call to a collaborator, in the
    order title, timeline, bucket. When the timeline normalizes and the
    title converts to text, a request whose title is blank, whose normalized
    timeline is empty, or that finds no bucket configured, is answered with
    the error of the first of these checks that fails: 400 [Title is
    required], 400 [Timeline is empty], 500 [Missing env S3_UPLOADS_BUCKET];
    the only call made is the cleanup. *)
Theorem checks_come_before_any_call
        (tmpRoot : string) (req : Request) (st : State) (clips : list clip)
        (titleText : string) :
  scratchCreated env tmpRoot ->
  normTimeline (bodyField req "timeline") = JS.Normal clips ->
  JS.ToString (JS.orElse (bodyField req "title") (JS.VStr "")) = JS.Normal titleText ->
  let blank := negb (JS.truthyString (JS.trim titleText)) in
  let empty := (List.length clips =? 0)%nat in
  let noBucket := match S3_UPLOADS_BUCKET env with
                  | Some bucket => negb (JS.truthyString bucket)
                  | None => true
                  end in
  blank || empty || noBucket = true ->
  fst (handler env req st)
  = Responded (if blank then Failure 400 "Title is required"
               else if empty then Failure 400 "Timeline is empty"
                    else Failure 500 "Missing env S3_UPLOADS_BUCKET")
  /\ trace (snd (handler env req st)) = (trace st ++ [EvCleanup tmpRoot])%list.
Proof.
  intros Hc Hclips Htitle blank empty noBucket Hfails.
  assert (Hrun : exists r st1,
             tryBlock env req tmpRoot (pathJoin tmpRoot "inputs") (pathJoin tmpRoot "out")
                      (atTry tmpRoot st) = (Return r, st1)
             /\ r = (if blank then Failure 400 "Title is required"
                     else if empty then Failure 400 "Timeline is empty"
                          else Failure 500 "Missing env S3_UPLOADS_BUCKET")
             /\ trace st1 = (trace st ++ [EvCleanup tmpRoot])%list).
  { unfold tryBlock. cbv zeta. rewrite Hclips, run_await_Normal, Htitle, run_await_Normal.
    fold blank. fold empty. destruct blank.
    { rewrite (run_cleanup_respond env tmpRoot). eauto. }
    destruct empty.
    { rewrite (run_cleanup_respond env tmpRoot). eauto. }
    cbn [orb] in Hfails. subst noBucket.
    destruct (S3_UPLOADS_BUCKET env) as [bucket|].
    - rewrite Hfails. rewrite (run_cleanup_respond env tmpRoot). eauto.
    - rewrite (run_cleanup_respond env tmpRoot). eauto. }
  destruct Hrun as (r & st1 & Hrun & -> & Htr).
  rewrite (handler_of_return env tmpRoot req st st1 _ Hc Hrun). split; [reflexivity | exact Htr].
Qed.

End EdgeFacts.

Lemma checks_come_before_any_call_witness :
  scratchCreated studioEnv scratchRoot
  /\ fst (@handler Plain.runtime studioEnv (request "  " []) idle)
     = Responded (Failure 400 "Title is required")
  /\ trace (snd (@handler Plain.runtime studioEnv (request "  " []) idle))
     = [EvCleanup scratchRoot].
Proof.
  assert (Hc : scratchCreated studioEnv scratchRoot) by (repeat split).
  split; [exact Hc|].
  destruct (@checks_come_before_any_call Plain.runtime studioEnv scratchRoot
              (request "  " []) idle [] "  " Hc eq_refl eq_refl eq_refl) as [Hr Htr].
  split; [exact Hr | exact Htr].
Defined.

(* ================================================================== *)
(** ** The stored visibility and the stored tags are in normal form *)
(* ================================================================== *)

Section NormalForms.

Lemma lowerChar_idem (c : ascii) : JS.lowerChar (JS.lowerChar c) = JS.lowerChar c.
Proof. destruct c as [[] [] [] [] [] [] [] []]; reflexivity. Qed.

Lemma lowerChar_space (c : ascii) : JS.isWhiteSpace (JS.lowerChar c) = JS.isWhiteSpace c.
Proof. destruct c as [[] [] [] [] [] [] [] []]; reflexivity. Qed.

Lemma lowerChar_comma (c : ascii) : Ascii.eqb (JS.lowerChar c) "," = Ascii.eqb c ",".
Proof. destruct c as [[] [] [] [] [] [] [] []]; reflexivity. Qed.

Lemma toLowerCase_idem (s : string) : JS.toLowerCase (JS.toLowerCase s) = JS.toLowerCase s.
Proof.
  induction s as [|c s IH]; [reflexivity|].
  cbn [JS.toLowerCase]. now rewrite lowerChar_idem, IH.
Qed.

Lemma toLowerCase_list (l : list ascii) :
  JS.toLowerCase (string_of_list_ascii l) = string_of_list_ascii (map JS.lowerChar l).
Proof. induction l as [|c l IH]; [reflexivity|]. cbn. now rewrite IH. Qed.

Lemma list_toLowerCase (s : string) :
  list_ascii_of_string (JS.toLowerCase s) = map JS.lowerChar (list_ascii_of_string s).
Proof. induction s as [|c s IH]; [reflexivity|]. cbn. now rewrite IH. Qed.

Lemma dropWhile_map {A} (p : A -> bool) (f : A -> A) (l : list A) :
  (forall x, p (f x) = p x) ->
  JS.dropWhile p (map f l) = map f (JS.dropWhile p l).
Proof.
  intros H. induction l as [|x l IH]; [reflexivity|].
  cbn [map JS.dropWhile]. rewrite H. destruct (p x); [exact IH | reflexivity].
Qed.

(** Trimming and lower-casing commute. *)
Lemma trim_toLowerCase (s : string) : JS.trim (JS.toLowerCase s) = JS.toLowerCase (JS.trim s).
Proof.
  unfold JS.trim, JS.trimEnd, JS.trimStart.
  rewrite toLowerCase_list, list_toLowerCase.
  rewrite (dropWhile_map _ _ _ lowerChar_space), <- map_rev.
  rewrite (dropWhile_map _ _ _ lowerChar_space), map_rev. reflexivity.
Qed.

Lemma dropWhile_idem {A} (p : A -> bool) (l : list A) :
  JS.dropWhile p (JS.dropWhile p l) = JS.dropWhile p l.
Proof.
  induction l as [|x l IH]; [reflexivity|].
  cbn [JS.dropWhile]. destruct (p x) eqn:E; [exact IH|]. cbn [JS.dropWhile]. now rewrite E.
Qed.

Lemma dropWhile_head {A} (p : A -> bool) (l : list A) :
  JS.dropWhile p l = [] \/ exists x l', JS.dropWhile p l = x :: l' /\ p x = false.
Proof.
  induction l as [|x l IH]; [now left|].
  cbn [JS.dropWhile]. destruct (p x) eqn:E; [exact IH | right; eauto].
Qed.

Lemma dropWhile_snoc {A} (p : A -> bool) (l : list A) (x : A) :
  p x = false -> JS.dropWhile p (l ++ [x]) = (JS.dropWhile p l ++ [x])%list.
Proof.
  intros Hx. induction l as [|y l IH]; cbn [app JS.dropWhile].
  - now rewrite Hx.
  - destruct (p y); [exact IH | reflexivity].
Qed.

Lemma trimEnd_cons (x : ascii) (l : list ascii) :
  JS.isWhiteSpace x = false -> JS.trimEnd (x :: l) = x :: JS.trimEnd l.
Proof.
  intros Hx. unfold JS.trimEnd. cbn [rev].
  rewrite (dropWhile_snoc _ _ _ Hx), rev_app_distr. reflexivity.
Qed.

Lemma trimEnd_idem (l : list ascii) : JS.trimEnd (JS.trimEnd l) = JS.trimEnd l.
Proof. unfold JS.trimEnd. now rewrite rev_involutive, dropWhile_idem. Qed.

Lemma trim_idem (s : string) : JS.trim (JS.trim s) = JS.trim s.
Proof.
  unfold JS.trim. rewrite list_ascii_of_string_of_list_ascii. f_equal.
  unfold JS.trimStart.
  destruct (dropWhile_head JS.isWhiteSpace (list_ascii_of_string s))
    as [->|(x & l' & -> & Hx)]; [reflexivity|].
  rewrite (trimEnd_cons x l' Hx). cbn [JS.dropWhile]. rewrite Hx.
  now rewrite (trimEnd_cons x _ Hx), trimEnd_idem.
Qed.

(** The normal form of a tag is not changed by normalizing it again. *)
Lemma tag_normal_idem (s : string) :
  JS.toLowerCase (JS.trim (JS.toLowerCase (JS.trim s))) = JS.toLowerCase (JS.trim s).
Proof. now rewrite trim_toLowerCase, trim_idem, toLowerCase_idem. Qed.

Lemma dropWhile_In {A} (p : A -> bool) (l : list A) (x : A) :
  In x (JS.dropWhile p l) -> In x l.
Proof.
  induction l as [|y l IH]; [auto|].
  cbn [JS.dropWhile]. destruct (p y); [right; auto | auto].
Qed.

Lemma trim_In (s : string) (c : ascii) :
  In c (list_ascii_of_string (JS.trim s)) -> In c (list_ascii_of_string s).
Proof.
  unfold JS.trim, JS.trimEnd, JS.trimStart. rewrite list_ascii_of_string_of_list_ascii.
  intros H. apply in_rev, dropWhile_In, in_rev, dropWhile_In in H. exact H.
Qed.

Lemma tag_normal_no_comma (s : string) :
  ~ In ","%char (list_ascii_of_string s) ->
  ~ In ","%char (list_ascii_of_string (JS.toLowerCase (JS.trim s))).
Proof.
  intros Hs H. rewrite list_toLowerCase in H. apply in_map_iff in H as (c & Hc & Hin).
  apply trim_In in Hin.
  assert (E : Ascii.eqb (JS.lowerChar c) "," = true) by (rewrite Hc; apply Ascii.eqb_refl).
  rewrite lowerChar_comma in E. apply Ascii.eqb_eq in E. subst c. contradiction.
Qed.

Lemma split_pieces_no_comma (s : string) :
  Forall (fun x => ~ In ","%char (list_ascii_of_string x)) (JS.split "," s).
Proof.
  induction s as [|c s IH]; cbn [JS.split].
  - repeat constructor. intros [].
  - destruct (Ascii.eqb c ",") eqn:E.
    + constructor; [intros [] | exact IH].
    + destruct (JS.split "," s) as [|piece rest].
      * repeat constructor. intros [Hc|[]]. rewrite Hc, Ascii.eqb_refl in E. discriminate.
      * inversion IH as [|? ? Hp Hr]; subst. constructor; [|exact Hr].
        intros [Hc|H]; [|contradiction]. rewrite Hc, Ascii.eqb_refl in E. discriminate.
Qed.

Lemma split_no_comma (x : string) :
  ~ In ","%char (list_ascii_of_string x) -> JS.split "," x = [x].
Proof.
  induction x as [|c x IH]; intros H; cbn [JS.split]; [reflexivity|].
  destruct (Ascii.eqb c ",") eqn:E.
  - apply Ascii.eqb_eq in E. subst c. exfalso. apply H. now left.
  - rewrite IH; [reflexivity|]. intros Hin. apply H. now right.
Qed.

Lemma split_append (x y : string) :
  ~ In ","%char (list_ascii_of_string x) ->
  JS.split "," (x ++ String "," y) = x :: JS.split "," y.
Proof.
  induction x as [|c x IH]; intros H.
  - reflexivity.
  - cbn [append JS.split]. destruct (Ascii.eqb c ",") eqn:E.
    + apply Ascii.eqb_eq in E. subst c. exfalso. apply H. now left.
    + rewrite IH; [reflexivity|]. intros Hin. apply H. now right.
Qed.

(** Splitting at the commas undoes joining with commas, for texts without
    a comma. *)
Lemma split_join (l : list string) :
  l <> [] ->
  Forall (fun x => ~ In ","%char (list_ascii_of_string x)) l ->
  JS.split "," (JS.join "," l) = l.
Proof.
  unfold JS.join. induction l as [|x l IH]; intros Hne Hall; [contradiction|].
  inversion Hall as [|? ? Hx Hl]; subst. destruct l as [|y l].
  - cbn [concat]. now apply split_no_comma.
  - change (concat "," (x :: y :: l)) with (x ++ String "," (concat "," (y :: l))).
    rewrite (split_append _ _ Hx), IH; [reflexivity | discriminate | exact Hl].
Qed.

Lemma distinct_NoDup_id (l : list string) : NoDup l -> JS.distinct l = l.
Proof.
  induction 1 as [|x l Hx Hl IH]; [reflexivity|].
  rewrite distinct_cons. f_equal. rewrite filter_all; [exact IH|].
  apply Forall_forall. intros y Hy. apply negb_true_iff, not_true_iff_false.
  intros E. apply String.eqb_eq in E. now subst.
Qed.

Lemma map_id_on {A} (f : A -> A) (l : list A) :
  Forall (fun x => f x = x) l -> map f l = l.
Proof. induction 1 as [|x l Hx _ IH]; [reflexivity|]. cbn. now rewrite Hx, IH. Qed.

(** Each stored tag is the normal form of a piece of the text. *)
Lemma tagsArr_pieces (tags t : string) :
  In t (tagsArr tags) ->
  t <> "" /\ exists x, In x (JS.split "," tags) /\ t = JS.toLowerCase (JS.trim x).
Proof.
  unfold tagsArr, JS.slice0. intros Ht. apply (proj1 (distinct_In _ _)) in Ht.
  match type of Ht with
  | In t (firstn 30 ?l) =>
      assert (Hin : In t l) by (rewrite <- (firstn_skipn 30 l); apply in_app_iff; now left)
  end.
  apply filter_In in Hin as [Hin Htruthy]. split; [intros ->; discriminate|].
  apply in_map_iff in Hin as (x & <- & Hx). eauto.
Qed.

(** X18. The stored tags are in normal form: each is trimmed and in lower
    case already and holds no comma. So the list is stable: the stored tags,
    joined with commas and submitted again, are stored as the same list. *)
Theorem stored_tags_are_stable (tags : string) :
  Forall (fun t => JS.toLowerCase (JS.trim t) = t
                   /\ ~ In ","%char (list_ascii_of_string t)) (tagsArr tags)
  /\ tagsArr (JS.join "," (tagsArr tags)) = tagsArr tags.
Proof.
  assert (Hnormal : Forall (fun t => JS.toLowerCase (JS.trim t) = t
                                     /\ ~ In ","%char (list_ascii_of_string t))
                           (tagsArr tags)).
  { apply Forall_forall. intros t Ht.
    destruct (tagsArr_pieces tags t Ht) as (_ & x & Hx & ->).
    split; [apply tag_normal_idem|]. apply tag_normal_no_comma.
    pose proof (split_pieces_no_comma tags) as Hall. rewrite Forall_forall in Hall.
    now apply Hall. }
  split; [exact Hnormal|].
  destruct (tagsArr tags) as [|t0 l0] eqn:E; [reflexivity|]. rewrite <- E in *.
  assert (Hne : tagsArr tags <> []) by (rewrite E; discriminate).
  unfold tagsArr at 1.
  rewrite split_join;
    [|exact Hne | eapply Forall_impl; [|exact Hnormal]; intros t Ht; apply Ht].
  rewrite map_id_on by (eapply Forall_impl; [|exact Hnormal]; intros t Ht; apply Ht).
  rewrite filter_all.
  2:{ apply Forall_forall. intros t Ht. destruct (tagsArr_pieces tags t Ht) as [Hfull _].
      now destruct t. }
  unfold JS.slice0. rewrite firstn_all2.
  2:{ unfold tagsArr, JS.slice0. etransitivity; [apply distinct_length|].
      apply firstn_le_length. }
  apply distinct_NoDup_id. unfold tagsArr. apply distinct_NoDup.
Qed.

(** X19. The stored visibility is always one of [public], [private] and
    [unlisted]: the lower-cased text when that is one of the three, [public]
    otherwise. It does not depend on the case of the letters, and a stored
    visibility submitted again is stored unchanged. *)
Theorem stored_visibility_is_allowed (visibility : string) :
  In (visOf visibility) allowedVis
  /\ (In (JS.toLowerCase visibility) allowedVis -> visOf visibility = JS.toLowerCase visibility)
  /\ (~ In (JS.toLowerCase visibility) allowedVis -> visOf visibility = "public")
  /\ visOf (JS.toLowerCase visibility) = visOf visibility
  /\ visOf (visOf visibility) = visOf visibility.
Proof.
  assert (Hallowed : In (visOf visibility) allowedVis).
  { unfold visOf.
    destruct (existsb (String.eqb (JS.toLowerCase visibility)) allowedVis) eqn:E.
    - apply existsb_exists in E as (x & Hx & Heq). apply String.eqb_eq in Heq. now subst.
    - now left. }
  split; [exact Hallowed|]. split; [|split; [|split]].
  - intros Hin. unfold visOf.
    destruct (existsb (String.eqb (JS.toLowerCase visibility)) allowedVis) eqn:E;
      [reflexivity|].
    apply not_true_iff_false in E. exfalso. apply E. apply existsb_exists.
    exists (JS.toLowerCase visibility). split; [exact Hin | apply String.eqb_refl].
  - intros Hout. unfold visOf.
    destruct (existsb (String.eqb (JS.toLowerCase visibility)) allowedVis) eqn:E;
      [|reflexivity].
    exfalso. apply Hout. apply existsb_exists in E as (x & Hx & Heq).
    apply String.eqb_eq in Heq. now subst.
  - unfold visOf. now rewrite toLowerCase_idem.
  - destruct Hallowed as [<-|[<-|[<-|[]]]]; reflexivity.
Qed.

End NormalForms.

(* ================================================================== *)
(** ** A job whose steps all work is published *)
(* ================================================================== *)

Section WorkingJob.
Context {RT : JS.Runtime}.
Variable env : Env.
Variable tmpRoot : string.

Lemma downloadsFrom_app (bucket inputDir : string) (byId : list Row) (a b : list clip) :
  forall i,
    downloadsFrom bucket inputDir byId i (a ++ b)
    = (downloadsFrom bucket inputDir byId i a
       ++ downloadsFrom bucket inputDir byId (i + List.length a) b)%list.
Proof.
  induction a as [|x a IH]; intros i; cbn [downloadsFrom app List.length].
  - now rewrite Nat.add_0_r.
  - rewrite IH. now rewrite Nat.add_succ_comm.
Qed.

Lemma find_all_false {A} (p : A -> bool) (l : list A) :
  (forall x, In x l -> p x = false) -> find p l = None.
Proof.
  induction l as [|x l IH]; intros H; [reflexivity|].
  cbn [find]. rewrite (H x (or_introl eq_refl)). apply IH. intros y Hy. apply H. now right.
Qed.

Lemma mapHas_mapGet (byId : list Row) (k : string) :
  mapHas byId k = true -> mapGet byId k <> None.
Proof.
  unfold mapHas, mapGet. intros H Hnone.
  apply existsb_exists in H as (r & Hr & Hk).
  pose proof (find_none _ _ Hnone r (proj1 (in_rev _ _) Hr)) as Hf.
  cbv beta in Hf. congruence.
Qed.

(** When every clip has a row and every download goes through, the loop
    gets through. *)
Lemma downloadAll_works (inputDir bucket : string) (byId : list Row) (clips : list clip)
      (st : State) :
  Forall (fun c => mapHas byId (videoId c) = true) clips ->
  Forall (downloadWorked env) (downloadsFrom bucket inputDir byId 0 clips) ->
  exists st1,
    downloadAll env tmpRoot inputDir bucket byId 0 clips [] st
    = (Continue (pathsFrom inputDir 0 clips), st1)
    /\ trace st1 = (trace st ++ downloadsFrom bucket inputDir byId 0 clips)%list.
Proof.
  intros Hres Hall.
  pose proof (downloadAll_spec env tmpRoot inputDir bucket byId clips 0 [] st) as H.
  destruct (downloadAll env tmpRoot inputDir bucket byId 0 clips [] st)
    as [[paths|r|e] st1].
  - destruct H as (-> & Htr & _). exists st1. split; [reflexivity | exact Htr].
  - exfalso. destruct H as (pre & c & post & -> & _ & Hk & _).
    rewrite downloadsFrom_app in Hall. apply Forall_app in Hall as [_ Hall].
    cbn [downloadsFrom] in Hall. inversion Hall as [|? ? Hc _]; subst.
    exact (proj1 Hc Hk).
  - exfalso. destruct H as (pre & c & post & -> & _ & [[Hnone _]|(_ & Hbad & _)]).
    + apply Forall_app in Hres as [_ Hres]. inversion Hres as [|? ? Hc _]; subst.
      exact (mapHas_mapGet _ _ Hc Hnone).
    + rewrite downloadsFrom_app in Hall. apply Forall_app in Hall as [_ Hall].
      cbn [downloadsFrom] in Hall. inversion Hall as [|? ? Hc _]; subst.
      exact (Hbad Hc).
Qed.

Lemma title_converts_once (title : JS.value) (t : string) :
  JS.ToString (JS.orElse title (JS.VStr "")) = JS.Normal t ->
  JS.truthyString (JS.trim t) = true ->
  JS.ToString title = JS.Normal t.
Proof.
  unfold JS.orElse. intros Ht Htruthy. destruct (JS.truthy title); [exact Ht|].
  cbn in Ht. injection Ht as <-. discriminate.
Qed.

(** X20. A job whose steps all work is published. When the scratch tree
    is created, the timeline normalizes to at least one clip, the title is
    not blank, the bucket is configured, the lookup answers with a row for
    every clip, every download goes through, the encoder exits with 0, the
    upload succeeds, the texts of the request convert, and the INSERT
    returns a row, the handler answers with the id of the first row returned
    and the name of the timeline, after exactly the calls of a published job
    (the lookup, the downloads, the probers, the three lines of the log, the
    encoder run, the upload, the INSERT, the cleanup), the record being the
    one built from the request. *)
Theorem working_job_is_published
        (req : Request) (st : State) (clips : list clip) (bucket : string) (rows : list Row)
        (flags : list bool) (titleText visText tagsText descText : string)
        (newId : JS.value) (more : list JS.value) :
  scratchCreated env tmpRoot ->
  normTimeline (bodyField req "timeline") = JS.Normal clips ->
  clips <> [] ->
  JS.ToString (JS.orElse (bodyField req "title") (JS.VStr "")) = JS.Normal titleText ->
  JS.truthyString (JS.trim titleText) = true ->
  S3_UPLOADS_BUCKET env = Some bucket ->
  bucket <> "" ->
  selectVideos env (map videoId clips) = JS.Normal rows ->
  Forall (fun c => mapHas rows (videoId c) = true) clips ->
  Forall (downloadWorked env) (downloadsFrom bucket (pathJoin tmpRoot "inputs") rows 0 clips) ->
  probeAll (spawn env) (pathsFrom (pathJoin tmpRoot "inputs") 0 clips) = JS.Normal flags ->
  (exists o e, spawn env "ffmpeg" (encoderArgsOf env tmpRoot clips flags)
               = Closed (Some 0%Z) o e) ->
  uploadFileToS3 env bucket (uploadKeyOf env req) (outPathOf env tmpRoot) "video/mp4"
  = JS.Normal tt ->
  JS.ToString (JS.orDefault (bodyField req "visibility") (JS.VStr "public"))
  = JS.Normal visText ->
  JS.ToString (JS.orElse (JS.orDefault (bodyField req "tags") (JS.VStr "")) (JS.VStr ""))
  = JS.Normal tagsText ->
  JS.ToString (JS.orElse (JS.orDefault (bodyField req "description") (JS.VStr ""))
                         (JS.VStr "")) = JS.Normal descText ->
  insertVideo env (mkNewVideo (userId req) (JS.trim titleText) (JS.trim descText)
                              (visOf visText) (uploadKeyOf env req) (tagsArr tagsText))
  = JS.Normal (newId :: more) ->
  fst (handler env req st)
  = Responded (Published newId (JS.orDefault (bodyField req "timelineName")
                                             (JS.VStr "Timeline")))
  /\ trace (snd (handler env req st))
     = (trace st
        ++ publishedTrace env req tmpRoot bucket rows clips flags
             (mkNewVideo (userId req) (JS.trim titleText) (JS.trim descText)
                         (visOf visText) (uploadKeyOf env req) (tagsArr tagsText)))%list.
Proof.
  intros Hc Hclips Hne Htitle Htruthy Hbucket Hb Hrows Hres Hdown Hflags (o & e & Hspawn)
         Hupload Hvis Htags Hdesc Hins.
  assert (Hrun : exists st1,
             tryBlock env req tmpRoot (pathJoin tmpRoot "inputs") (pathJoin tmpRoot "out")
                      (atTry tmpRoot st)
             = (Return (Published newId (JS.orDefault (bodyField req "timelineName")
                                                      (JS.VStr "Timeline"))), st1)
             /\ trace st1
                = (trace st
                   ++ publishedTrace env req tmpRoot bucket rows clips flags
                        (mkNewVideo (userId req) (JS.trim titleText) (JS.trim descText)
                                    (visOf visText) (uploadKeyOf env req)
                                    (tagsArr tagsText)))%list).
  { unfold tryBlock. cbv zeta.
    rewrite Hclips, run_await_Normal, Htitle, run_await_Normal, Htruthy. cbn [negb].
    replace (List.length clips =? 0)%nat with false by (now destruct clips).
    rewrite Hbucket.
    replace (JS.truthyString bucket) with true by (now destruct bucket).
    cbn [negb]. rewrite run_emit, Hrows, run_await_Normal.
    rewrite run_bind_cases, (checkResolved_run env tmpRoot).
    replace (find (fun c => negb (mapHas rows (videoId c))) clips) with (@None clip).
    2:{ symmetry. apply find_all_false. intros c Hin. rewrite Forall_forall in Hres.
        now rewrite (Hres c Hin). }
    rewrite run_bind_cases.
    match goal with
    | |- context [downloadAll env tmpRoot ?d bucket rows 0 clips [] ?s] =>
        destruct (downloadAll_works d bucket rows clips s Hres Hdown) as (st1 & -> & Htr1)
    end.
    cbn [trace] in Htr1.
    rewrite run_bind_cases, spawnProbes_run, Hflags, run_await_Normal, !run_emit.
    fold (outNameOf env). fold (outPathOf env tmpRoot). fold (uploadKeyOf env req).
    fold (encoderArgsOf env tmpRoot clips flags).
    rewrite run_bind_cases, (encode_run env). unfold runCmd at 1. rewrite Hspawn.
    rewrite run_emit, Hupload, run_await_Normal, Hvis, run_await_Normal, Htags,
      run_await_Normal, (title_converts_once _ _ Htitle Htruthy), run_await_Normal,
      Hdesc, run_await_Normal, run_emit, Hins, run_await_Normal.
    rewrite run_bind_cases, (cleanup_run env tmpRoot). unfold respond.
    eexists. split; [reflexivity|]. cbn [trace]. unfold publishedTrace. rewrite Htr1.
    rewrite <- !app_assoc. reflexivity. }
  destruct Hrun as (st1 & Hrun & Htr).
  rewrite (handler_of_return env tmpRoot req st st1 _ Hc Hrun). split; [reflexivity | exact Htr].
Qed.

End WorkingJob.

Lemma working_job_is_published_witness :
  scratchCreated studioEnv scratchRoot
  /\ fst (@handler Plain.runtime studioEnv publishReq idle)
     = Responded (Published (JS.VNum (JS.Fin 42)) (JS.VStr "Timeline")).
Proof.
  assert (Hc : scratchCreated studioEnv scratchRoot) by (repeat split).
  split; [exact Hc|].
  assert (Hworks : Forall (downloadWorked studioEnv)
                     (downloadsFrom "media" (pathJoin scratchRoot "inputs") storedRows 0
                        [mkClip "7" (JS.Fin 0) (JS.Fin 2) (JS.Fin 5);
                         mkClip "8" (JS.Fin 5) (JS.Fin 0) (JS.Fin 3)])).
  { repeat constructor; discriminate. }
  assert (Hne : [mkClip "7" (JS.Fin 0) (JS.Fin 2) (JS.Fin 5);
                 mkClip "8" (JS.Fin 5) (JS.Fin 0) (JS.Fin 3)] <> []) by discriminate.
  assert (Hb : "media" <> "") by discriminate.
  assert (Hres : Forall (fun c => mapHas storedRows (videoId c) = true)
                        [mkClip "7" (JS.Fin 0) (JS.Fin 2) (JS.Fin 5);
                         mkClip "8" (JS.Fin 5) (JS.Fin 0) (JS.Fin 3)])
    by (repeat constructor).
  exact (proj1 (@working_job_is_published Plain.runtime studioEnv scratchRoot publishReq idle
                  [mkClip "7" (JS.Fin 0) (JS.Fin 2) (JS.Fin 5);
                   mkClip "8" (JS.Fin 5) (JS.Fin 0) (JS.Fin 3)]
                  "media" storedRows [true; true] " Trip " "public"
                  "Funny, funny , CATS,,cats" "" (JS.VNum (JS.Fin 42)) []
                  Hc eq_refl Hne eq_refl eq_refl eq_refl Hb eq_refl
                  Hres Hworks eq_refl (ex_intro _ "" (ex_intro _ "" eq_refl))
                  eq_refl eq_refl eq_refl eq_refl eq_refl)).
Defined.
